(** * The real-time event core of the Mission Pinball Framework

    A shallow embedding of [mpf/system/timing.py],
    [mpf/system/switch_controller.py] and [mpf/devices/accelerometer.py],
    and of [readuntil] of [mpf/platforms/base_serial_communicator.py],
    with the properties of the specification that were checked against it
    and further properties of the code.

    The sources are Python 2 ([iteritems], [dict.items()] returning a list,
    integer [/]).  Python objects are rendered as records, exceptions as the
    left summand of a result, and methods as computations in a state and
    exception monad: a method that raises keeps the mutations it had already
    made, as in Python. *)

From Stdlib Require Import ZArith Lia List String Ascii Bool.
From Stdlib Require Import Floats.
From stdpp Require Import gmap strings list pretty.

Set Warnings "-inexact-float".

Local Open Scope Z_scope.

(** ** Python values and exceptions *)

(** A Python callable handed to the core.  Callbacks are opaque: the core
    only ever invokes them, so a callback is named by an identifier, every
    invocation is recorded in the machine's trace, and whether the
    invocation raises is given by an oracle ([raises] below).  A callback
    does not re-enter the core. *)
Definition callback := nat.
Bind Scope nat_scope with callback.

Inductive exn :=
| KeyError
| TypeError
| ValueError
| ZeroDivisionError
| OverflowError
| CallbackError (cb : callback).

Definition Result (A : Type) : Type := (exn + A)%type.

(** ** A state and exception monad *)

Section Monad.
Context {St : Type}.

Definition M (A : Type) : Type := St -> St * Result A.

Definition ret {A} (a : A) : M A := fun s => (s, inr a).

Definition raise {A} (e : exn) : M A := fun s => (s, inl e).

Definition bind {A B} (c : M A) (k : A -> M B) : M B :=
  fun s =>
    match c s with
    | (s', inr a) => k a s'
    | (s', inl e) => (s', inl e)
    end.

Definition get : M St := fun s => (s, inr s).

Definition gets {A} (f : St -> A) : M A := fun s => (s, inr (f s)).

Definition modify (f : St -> St) : M unit := fun s => (f s, inr tt).

Definition lift {A} (r : Result A) : M A := fun s => (s, r).

(** [for x in l: body(x)]: the loop stops at the first exception. *)
Fixpoint for_each {A} (l : list A) (body : A -> M unit) : M unit :=
  match l with
  | [] => ret tt
  | x :: l' => bind (body x) (fun _ => for_each l' body)
  end.
End Monad.

Declare Scope py_scope.
Delimit Scope py_scope with py.
Notation "x <- c ;; k" := (bind c (fun x => k))
  (at level 100, c at next level, right associativity) : py_scope.
Notation "c ;; k" := (bind c (fun _ => k))
  (at level 100, right associativity) : py_scope.
Local Open Scope py_scope.

(** ** Python strings (ASCII) *)

Definition in_range (lo hi : N) (c : ascii) : bool :=
  let n := N_of_ascii c in (lo <=? n)%N && (n <=? hi)%N.

Definition is_lower (c : ascii) : bool := in_range 97 122 c.
Definition is_upper (c : ascii) : bool := in_range 65 90 c.
Definition isalpha (c : ascii) : bool := is_lower c || is_upper c.
Definition isdigit (c : ascii) : bool := in_range 48 57 c.
Definition isspace (c : ascii) : bool :=
  in_range 9 13 c || (N_of_ascii c =? 32)%N.

Definition upper_ascii (c : ascii) : ascii :=
  if is_lower c then ascii_of_N (N_of_ascii c - 32) else c.

(** [str.upper()] *)
Fixpoint upper (s : string) : string :=
  match s with
  | EmptyString => EmptyString
  | String c s' => String (upper_ascii c) (upper s')
  end.

(** [str.endswith(suffix)]: some tail of [s] is [suffix]. *)
Fixpoint endswith (s suffix : string) : bool :=
  String.eqb s suffix ||
  match s with
  | EmptyString => false
  | String _ s' => endswith s' suffix
  end.

(** [''.join(i for i in s if not i.isalpha())] *)
Fixpoint strip_alpha (s : string) : string :=
  match s with
  | EmptyString => EmptyString
  | String c s' =>
      if isalpha c then strip_alpha s' else String c (strip_alpha s')
  end.

(** ** Python numbers

    Integers are [Z].  Floats are IEEE binary64 numbers, as Python floats
    are: the primitive floats of Rocq, whose operations round to nearest,
    ties to even.  [Prim2SF] gives a float as a sign, a mantissa and an
    exponent, and [SF2Prim] goes back. *)

(** [float(n)] for an integer [n]: the nearest float, and [OverflowError]
    for an integer that is too large for one. *)
Definition float_of_int (n : Z) : Result float :=
  match binary_normalize prec emax n 0 false with
  | S754_infinity _ => inl OverflowError
  | s => inr (SF2Prim s)
  end.

(** A number handed to the core: a Python [int] or a [float]. *)
Inductive number :=
| Int (n : Z)
| Float (x : float).

Coercion Int : Z >-> number.
Coercion Float : float >-> number.

(** What the division by a float makes of its other operand: an [int] is
    converted as by [float(n)]. *)
Definition as_float (a : number) : Result float :=
  match a with
  | Int n => float_of_int n
  | Float x => inr x
  end.

(** [a / b] on floats. *)
Definition py_div (a b : float) : Result float :=
  if (b =? 0)%float then inl ZeroDivisionError else inr (a / b)%float.

(** [int(x)] for a float: truncation toward zero; an infinity is an
    [OverflowError] and a NaN a [ValueError]. *)
Definition py_int (x : float) : Result Z :=
  match Prim2SF x with
  | S754_nan => inl ValueError
  | S754_infinity _ => inl OverflowError
  | S754_zero _ => inr 0
  | S754_finite s m e =>
      let n := Z.shiftl (Z.pos m) e in
      inr (if s then - n else n)
  end.

(** [math.ceil(x)], which in Python 2 returns a float: the least whole
    number that is not below [x]; infinities and NaN come back as they
    are, and a result of zero keeps the sign of [x]. *)
Definition math_ceil (x : float) : float :=
  match Prim2SF x with
  | S754_finite s m e =>
      if 0 <=? e then x
      else
        let n := Z.shiftl (Z.pos m) e in
        let whole := Z.shiftl n (- e) =? Z.pos m in
        if s then
          if n =? 0 then (-0)%float
          else SF2Prim (binary_normalize prec emax (- n) 0 true)
        else
          SF2Prim (binary_normalize prec emax (if whole then n else n + 1)
                     0 false)
  | _ => x
  end.

(** A number that is not below zero: a zero of either sign, a positive
    number, positive infinity, or NaN (which compares below nothing). *)
Definition not_negative (s : spec_float) : Prop :=
  match s with
  | S754_infinity b | S754_finite b _ _ => b = false
  | S754_zero _ | S754_nan => True
  end.

(** [str.strip()]: leading and trailing whitespace removed. *)
Fixpoint lstrip (l : list ascii) : list ascii :=
  match l with
  | c :: l' => if isspace c then lstrip l' else l
  | [] => []
  end.

Definition strip (l : list ascii) : list ascii :=
  rev (lstrip (rev (lstrip l))).

Definition digit_of (c : ascii) : option Z :=
  if isdigit c then Some (Z.of_N (N_of_ascii c - 48)) else None.

(** Reads a run of decimal digits: the value accumulated on [acc], the
    number of digits read, and the rest of the input. *)
Fixpoint read_digits (l : list ascii) (acc : Z) (cnt : nat)
  : Z * nat * list ascii :=
  match l with
  | c :: l' =>
      match digit_of c with
      | Some d => read_digits l' (10 * acc + d) (S cnt)
      | None => (acc, cnt, l)
      end
  | [] => (acc, cnt, [])
  end.

(** The float nearest to [v / 10 ^ n], with the sign [negative]; [v] is
    not negative. *)
Definition decimal (negative : bool) (v : Z) (n : nat) : float :=
  match v with
  | Z.pos p =>
      SF2Prim (SFdiv prec emax (S754_finite negative p 0)
                 (S754_finite false (Z.to_pos (10 ^ Z.of_nat n)) 0))
  | _ => if negative then (-0)%float else 0%float
  end.

(** [float(s)] for a string without letters (the only strings the timing
    module converts): optional surrounding whitespace, an optional sign,
    digits with at most one decimal point and at least one digit, read as
    the nearest float.  Anything else is a [ValueError]. *)
Definition py_float (s : string) : Result float :=
  let l := strip (list_ascii_of_string s) in
  let '(negative, l) :=
    match l with
    | "-"%char :: l' => (true, l')
    | "+"%char :: l' => (false, l')
    | _ => (false, l)
    end in
  let '(ip, n1, l) := read_digits l 0 0 in
  let '(v, n2, l) :=
    match l with
    | "."%char :: l' => read_digits l' ip 0
    | _ => (ip, 0%nat, l)
    end in
  match l, (n1 + n2)%nat with
  | [], S _ => inr (decimal negative v n2)
  | _, _ => inl ValueError
  end.

(** ** The objects of the machine *)

(** [mpf.system.timing.Timer].  [tid] stands for the identity of the Python
    object (timers are kept in a [set]); [frequency] is in ticks. *)
Module Timer.
Record t := mk {
  tid : nat;
  callback : callback;
  args : list Z;
  wakeup : option Z;
  frequency : Z
}.
End Timer.

(** An element of [machine.switches]: the configuration of one switch. *)
Module Switch.
Inductive kind := NO | NC.
Record t := mk {
  name : string;
  number : Z;
  type : kind;
  tags : list string;
  state : Z
}.
End Switch.

(** A value of [registered_switches]: [{'ticks': ..., 'callback': ...}]. *)
Module Entry.
Record t := mk { ticks : Z; callback : callback }.
End Entry.

(** An element of a bucket of [active_timed_switches]:
    [{'switch_action': ..., 'callback': ...}]. *)
Module Pending.
Record t := mk { switch_action : string; callback : callback }.
End Pending.

(** A value of [SwitchController.switches]: [{'state': ..., 'time': ...}]. *)
Module SwState.
Record t := mk { state : Z; time : Z }.
End SwState.

(** What the core does to its environment: callbacks invoked (with the
    value of [Timing.tick] at the invocation) and events posted on the
    event bus. *)
Inductive Event :=
| Called (cb : callback) (args : list Z) (at_tick : Z)
| Posted (event_name : string).

(** The state of the control process.  [HZ], [secs_per_tick] and [tick] are
    the class attributes of [Timing], shared by every module; [timers] is
    the timer set of the [Timing] instance in its iteration order; the next
    four fields belong to the [SwitchController] and its [machine].

    [active_timed_switches] is a [defaultdict(list)] keyed by tick.  It is
    iterated while buckets are deleted from it, so it is kept as an
    association list whose order stands for the dict's iteration order
    (which Python 2 leaves unspecified); a key occurs at most once. *)
Record World := mkWorld {
  HZ : option Z;
  secs_per_tick : option float;
  tick : Z;
  timers : list Timer.t;
  machine_switches : list Switch.t;
  registered_switches : gmap string (list Entry.t);
  active_timed_switches : list (Z * list Pending.t);
  switches : gmap string SwState.t;
  trace : list Event
}.

Definition set_HZ (v : option Z) (w : World) : World :=
  mkWorld v (secs_per_tick w) (tick w) (timers w) (machine_switches w)
    (registered_switches w) (active_timed_switches w) (switches w) (trace w).

Definition set_secs_per_tick (v : option float) (w : World) : World :=
  mkWorld (HZ w) v (tick w) (timers w) (machine_switches w)
    (registered_switches w) (active_timed_switches w) (switches w) (trace w).

Definition set_tick (v : Z) (w : World) : World :=
  mkWorld (HZ w) (secs_per_tick w) v (timers w) (machine_switches w)
    (registered_switches w) (active_timed_switches w) (switches w) (trace w).

Definition set_timers (v : list Timer.t) (w : World) : World :=
  mkWorld (HZ w) (secs_per_tick w) (tick w) v (machine_switches w)
    (registered_switches w) (active_timed_switches w) (switches w) (trace w).

Definition set_registered_switches (v : gmap string (list Entry.t))
  (w : World) : World :=
  mkWorld (HZ w) (secs_per_tick w) (tick w) (timers w) (machine_switches w)
    v (active_timed_switches w) (switches w) (trace w).

Definition set_active_timed_switches (v : list (Z * list Pending.t))
  (w : World) : World :=
  mkWorld (HZ w) (secs_per_tick w) (tick w) (timers w) (machine_switches w)
    (registered_switches w) v (switches w) (trace w).

Definition set_switches (v : gmap string SwState.t) (w : World) : World :=
  mkWorld (HZ w) (secs_per_tick w) (tick w) (timers w) (machine_switches w)
    (registered_switches w) (active_timed_switches w) v (trace w).

Definition set_trace (v : list Event) (w : World) : World :=
  mkWorld (HZ w) (secs_per_tick w) (tick w) (timers w) (machine_switches w)
    (registered_switches w) (active_timed_switches w) (switches w) v.

(** The process before anything was configured, for a machine with the
    switches [sws]: the class attributes as [timing.py] initialises them,
    an empty timer set and an empty switch controller. *)
Definition boot (sws : list Switch.t) : World :=
  mkWorld None None 0 [] sws ∅ [] ∅ [].

(** Invoking a callback: the invocation is recorded, and it raises when
    the oracle says so. *)
Definition call (raises : callback -> bool) (cb : callback) (args : list Z)
  : M unit :=
  w <- get ;;
  modify (set_trace (trace w ++ [Called cb args (tick w)])) ;;
  if raises cb then raise (CallbackError cb) else ret tt.

(** The callbacks invoked so far, with the tick of each invocation. *)
Definition calls_of (cb : callback) (tr : list Event) : list Z :=
  omap (fun e => match e with
                 | Called c _ k => if Nat.eqb c cb then Some k else None
                 | Posted _ => None
                 end) tr.

(** ** [mpf/system/timing.py] *)

Module Timing.
Section WithCallbacks.
Variable raises : callback -> bool.

(** [Timing.configure(self, dev=None, HZ=50)]; [dev] is not used. *)
Definition configure (hz : Z) : M unit :=
  modify (set_HZ (Some hz)) ;;
  f <- lift (float_of_int hz) ;;
  spt <- lift (py_div 1 f) ;;
  modify (set_secs_per_tick (Some spt)).

(** [Timer.__init__(self, callback, args=tuple(), frequency=None)]:
    [frequency / 1000 * Timing.HZ], with Python 2's integer division.
    [tid] is the identity of the object being constructed. *)
Definition Timer__init__ (tid : nat) (cb : callback) (args : list Z)
  (frequency : option Z) : M Timer.t :=
  per_ms <- match frequency with
            | None => raise TypeError
            | Some f => ret (f / 1000)
            end ;;
  hz <- gets HZ ;;
  ticks <- match hz with
           | None => raise TypeError
           | Some h => ret (per_ms * h)
           end ;;
  ret (Timer.mk tid cb args None ticks).

Definition same_timer (a b : Timer.t) : bool :=
  Nat.eqb (Timer.tid a) (Timer.tid b).

Definition set_wakeup (v : option Z) (t : Timer.t) : Timer.t :=
  Timer.mk (Timer.tid t) (Timer.callback t) (Timer.args t) v
    (Timer.frequency t).

(** [Timing.add(self, timer)]: the timer object is updated, and enters
    the set unless it is a member already. *)
Definition add (t : Timer.t) : M unit :=
  w <- get ;;
  let t' := set_wakeup (Some (tick w + Timer.frequency t)) t in
  if existsb (same_timer t) (timers w)
  then modify (set_timers
                 (map (fun u => if same_timer t u then t' else u)
                    (timers w)))
  else modify (set_timers (timers w ++ [t'])).

(** [Timing.remove(self, timer)]: [set.remove] raises [KeyError] for a
    timer that is not a member. *)
Definition remove (t : Timer.t) : M unit :=
  w <- get ;;
  if existsb (same_timer t) (timers w)
  then modify (set_timers
                 (List.filter (fun u => negb (same_timer t u))
                    (timers w)))
  else raise KeyError.

(** [timer.wakeup and timer.wakeup <= Timing.tick]: [None] and [0] are
    both false. *)
Definition due (now : Z) (t : Timer.t) : bool :=
  match Timer.wakeup t with
  | None => false
  | Some wk => negb (wk =? 0) && (wk <=? now)
  end.

(** What firing leaves in [timer.wakeup]. *)
Definition rearm (t : Timer.t) : Timer.t :=
  if Timer.frequency t =? 0
  then set_wakeup None t
  else set_wakeup (option_map (fun wk => wk + Timer.frequency t)
                     (Timer.wakeup t)) t.

(** The body of the loop of [timer_tick] for the [i]-th timer of the set:
    the callback runs first, the timer object is updated afterwards. *)
Definition timer_body (i : nat) : M unit :=
  w <- get ;;
  match timers w !! i with
  | None => ret tt
  | Some t =>
      if due (tick w) t then
        call raises (Timer.callback t) (Timer.args t) ;;
        modify (fun w' => set_timers (<[i := rearm t]> (timers w')) w')
      else ret tt
  end.

(** [Timing.timer_tick(self)] *)
Definition timer_tick : M unit :=
  modify (fun w => set_tick (tick w + 1) w) ;;
  w <- get ;;
  for_each (seq 0 (length (timers w))) timer_body.

(** [Timing.msecs(ms)]: [int(ms / Timing.secs_per_tick / 1000)] *)
Definition msecs (ms : number) : M Z :=
  spt <- gets secs_per_tick ;;
  match spt with
  | None => raise TypeError
  | Some spt =>
      x <- lift (as_float ms) ;;
      a <- lift (py_div x spt) ;;
      b <- lift (py_div a 1000) ;;
      lift (py_int b)
  end.

(** [Timing.secs(s)]: [int(s / Timing.secs_per_tick)] *)
Definition secs (s : number) : M Z :=
  spt <- gets secs_per_tick ;;
  match spt with
  | None => raise TypeError
  | Some spt =>
      x <- lift (as_float s) ;;
      a <- lift (py_div x spt) ;;
      lift (py_int a)
  end.

(** [Timing.time_to_ticks(time)], the [parse_duration] of the
    specification. *)
Definition time_to_ticks (time : string) : M Z :=
  let time := upper time in
  if endswith time "ms" || endswith time "msec" then
    let time := strip_alpha time in
    x <- lift (py_float time) ;; msecs (Float x)
  else
    let time := strip_alpha time in
    x <- lift (py_float time) ;; secs (Float x).
End WithCallbacks.
End Timing.

(** ** [mpf/system/switch_controller.py] *)

Module SwitchController.

(** [self.active_timed_switches[key].append(value)] on the
    [defaultdict(list)]: a missing key is created with an empty bucket. *)
Fixpoint bucket_append (key : Z) (value : Pending.t)
  (d : list (Z * list Pending.t)) : list (Z * list Pending.t) :=
  match d with
  | [] => [(key, [value])]
  | (k, v) :: d' =>
      if k =? key then (k, v ++ [value]) :: d'
      else (k, v) :: bucket_append key value d'
  end.

Definition has_key (k : Z) (d : list (Z * list Pending.t)) : bool :=
  existsb (fun kv => fst kv =? k) d.

Definition remove_key (k : Z) (d : list (Z * list Pending.t))
  : list (Z * list Pending.t) :=
  List.filter (fun kv => negb (fst kv =? k)) d.

(** [del self.active_timed_switches[k]]: [KeyError] when [k] is not a key
    (a [defaultdict] supplies its default on lookup only). *)
Definition del_active (k : Z) : M unit :=
  w <- get ;;
  if has_key k (active_timed_switches w)
  then modify (set_active_timed_switches
                 (remove_key k (active_timed_switches w)))
  else raise KeyError.

(** [str(name) + '-' + str(state)] *)
Definition switch_key (name : string) (state : Z) : string :=
  name +:+ "-" +:+ pretty state.

(** [self.machine.switches[name]] *)
Definition machine_switch (name : string) : M Switch.t :=
  w <- get ;;
  match List.find (fun s => String.eqb (Switch.name s) name)
          (machine_switches w) with
  | Some s => ret s
  | None => raise KeyError
  end.

(** [ticks_since_change(self, switch_name)] *)
Definition ticks_since_change (switch_name : string) : M Z :=
  w <- get ;;
  match switches w !! switch_name with
  | None => raise KeyError
  | Some s => ret (tick w - SwState.time s)
  end.

(** [is_state(self, switch_name, state, ticks=0)].  [ticks] is [None] when
    the call comes from [is_active] or [is_inactive] without a count:
    Python 2 orders [None] below every number. *)
Definition is_state (switch_name : string) (state : Z) (ticks : option Z)
  : M bool :=
  w <- get ;;
  match switches w !! switch_name with
  | None => raise KeyError
  | Some s =>
      if SwState.state s =? state then
        since <- ticks_since_change switch_name ;;
        ret (match ticks with
             | None => true
             | Some n => n <=? since
             end)
      else ret false
  end.

(** [is_active(self, switch_name, ticks=None)] *)
Definition is_active (switch_name : string) (ticks : option Z) : M bool :=
  is_state switch_name 1 ticks.

(** [is_inactive(self, switch_name, ticks=None)] *)
Definition is_inactive (switch_name : string) (ticks : option Z) : M bool :=
  is_state switch_name 0 ticks.

(** [set_state(self, switch_name, state)] *)
Definition set_state (switch_name : string) (state : Z) : M unit :=
  modify (fun w =>
    set_switches (<[switch_name := SwState.mk state (tick w)]> (switches w))
      w).

(** [machine.events.post(event_name)] *)
Definition post (event_name : string) : M unit :=
  modify (fun w => set_trace (trace w ++ [Posted event_name]) w).

(** [_post_switch_events(self, switch_name, state)] *)
Definition _post_switch_events (switch_name : string) (state : Z) : M unit :=
  if state =? 1 then
    sw <- machine_switch switch_name ;;
    for_each (Switch.tags sw) (fun tag => post ("sw_" +:+ tag))
  else ret tt.

(** [add_switch_handler(self, switch_name, callback, state=1, ms=0)]:
    [ticks = int(math.ceil(ms / Timing.secs_per_tick / 1000))]. *)
Definition add_switch_handler (switch_name : string) (cb : callback)
  (state : Z) (ms : number) : M unit :=
  spt <- gets secs_per_tick ;;
  match spt with
  | None => raise TypeError
  | Some spt =>
      x <- lift (as_float ms) ;;
      a <- lift (py_div x spt) ;;
      b <- lift (py_div a 1000) ;;
      ticks <- lift (py_int (math_ceil b)) ;;
      let entry_val := Entry.mk ticks cb in
      let entry_key := switch_key switch_name state in
      modify (fun w =>
        set_registered_switches
          (<[entry_key := default [] (registered_switches w !! entry_key)
                            ++ [entry_val]]> (registered_switches w)) w)
  end.

(** [if self.machine.switches[name].type == 'NC' and logical is False:
    state = state ^ 1] *)
Definition logical_state (sw : Switch.t) (state : Z) (logical : bool) : Z :=
  match Switch.type sw with
  | Switch.NC => if logical then state else Z.lxor state 1
  | Switch.NO => state
  end.

Section WithCallbacks.
Variable raises : callback -> bool.

(** The first loop of [process_switch], over the handlers registered for
    [switch_key]. *)
Definition dispatch (key : string) (entry : Entry.t) : M unit :=
  if Entry.ticks entry =? 0 then call raises (Entry.callback entry) []
  else
    modify (fun w =>
      set_active_timed_switches
        (bucket_append (tick w + Entry.ticks entry)
           (Pending.mk key (Entry.callback entry))
           (active_timed_switches w)) w).

(** The second loop of [process_switch], over a snapshot of the buckets:
    every pending entry of the opposite state deletes its bucket. *)
Definition sweep (opposite : string) (kv : Z * list Pending.t) : M unit :=
  for_each (snd kv) (fun item =>
    if String.eqb (Pending.switch_action item) opposite
    then del_active (fst kv)
    else ret tt).

(** [process_switch(self, name=None, state=1, logical=False, num=None,
    obj=None)] *)
Definition process_switch (name : option string) (state : Z)
  (logical : bool) (num : option Z) (obj : option Switch.t) : M unit :=
  w <- get ;;
  let name :=
    match num with
    | Some n =>
        fold_left (fun nm sw =>
                     if Switch.number sw =? n then Some (Switch.name sw)
                     else nm) (machine_switches w) name
    | None =>
        match obj with
        | Some o => Some (Switch.name o)
        | None => name
        end
    end in
  match name with
  | None => raise KeyError
  | Some name =>
      sw <- machine_switch name ;;
      let state := logical_state sw state logical in
      set_state name state ;;
      let key := switch_key name state in
      w <- get ;;
      match registered_switches w !! key with
      | Some entries => for_each entries (dispatch key)
      | None => ret tt
      end ;;
      w <- get ;;
      for_each (active_timed_switches w)
        (sweep (switch_key name (Z.lxor state 1))) ;;
      _post_switch_events name state
  end.

(** [initialize_hw_states(self)] *)
Definition initialize_hw_states : M unit :=
  w <- get ;;
  for_each (machine_switches w) (fun switch =>
    process_switch (Some (Switch.name switch)) (Switch.state switch)
      false None None).

(** The body of the loop of [_tick] over the copy of the dict. *)
Definition fire (kv : Z * list Pending.t) : M unit :=
  w <- get ;;
  if fst kv <=? tick w then
    for_each (snd kv) (fun item =>
      call raises (Pending.callback item) []) ;;
    del_active (fst kv)
  else ret tt.

(** [_tick(self)], the handler of the [timer_tick] event. *)
Definition _tick : M unit :=
  w <- get ;;
  for_each (active_timed_switches w) fire.

(** Modelled from the spec: the machine's main loop, which is not part of
    these modules.  Once per tick the timing service advances the tick
    counter and calls the due periodic timers, and the [timer_tick] event
    then runs the switch controller's hook. *)
Definition machine_tick : M unit :=
  Timing.timer_tick raises ;; _tick.
End WithCallbacks.
End SwitchController.

(** ** [mpf/devices/accelerometer.py]

    Samples, configuration values and angles are IEEE binary64 numbers, as
    Python floats are: [+], [-], [*] and [math.sqrt] round as the hardware
    does and never raise on overflow, [/] raises [ZeroDivisionError] on a
    zero divisor, and [math.sqrt] and [math.acos] raise [ValueError]
    outside their domains.  Inside its domain [math.acos] is the
    platform's libm, which no standard pins down to the last bit: it is a
    parameter of the model. *)

Module Accelerometer.

Local Open Scope float_scope.

Definition vec : Type := float * float * float.

(** [self.config]: the entries that the device reads, and [others], the
    numeric entries of the dict that it does not read. *)
Record Config := mkConfig {
  number : Z;
  level_x : float;
  level_y : float;
  level_z : float;
  level_limits : list (float * string);
  hit_limits : list (float * string);
  others : gmap string float
}.

(** [machine.events.post(event_name, **kwargs)] *)
Record Post := mkPost {
  event_name : string;
  kwargs : list (string * float)
}.

(** The device: [value] and [history] are [False] until the first
    sample. *)
Record t := mk {
  config : Config;
  value : option vec;
  history : option vec;
  posted : list Post
}.

Definition set_value (v : option vec) (a : t) : t :=
  mk (config a) v (history a) (posted a).

Definition set_history (v : option vec) (a : t) : t :=
  mk (config a) (value a) v (posted a).

Definition post (e : string) (kw : list (string * float)) : @M t unit :=
  modify (fun a => mk (config a) (value a) (history a)
                     (posted a ++ [mkPost e kw])).

(** The device as [__init__] leaves it. *)
Definition init (c : Config) : t := mk c None None [].

(** [a / b] *)
Definition float_div (a b : float) : Result float :=
  if b =? 0 then inl ZeroDivisionError else inr (a / b).

(** [math.sqrt(x)] *)
Definition math_sqrt (x : float) : Result float :=
  if x <? 0 then inl ValueError else inr (sqrt x).

Definition math_pi : float := 3.141592653589793.

(** [_calculate_vector_length(self, x, y, z)] *)
Definition _calculate_vector_length (x y z : float) : @M t float :=
  lift (math_sqrt (x * x + y * y + z * z)).

Section WithLibm.
Variable acos : float -> float.

(** [math.acos(x)] *)
Definition math_acos (x : float) : Result float :=
  if (x <? -1) || (1 <? x) then inl ValueError else inr (acos x).

(** [_calculate_angle(self, x1, y1, z1, x2, y2, z2)] *)
Definition _calculate_angle (x1 y1 z1 x2 y2 z2 : float) : @M t float :=
  len1 <- _calculate_vector_length x1 y1 z1 ;;
  len2 <- _calculate_vector_length x2 y2 z2 ;;
  c <- lift (float_div (x1 * x2 + y1 * y2 + z1 * z2) (len1 * len2)) ;;
  lift (math_acos c).

(** [_handle_level(self, x, y, z)] *)
Definition _handle_level (x y z : float) : @M t unit :=
  a <- get ;;
  let c := config a in
  deviation_total <-
    _calculate_angle (level_x c) (level_y c) (level_z c) x y z ;;
  deviation_x <- _calculate_angle 0 (level_y c) (level_z c) 0 y z ;;
  deviation_y <- _calculate_angle (level_x c) 0 (level_z c) x 0 z ;;
  for_each (level_limits c) (fun limit =>
    let max_deviation := fst limit in
    if max_deviation <? deviation_total / math_pi * 180
    then post (snd limit)
           [("deviation_total", deviation_total);
            ("deviation_x", deviation_x);
            ("deviation_y", deviation_y)]
    else ret tt).

(** [_handle_hits(self, dx, dy, dz)] *)
Definition _handle_hits (dx dy dz : float) : @M t unit :=
  acceleration <- _calculate_vector_length dx dy dz ;;
  a <- get ;;
  for_each (hit_limits (config a)) (fun limit =>
    let min_acceleration := fst limit in
    if min_acceleration <? acceleration
    then post (snd limit) []
    else ret tt).

(** The [if not self.history: ... else: ...] block of
    [update_acceleration]: the deltas are returned, the filtered state is
    updated. *)
Definition low_pass (x y z : float) : @M t vec :=
  a <- get ;;
  match history a with
  | None =>
      modify (set_history (Some (x, y, z))) ;;
      ret (0, 0, 0)
  | Some (h0, h1, h2) =>
      let dx := x - h0 in
      let dy := y - h1 in
      let dz := z - h2 in
      let alpha := 0.95 in
      modify (set_history
                (Some (h0 * alpha + x * (1 - alpha),
                       h1 * alpha + y * (1 - alpha),
                       h2 * alpha + z * (1 - alpha)))) ;;
      ret (dx, dy, dz)
  end.

(** [update_acceleration(self, x, y, z)] *)
Definition update_acceleration (x y z : float) : @M t unit :=
  modify (set_value (Some (x, y, z))) ;;
  d <- low_pass x y z ;;
  let '(dx, dy, dz) := d in
  _handle_hits dx dy dz ;;
  _handle_level x y z.
End WithLibm.

(** Stands for [math.acos] in the concrete runs below, none of which
    reaches the call of libm (the run would be poisoned by the NaN). *)
Definition acos_not_reached : float -> float := fun _ => nan.

(** An upright reference along z and the limits of the specification's
    scenarios; the configuration also holds an entry [alpha] of 0.5. *)
Definition upright : Config :=
  mkConfig 0 0 0 1 [(30, "tilted")] [(0.5, "tilt_warning")]
    (<["alpha" := 0.5]> ∅).

(** A reference along the diagonal. *)
Definition diagonal : Config :=
  mkConfig 0 1 1 1 [(30, "tilted")] [(0.5, "tilt_warning")] ∅.

(** A device at rest on the upright reference: the filtered state and the
    last sample are both (0, 0, 1). *)
Definition resting : t := mk upright (Some (0, 0, 1)) (Some (0, 0, 1)) [].

(** What a computation leaves alone when it only posts events. *)
Definition same_signal (a0 a : t) : Prop :=
  config a = config a0 /\ value a = value a0 /\ history a = history a0.

End Accelerometer.

(** * Predicates, runs and scenarios used by the statements *)

(** ** Runs *)

(** [c] run [n] times in a row. *)
Fixpoint times (n : nat) (c : @M World unit) : M unit :=
  match n with
  | O => ret tt
  | S n' => c ;; times n' c
  end.

Definition always_raises : callback -> bool := fun _ => true.
Definition never_raises : callback -> bool := fun _ => false.

(** [process_switch(name, state)] with the defaults of the other
    arguments. *)
Definition report (raises : callback -> bool) (name : string) (state : Z)
  : M unit :=
  SwitchController.process_switch raises (Some name) state false None None.

(** One call into the core from the control thread. *)
Inductive op :=
| Configure (hz : Z)
| AddTimer (t : Timer.t)
| AddSwitchHandler (switch_name : string) (cb : callback) (state : Z)
    (ms : number)
| ProcessSwitch (name : option string) (state : Z) (logical : bool)
    (num : option Z) (obj : option Switch.t)
| MachineTick.

Definition step (raises : callback -> bool) (o : op) : M unit :=
  match o with
  | Configure hz => Timing.configure hz
  | AddTimer t => Timing.add t
  | AddSwitchHandler switch_name cb state ms =>
      SwitchController.add_switch_handler switch_name cb state ms
  | ProcessSwitch name state logical num obj =>
      SwitchController.process_switch raises name state logical num obj
  | MachineTick => SwitchController.machine_tick raises
  end.

(** A sequence of calls; it ends at the first call that raises. *)
Definition run (raises : callback -> bool) (ops : list op) : M unit :=
  for_each ops (step raises).


(** The part of [process_switch] that follows [set_state], for the
    resolved [name] and the logical [state]: the registered handlers, the
    sweep over the pending entries of the opposite state, and the tag
    events. *)
Definition handle (raises : callback -> bool) (name : string) (state : Z)
  : M unit :=
  w <- get ;;
  match registered_switches w !! SwitchController.switch_key name state with
  | Some entries =>
      for_each entries
        (SwitchController.dispatch raises
           (SwitchController.switch_key name state))
  | None => ret tt
  end ;;
  w <- get ;;
  for_each (active_timed_switches w)
    (SwitchController.sweep
       (SwitchController.switch_key name (Z.lxor state 1))) ;;
  SwitchController._post_switch_events name state.

(** ** Predicates on the state *)

(** Every key of [active_timed_switches] lies after the current tick. *)
Definition future_keys (w : World) : Prop :=
  Forall (fun kv => tick w < fst kv) (active_timed_switches w).



(** What the three loops of [process_switch] and [_tick] leave alone: the
    clock, the state table and the handler registry. *)
Definition untouched (w0 w : World) : Prop :=
  tick w = tick w0
  /\ switches w = switches w0
  /\ registered_switches w = registered_switches w0
  /\ secs_per_tick w = secs_per_tick w0
  /\ machine_switches w = machine_switches w0
  /\ timers w = timers w0.

(** The number of pending entries with callback [cb] in the bucket of
    tick [k]. *)
Definition pending_for (cb : callback) (k : Z)
  (d : list (Z * list Pending.t)) : nat :=
  length (List.filter (fun item => Nat.eqb (Pending.callback item) cb)
            (flat_map snd (List.filter (fun kv => fst kv =? k) d))).

(** The invocations of [cb] that the buckets of [w] schedule for the next
    [n] ticks: one per pending entry, at the tick of its bucket. *)
Definition due_calls (cb : callback) (w : World) (n : nat) : list Z :=
  flat_map (fun j => repeat (tick w + Z.of_nat j)
                       (pending_for cb (tick w + Z.of_nat j)
                          (active_timed_switches w)))
    (seq 1 n).

(** The state in which [cb] can be watched: the keys of the buckets are
    distinct and in the future, and no timer shares the callback. *)
Definition quiet_for (cb : callback) (w : World) : Prop :=
  future_keys w
  /\ List.NoDup (map fst (active_timed_switches w))
  /\ Forall (fun t => Timer.callback t <> cb) (timers w).

(** ** Scenarios *)

(** The machine as [configure(HZ=50)] leaves it. *)
Definition at_50Hz (sws : list Switch.t) : World :=
  fst (Timing.configure 50 (boot sws)).

Definition switch_A : Switch.t := Switch.mk "A" 1 Switch.NO ["left_flipper"] 0.
Definition switch_B : Switch.t := Switch.mk "B" 2 Switch.NO [] 0.
Definition switch_S : Switch.t := Switch.mk "S" 3 Switch.NC [] 0.

(** A periodic timer of 1000 ms (50 ticks at 50 Hz) with callback 7 is
    created and added at tick 0, and the clock is advanced to tick 49. *)
Definition periodic_timer_at_49 (raises : callback -> bool) : M unit :=
  Timing.configure 50 ;;
  t <- Timing.Timer__init__ 0 7%nat [] (Some 1000) ;;
  Timing.add t ;;
  times 49 (Timing.timer_tick raises).

(** At 50 Hz, callback 1 is registered on ("A", 1) with 40 ms (2 ticks) and
    callback 0 on ("A", 0) with 20 ms (1 tick).  "A" becomes active at
    tick 0 and inactive at tick 1. *)
Definition release_after_press : M unit :=
  Timing.configure 50 ;;
  SwitchController.add_switch_handler "A" 1 1 40 ;;
  SwitchController.add_switch_handler "A" 0 0 20 ;;
  report never_raises "A" 1 ;;
  SwitchController.machine_tick never_raises ;;
  report never_raises "A" 0.

(** At 50 Hz, callback 1 is registered on ("A", 1) and callback 2 on
    ("B", 1), both with 40 ms (2 ticks).  Both switches become active at
    tick 0, and one tick passes. *)
Definition neighbour_pressed : M unit :=
  Timing.configure 50 ;;
  SwitchController.add_switch_handler "A" 1 1 40 ;;
  SwitchController.add_switch_handler "B" 2 1 40 ;;
  report never_raises "A" 1 ;;
  report never_raises "B" 1 ;;
  SwitchController.machine_tick never_raises.

(** After [neighbour_pressed], "B" becomes inactive at tick 1. *)
Definition neighbour_released : M unit :=
  neighbour_pressed ;; report never_raises "B" 0.

(** At 50 Hz, callbacks 1 and 2 are registered on ("A", 1) with 40 ms
    (2 ticks) and callbacks 3 and 4 on ("A", 1) with 60 ms (3 ticks); "A"
    becomes active at tick 0. *)
Definition two_handlers_per_bucket : M unit :=
  Timing.configure 50 ;;
  SwitchController.add_switch_handler "A" 1 1 40 ;;
  SwitchController.add_switch_handler "A" 2 1 40 ;;
  SwitchController.add_switch_handler "A" 3 1 60 ;;
  SwitchController.add_switch_handler "A" 4 1 60 ;;
  report never_raises "A" 1.





(** At 50 Hz, callback 1 is registered on ("A", 1) with 100 ms (5 ticks),
    and "A" becomes active at tick 0 (scenario 2 of the specification). *)
Definition delayed_fire : M unit :=
  Timing.configure 50 ;;
  SwitchController.add_switch_handler "A" 1 1 100 ;;
  report never_raises "A" 1.


(** * [mpf/platforms/base_serial_communicator.py]

    This module, unlike the others, is Python 3.  [readuntil] is an
    [asyncio] coroutine that awaits the stream reader of the serial
    connection for one byte at a time; it touches nothing else.  The
    reader is rendered as the list of the bytes that it delivers, in
    their order, until the stream ends; [readexactly(1)] on a stream that
    has ended raises [IncompleteReadError]. *)

Module BaseSerialCommunicator.

(** [a == b] on [bytes] *)
Fixpoint bytes_eqb (a b : list Byte.byte) : bool :=
  match a, b with
  | [], [] => true
  | x :: a', y :: b' => Byte.eqb x y && bytes_eqb a' b'
  | _, _ => false
  end.

(** What a call of [readuntil] comes to. *)
Inductive outcome :=
| Returned (buffer : list Byte.byte)
| IncompleteReadError.

(** The loop of [readuntil], [buffer] being the bytes read so far: the
    outcome, and the bytes that are left in the reader. *)
Fixpoint read_loop (separator : list Byte.byte) (min_chars : Z)
  (buffer reader : list Byte.byte) : outcome * list Byte.byte :=
  match reader with
  | [] => (IncompleteReadError, [])
  | char :: reader' =>
      let buffer := buffer ++ [char] in
      if bytes_eqb [char] separator
         && (min_chars <? Z.of_nat (length buffer))
      then (Returned buffer, reader')
      else read_loop separator min_chars buffer reader'
  end.

(** [readuntil(self, separator, min_chars=0)] *)
Definition readuntil (separator : list Byte.byte) (min_chars : Z)
  (reader : list Byte.byte) : outcome * list Byte.byte :=
  read_loop separator min_chars [] reader.

End BaseSerialCommunicator.

(** * Further predicates and scenarios *)

(** ** Timers and events, for the statements about [timer_tick] *)

(** The events posted on the event bus so far. *)
Definition posted_of (tr : list Event) : list string :=
  omap (fun e => match e with
                 | Posted n => Some n
                 | Called _ _ _ => None
                 end) tr.

(** A timer after the tick [now], when its callback has returned: it was
    re-armed if it was due. *)
Definition fired (now : Z) (t : Timer.t) : Timer.t :=
  if Timing.due now t then Timing.rearm t else t.

(** The invocation of a timer's callback on the tick [now]. *)
Definition invocation (now : Z) (t : Timer.t) : Event :=
  Called (Timer.callback t) (Timer.args t) now.

(** The ticks, among the [n] ticks that follow [now], on which a timer in
    the state [t] is called when every callback returns. *)
Fixpoint schedule (now : Z) (t : Timer.t) (n : nat) : list Z :=
  match n with
  | O => []
  | S n' =>
      (if Timing.due (now + 1) t then [now + 1] else [])
      ++ schedule (now + 1) (fired (now + 1) t) n'
  end.

(** The ticks [now + 1], ..., [now + n]. *)
Definition next_ticks (now : Z) (n : nat) : list Z :=
  map (fun j => now + Z.of_nat j) (seq 1 n).

(** ** Numbers, for the statements about rounding *)

(** [x.is_integer()]: a finite float without a fractional part. *)
Definition is_integer (x : float) : bool :=
  match Prim2SF x with
  | S754_zero _ => true
  | S754_finite _ m e =>
      (0 <=? e) || (Z.shiftl (Z.shiftl (Z.pos m) e) (- e) =? Z.pos m)
  | _ => false
  end.

(** ** Registrations and what a report schedules *)

(** What the first loop of [process_switch] does to the buckets for one
    registration, the report being made at the tick [now]. *)
Definition schedule_entry (now : Z) (key : string)
  (d : list (Z * list Pending.t)) (e : Entry.t)
  : list (Z * list Pending.t) :=
  if Entry.ticks e =? 0 then d
  else SwitchController.bucket_append (now + Entry.ticks e)
         (Pending.mk key (Entry.callback e)) d.

(** The number of registrations of [cb] with a dwell of [j] ticks among
    [entries]. *)
Definition registered_for (cb : callback) (j : Z) (entries : list Entry.t)
  : nat :=
  length (List.filter
            (fun e => (Entry.ticks e =? j) && Nat.eqb (Entry.callback e) cb)
            entries).

(** No pending entry of the buckets [d] is for the switch action
    [action]. *)
Definition none_for (action : string) (d : list (Z * list Pending.t))
  : Prop :=
  forall kv item, In kv d -> In item (snd kv) ->
                  String.eqb (Pending.switch_action item) action = false.

(** ** A stand-in for libm *)

(** A crude stand-in for [math.acos], for a concrete run that reaches the
    call: 45 degrees for a cosine below 0.8, and 0 from there on. *)
Definition acos_coarse : float -> float :=
  fun c => if (c <? 0.8)%float then 0.7853981633974483%float else 0%float.

(** ** More scenarios *)

(** At 50 Hz, callback 1 is registered twice on ("A", 1) without a dwell,
    callback 2 on ("A", 1) with 40 ms, and callback 1 on ("A", 0) without
    a dwell; the clock is at tick 3. *)
Definition immediate_twice : M unit :=
  Timing.configure 50 ;;
  SwitchController.add_switch_handler "A" 1 1 0 ;;
  SwitchController.add_switch_handler "A" 2 1 40 ;;
  SwitchController.add_switch_handler "A" 1 1 0 ;;
  SwitchController.add_switch_handler "A" 1 0 0 ;;
  modify (set_tick 3).

(** A switch whose hardware reading at start-up is 1. *)
Definition switch_C : Switch.t := Switch.mk "C" 4 Switch.NO [] 1.

(** At 50 Hz, callback 1 is registered on ("A", 1) with 100 ms (5 ticks)
    and callback 2 on ("B", 1) with 40 ms (2 ticks); both switches become
    active at tick 0. *)
Definition two_switches_pressed : M unit :=
  Timing.configure 50 ;;
  SwitchController.add_switch_handler "A" 1 1 100 ;;
  SwitchController.add_switch_handler "B" 2 1 40 ;;
  report never_raises "A" 1 ;;
  report never_raises "B" 1.

(** * Reasoning about computations *)

(** Projections of updated worlds. *)
Ltac world :=
  cbn [HZ secs_per_tick tick timers machine_switches registered_switches
       active_timed_switches switches trace
       set_HZ set_secs_per_tick set_tick set_timers set_registered_switches
       set_active_timed_switches set_switches set_trace fst snd] in *.

Lemma bind_fst {St A B} (P : St -> Prop) (c : @M St A) (k : A -> M B)
  (s : St) :
  P (fst (c s)) ->
  (forall a s', P s' -> P (fst (k a s'))) ->
  P (fst (bind c k s)).
Proof.
  intros Hc Hk. unfold bind.
  destruct (c s) as [s' [e|a]]; cbn in *; auto.
Qed.

Lemma for_each_fst {St A} (P : St -> Prop) (l : list A)
  (body : A -> @M St unit) :
  (forall x s, In x l -> P s -> P (fst (body x s))) ->
  forall s, P s -> P (fst (for_each l body s)).
Proof.
  induction l as [|x l IH]; intros Hbody s Hs; [exact Hs|].
  cbn [for_each]. apply bind_fst.
  - apply Hbody; [now left|exact Hs].
  - intros _ s' Hs'. apply IH; [|exact Hs'].
    intros y s'' Hy. apply Hbody. now right.
Qed.

Lemma bind_inr {St A B} (c : @M St A) (k : A -> M B) (s s' : St) (b : B) :
  bind c k s = (s', inr b) ->
  exists a s1, c s = (s1, inr a) /\ k a s1 = (s', inr b).
Proof.
  unfold bind. destruct (c s) as [s1 [e|a]]; [discriminate|].
  intros H. now exists a, s1.
Qed.

Lemma for_each_returns {St A} (P : St -> Prop) (l : list A)
  (body : A -> @M St unit) :
  (forall x s, In x l -> P s ->
               snd (body x s) = inr tt /\ P (fst (body x s))) ->
  forall s, P s ->
    snd (for_each l body s) = inr tt /\ P (fst (for_each l body s)).
Proof.
  induction l as [|x l IH]; intros Hbody s Hs; [now split|].
  cbn [for_each]. unfold bind.
  destruct (Hbody x s (or_introl eq_refl) Hs) as [Hr Hp].
  destruct (body x s) as [s1 [e|[]]]; cbn in Hr, Hp; [discriminate|].
  apply IH; [|exact Hp]. intros y s' Hy. apply Hbody. now right.
Qed.

Lemma run_pair {St A} (c : @M St A) (s : St) (a : A) :
  snd (c s) = inr a -> c s = (fst (c s), inr a).
Proof. destruct (c s) as [s' r]. cbn. now intros ->. Qed.

(** * Signs of binary64 numbers

    What the conversions of the timing service need to know about their
    results is their sign, which rounding never changes. *)

Lemma round_aux_sign (prec emax : Z) (sx : bool) (m e : Z) (l : location) :
  match binary_round_aux prec emax sx m e l with
  | S754_infinity b | S754_finite b _ _ => b = sx
  | S754_zero _ | S754_nan => True
  end.
Proof.
  unfold binary_round_aux.
  destruct (shr_fexp prec emax m e l) as [mrs' e'].
  destruct (shr_fexp prec emax _ e' loc_Exact) as [mrs'' e''].
  destruct (shr_m mrs''); [exact I| |exact I].
  now destruct (Z.leb e'' (emax - prec)).
Qed.



(** A square is not negative. *)
Lemma mul_self_not_negative (prec emax : Z) (s : spec_float) :
  not_negative (SFmul prec emax s s).
Proof.
  destruct s as [b|b| |b m e]; cbn [SFmul not_negative]; try exact I.
  - now destruct b.
  - pose proof (round_aux_sign prec emax (xorb b b) (Z.pos (m * m)) (e + e)
                  loc_Exact) as H.
    destruct (binary_round_aux prec emax (xorb b b) _ _ _);
      cbn [not_negative]; try exact I; now destruct b.
Qed.

(** A sum of numbers that are not negative is not negative. *)
Lemma add_not_negative (prec emax : Z) (x y : spec_float) :
  not_negative x -> not_negative y -> not_negative (SFadd prec emax x y).
Proof.
  destruct x as [bx|bx| |bx mx ex], y as [by'|by'| |by' my ey];
    cbn [not_negative]; intros Hx Hy; subst; cbn [SFadd not_negative];
    try exact I; try reflexivity.
  - now destruct bx, by'.
  - cbn [cond_Zopp]. unfold binary_normalize, binary_round.
    change (Z.pos ?p + Z.pos ?q)%Z with (Z.pos (p + q)). cbv iota.
    destruct (shl_align (_ + _) _ _) as [mz ez].
    pose proof (round_aux_sign prec emax false (Z.pos mz) ez loc_Exact) as H.
    now destruct (binary_round_aux prec emax false _ _ _).
Qed.


Lemma not_negative_not_below_zero (d : float) :
  not_negative (Prim2SF d) -> (d <? 0)%float = false.
Proof.
  rewrite FloatAxioms.ltb_spec.
  change (Prim2SF 0) with (S754_zero false).
  unfold SFltb, SFcompare.
  destruct (Prim2SF d) as [b|b| |b m e]; cbn [not_negative];
    intros H; subst; reflexivity.
Qed.








(** * Integers as binary64 numbers

    What [float(n)] is for an integer [n]: exact below [2 ^ 53], never
    zero for [n] other than 0, and an overflow from [2 ^ 1024] on. *)

(** Appending [d] zero bits adds [d] digits. *)
Lemma digits2_pos_iter_xO (p d : positive) :
  Z.pos (digits2_pos (Pos.iter xO p d)) = Z.pos (digits2_pos p) + Z.pos d.
Proof.
  induction d as [|d IH] using Pos.peano_ind.
  - cbn [Pos.iter digits2_pos]. lia.
  - rewrite Pos.iter_succ. cbn [digits2_pos]. lia.
Qed.

(** Appending [d] zero bits multiplies by [2 ^ d]. *)
Lemma iter_xO_shiftl (p d : positive) :
  Z.pos (Pos.iter xO p d) = Z.pos p * 2 ^ Z.pos d.
Proof.
  induction d as [|d IH] using Pos.peano_ind.
  - cbn [Pos.iter]. lia.
  - rewrite Pos.iter_succ, Pos2Z.inj_succ, Z.pow_succ_r by lia.
    rewrite Pos2Z.inj_xO, IH. ring.
Qed.

(** A number of [d] binary digits lies in [[2 ^ (d - 1), 2 ^ d)]. *)
Lemma digits2_pos_bounds (p : positive) :
  2 ^ (Z.pos (digits2_pos p) - 1) <= Z.pos p < 2 ^ Z.pos (digits2_pos p).
Proof.
  induction p as [p IH|p IH|]; cbn [digits2_pos];
    [| |cbn; lia];
    rewrite Pos2Z.inj_succ;
    replace (Z.succ (Z.pos (digits2_pos p)) - 1)
      with (Z.succ (Z.pos (digits2_pos p) - 1)) by lia;
    rewrite !Z.pow_succ_r by lia; lia.
Qed.

(** ... and [d] is the only such number of digits. *)
Lemma digits2_pos_unique (p : positive) (d : Z) :
  2 ^ (d - 1) <= Z.pos p < 2 ^ d -> Z.pos (digits2_pos p) = d.
Proof.
  intros [Hlow Hhigh]. pose proof (digits2_pos_bounds p) as [Hl Hh].
  destruct (Z.lt_trichotomy (Z.pos (digits2_pos p)) d) as [Hlt|[Heq|Hgt]];
    [|exact Heq|].
  - assert (2 ^ Z.pos (digits2_pos p) <= 2 ^ (d - 1))
      by (apply Z.pow_le_mono_r; lia).
    lia.
  - destruct (Z_lt_le_dec d 0) as [Hneg|Hnonneg].
    + rewrite (Z.pow_neg_r 2 d) in Hhigh by exact Hneg. lia.
    + assert (2 ^ d <= 2 ^ (Z.pos (digits2_pos p) - 1))
        by (apply Z.pow_le_mono_r; lia).
      lia.
Qed.

Lemma digits2_pos_monotone (p q : positive) :
  Z.pos p <= Z.pos q -> Z.pos (digits2_pos p) <= Z.pos (digits2_pos q).
Proof.
  intros Hle. pose proof (digits2_pos_bounds p) as [Hl _].
  pose proof (digits2_pos_bounds q) as [_ Hh].
  destruct (Z_le_gt_dec (Z.pos (digits2_pos p)) (Z.pos (digits2_pos q)))
    as [H|H]; [exact H|].
  assert (2 ^ Z.pos (digits2_pos q) <= 2 ^ (Z.pos (digits2_pos p) - 1))
    by (apply Z.pow_le_mono_r; lia).
  lia.
Qed.

(** [shr_1] halves the mantissa of its record. *)
Lemma shr_1_halves (mrs : shr_record) :
  0 <= shr_m mrs -> shr_m (shr_1 mrs) = shr_m mrs / 2.
Proof.
  destruct mrs as [m r s]. cbn [shr_m]. intros Hm.
  rewrite <- Z.div2_div.
  destruct m as [|[p|p|]|p]; try reflexivity; lia.
Qed.

Lemma iter_shr_1_divides (k : positive) (mrs : shr_record) :
  0 <= shr_m mrs ->
  shr_m (SpecFloat.iter_pos shr_1 k mrs) = shr_m mrs / 2 ^ Z.pos k.
Proof.
  revert mrs.
  induction k as [k IH|k IH|]; intros mrs Hm; cbn [SpecFloat.iter_pos].
  - assert (H1 : 0 <= shr_m (shr_1 mrs))
      by (rewrite shr_1_halves by exact Hm; apply Z.div_pos; lia).
    assert (H2 : 0 <= shr_m (SpecFloat.iter_pos shr_1 k (shr_1 mrs)))
      by (rewrite IH by exact H1; apply Z.div_pos; [exact H1|];
          apply Z.pow_pos_nonneg; lia).
    rewrite IH, IH, shr_1_halves by assumption.
    rewrite !Z.div_div by (try apply Z.pow_pos_nonneg; lia).
    f_equal.
    replace (Z.pos k~1) with (1 + Z.pos k + Z.pos k) by lia.
    rewrite !Z.pow_add_r by lia. change (2 ^ 1) with 2. ring.
  - assert (H1 : 0 <= shr_m (SpecFloat.iter_pos shr_1 k mrs))
      by (rewrite IH by exact Hm; apply Z.div_pos; [exact Hm|];
          apply Z.pow_pos_nonneg; lia).
    rewrite IH, IH by assumption.
    rewrite Z.div_div by (try apply Z.pow_pos_nonneg; lia).
    f_equal.
    replace (Z.pos k~0) with (Z.pos k + Z.pos k) by lia.
    rewrite Z.pow_add_r by lia. reflexivity.
  - apply shr_1_halves. exact Hm.
Qed.

(** Dropping [k] low bits of a number of more than [k] digits. *)
Lemma digits2_pos_shifted (p : positive) (k : Z) :
  0 <= k < Z.pos (digits2_pos p) ->
  exists q : positive,
    Z.pos p / 2 ^ k = Z.pos q
    /\ Z.pos (digits2_pos q) = Z.pos (digits2_pos p) - k.
Proof.
  intros Hk. pose proof (digits2_pos_bounds p) as [Hl Hh].
  assert (Hpow : 0 < 2 ^ k) by (apply Z.pow_pos_nonneg; lia).
  assert (Hlow : 2 ^ (Z.pos (digits2_pos p) - k - 1) <= Z.pos p / 2 ^ k).
  { apply Z.div_le_lower_bound; [exact Hpow|].
    rewrite <- Z.pow_add_r by lia.
    replace (k + (Z.pos (digits2_pos p) - k - 1))
      with (Z.pos (digits2_pos p) - 1) by lia.
    exact Hl. }
  assert (Hhigh : Z.pos p / 2 ^ k < 2 ^ (Z.pos (digits2_pos p) - k)).
  { apply Z.div_lt_upper_bound; [exact Hpow|].
    rewrite <- Z.pow_add_r by lia.
    replace (k + (Z.pos (digits2_pos p) - k))
      with (Z.pos (digits2_pos p)) by lia.
    exact Hh. }
  assert (Hone : 0 < 2 ^ (Z.pos (digits2_pos p) - k - 1))
    by (apply Z.pow_pos_nonneg; lia).
  destruct (Z.pos p / 2 ^ k) as [|q|q] eqn:Hq; [lia| |lia].
  exists q. split; [reflexivity|].
  apply digits2_pos_unique. split; assumption.
Qed.

(** [shr_fexp] on a mantissa that has at least the digits its exponent
    calls for: the result has exactly those digits. *)
Lemma shr_fexp_canonical (p : positive) (e : Z) (l : location) :
  emin <= e ->
  e <= fexp prec emax (Z.pos (digits2_pos p) + e) ->
  exists (mrs : shr_record) (m : positive),
    shr_fexp prec emax (Z.pos p) e l
    = (mrs, fexp prec emax (Z.pos (digits2_pos p) + e))
    /\ shr_m mrs = Z.pos m
    /\ canonical_mantissa prec emax m
         (fexp prec emax (Z.pos (digits2_pos p) + e)) = true
    /\ (fexp prec emax (Z.pos (digits2_pos p) + e) = e ->
        mrs = shr_record_of_loc (Z.pos p) l).
Proof.
  intros Hmin Hle. unfold shr_fexp, shr. cbn [Zdigits2].
  set (F := fexp prec emax (Z.pos (digits2_pos p) + e)) in *.
  assert (Hrec : shr_m (shr_record_of_loc (Z.pos p) l) = Z.pos p)
    by (destruct l as [|[]]; reflexivity).
  destruct (F - e) as [|k|k] eqn:Hk; [|..|lia].
  - assert (HF : F = e) by lia.
    exists (shr_record_of_loc (Z.pos p) l), p.
    rewrite HF. split; [reflexivity|]. split; [exact Hrec|].
    split; [|reflexivity].
    unfold canonical_mantissa. fold F. rewrite HF. apply Z.eqb_refl.
  - assert (Hshift : 0 <= Z.pos k < Z.pos (digits2_pos p)).
    { split; [lia|]. unfold F, fexp, emin, prec, emax in *. lia. }
    destruct (digits2_pos_shifted p (Z.pos k) Hshift) as (q & Hq & Hdig).
    exists (SpecFloat.iter_pos shr_1 k (shr_record_of_loc (Z.pos p) l)), q.
    split; [f_equal; lia|].
    split; [rewrite iter_shr_1_divides, Hrec by (rewrite Hrec; lia);
            exact Hq|].
    split; [|lia].
    unfold canonical_mantissa. rewrite Hdig.
    replace (Z.pos (digits2_pos p) - Z.pos k + F)
      with (Z.pos (digits2_pos p) + e) by lia.
    fold F. apply Z.eqb_refl.
Qed.

(** Rounding keeps the mantissa or adds one. *)
Lemma round_nearest_even_above (m : Z) (l : location) :
  m <= round_nearest_even m l <= m + 1.
Proof.
  destruct l as [|[]]; cbn [round_nearest_even];
    try destruct (Z.even m); lia.
Qed.

Lemma fexp_monotone (a b : Z) :
  a <= b -> fexp prec emax a <= fexp prec emax b.
Proof. unfold fexp. lia. Qed.

(** Rounding gives a number in normal form, or overflows. *)
Lemma round_aux_valid (sx : bool) (p : positive) (e : Z) :
  emin <= e ->
  e <= fexp prec emax (Z.pos (digits2_pos p) + e) ->
  exists (m : positive) (e' : Z),
    fexp prec emax (Z.pos (digits2_pos p) + e) <= e'
    /\ canonical_mantissa prec emax m e' = true
    /\ binary_round_aux prec emax sx (Z.pos p) e loc_Exact
       = (if e' <=? emax - prec then S754_finite sx m e'
          else S754_infinity sx).
Proof.
  intros Hmin Hle.
  destruct (shr_fexp_canonical p e loc_Exact Hmin Hle)
    as (mrs & q & Hshr & Hq & Hcan & _).
  unfold binary_round_aux. rewrite Hshr, Hq.
  set (F := fexp prec emax (Z.pos (digits2_pos p) + e)) in *.
  pose proof (round_nearest_even_above (Z.pos q) (loc_of_shr_record mrs))
    as [Habove _].
  destruct (round_nearest_even (Z.pos q) (loc_of_shr_record mrs))
    as [|p1|p1]; [lia| |lia].
  unfold canonical_mantissa in Hcan. apply Z.eqb_eq in Hcan.
  assert (Hle1 : F <= fexp prec emax (Z.pos (digits2_pos p1) + F)).
  { rewrite <- Hcan at 1. apply fexp_monotone.
    pose proof (digits2_pos_monotone q p1 Habove). lia. }
  assert (Hmin1 : emin <= F) by lia.
  destruct (shr_fexp_canonical p1 F loc_Exact Hmin1 Hle1)
    as (mrs' & m & Hshr' & Hm & Hcan' & _).
  rewrite Hshr', Hm.
  exists m, (fexp prec emax (Z.pos (digits2_pos p1) + F)).
  split; [exact Hle1|]. split; [exact Hcan'|reflexivity].
Qed.

(** The float nearest to an integer other than 0 is in normal form, with
    an exponent that is at least the one its digits call for, unless the
    integer overflows. *)
Lemma round_valid (sx : bool) (p : positive) :
  exists (m : positive) (e : Z),
    fexp prec emax (Z.pos (digits2_pos p)) <= e
    /\ canonical_mantissa prec emax m e = true
    /\ binary_round prec emax sx p 0
       = (if e <=? emax - prec then S754_finite sx m e
          else S754_infinity sx).
Proof.
  unfold binary_round, shl_align. rewrite Z.add_0_r, Z.sub_0_r.
  destruct (fexp prec emax (Z.pos (digits2_pos p))) as [|k|k] eqn:HF.
  - destruct (round_aux_valid sx p 0) as (m & e & He & Hcan & Hround).
    + unfold emin, prec, emax. lia.
    + rewrite Z.add_0_r, HF. lia.
    + exists m, e. rewrite Z.add_0_r, HF in He. auto.
  - destruct (round_aux_valid sx p 0) as (m & e & He & Hcan & Hround).
    + unfold emin, prec, emax. lia.
    + rewrite Z.add_0_r, HF. lia.
    + exists m, e. rewrite Z.add_0_r, HF in He. auto.
  - assert (Hdig : Z.pos (digits2_pos (Pos.iter xO p k)) + Z.neg k
                   = Z.pos (digits2_pos p))
      by (rewrite digits2_pos_iter_xO; lia).
    destruct (round_aux_valid sx (Pos.iter xO p k) (Z.neg k))
      as (m & e & He & Hcan & Hround).
    + rewrite <- HF. unfold fexp. lia.
    + rewrite Hdig, HF. lia.
    + exists m, e. rewrite Hdig, HF in He. auto.
Qed.

(** A number below [2 ^ 53] has at most 53 digits. *)
Lemma digits2_pos_small (p : positive) :
  Z.pos p < 2 ^ 53 -> Z.pos (digits2_pos p) <= 53.
Proof.
  intros Hp. pose proof (digits2_pos_bounds p) as [Hlow _].
  destruct (Z_le_gt_dec (Z.pos (digits2_pos p)) 53) as [Hle|Hgt];
    [exact Hle|].
  assert (2 ^ 53 <= 2 ^ (Z.pos (digits2_pos p) - 1))
    by (apply Z.pow_le_mono_r; lia).
  lia.
Qed.

(** A mantissa of 53 digits with an exponent in range is kept as it is. *)
Lemma round_aux_canonical (sx : bool) (m : positive) (e : Z) :
  Z.pos (digits2_pos m) = 53 -> -1074 <= e <= 971 ->
  binary_round_aux prec emax sx (Z.pos m) e loc_Exact = S754_finite sx m e.
Proof.
  intros Hd He.
  assert (Hshr : shr_fexp prec emax (Z.pos m) e loc_Exact
                 = ({| shr_m := Z.pos m; shr_r := false; shr_s := false |},
                    e)).
  { unfold shr_fexp, fexp, emin, prec, emax. cbn [Zdigits2 shr_record_of_loc].
    rewrite Hd.
    replace (Z.max (53 + e - 53) (3 - 1024 - 53) - e) with 0 by lia.
    reflexivity. }
  unfold binary_round_aux. rewrite Hshr.
  cbn [shr_m loc_of_shr_record round_nearest_even]. rewrite Hshr.
  cbn [shr_m]. unfold emax, prec.
  destruct (Z.leb_spec e (1024 - 53)) as [_|Hgt]; [reflexivity|lia].
Qed.

(** An integer below [2 ^ 53] is rounded to itself: it is only shifted to
    53 digits. *)
Lemma round_small (sx : bool) (p : positive) :
  Z.pos p < 2 ^ 53 ->
  exists (m : positive) (e : Z),
    binary_round prec emax sx p 0 = S754_finite sx m e
    /\ Z.pos (digits2_pos m) = 53
    /\ -52 <= e <= 0
    /\ Z.pos m = Z.pos p * 2 ^ (- e).
Proof.
  intros Hp. pose proof (digits2_pos_small p Hp) as Hd.
  assert (Hfexp : fexp prec emax (Z.pos (digits2_pos p) + 0)
                  = Z.pos (digits2_pos p) - 53)
    by (unfold fexp, emin, prec, emax; lia).
  unfold binary_round, shl_align. rewrite Hfexp, Z.sub_0_r.
  destruct (Z.pos (digits2_pos p) - 53) as [|k|k] eqn:Hk; [|lia|].
  - exists p, 0. rewrite round_aux_canonical by lia.
    repeat split; lia.
  - exists (Pos.iter xO p k), (Z.neg k).
    assert (Hdig : Z.pos (digits2_pos (Pos.iter xO p k)) = 53)
      by (rewrite digits2_pos_iter_xO; lia).
    rewrite round_aux_canonical by lia.
    split; [reflexivity|]. split; [exact Hdig|]. split; [lia|].
    rewrite iter_xO_shiftl. reflexivity.
Qed.

(** [float(n)] for [n] other than 0 overflows or is a float other than
    zero, with the sign of [n]. *)
Lemma float_of_int_nonzero (n : Z) :
  n <> 0 ->
  float_of_int n = inl OverflowError
  \/ exists f : float,
       float_of_int n = inr f
       /\ (f =? 0)%float = false
       /\ (f <? 0)%float = (n <? 0).
Proof.
  intros Hn.
  assert (Hround : forall (sx : bool) (p : positive),
            match binary_round prec emax sx p 0 with
            | S754_infinity _ => inl OverflowError
            | s => inr (SF2Prim s)
            end = inl OverflowError
            \/ exists f : float,
                 match binary_round prec emax sx p 0 with
                 | S754_infinity _ => inl OverflowError
                 | s => inr (SF2Prim s)
                 end = inr f
                 /\ (f =? 0)%float = false
                 /\ (f <? 0)%float = sx).
  { intros sx p.
    destruct (round_valid sx p) as (m & e & _ & Hcan & ->).
    destruct (Z.leb_spec e (emax - prec)) as [He|He]; [right|left; reflexivity].
    exists (SF2Prim (S754_finite sx m e)).
    assert (Hback : Prim2SF (SF2Prim (S754_finite sx m e))
                    = S754_finite sx m e).
    { apply Prim2SF_SF2Prim. unfold valid_binary, bounded.
      rewrite Hcan. apply Z.leb_le. exact He. }
    split; [reflexivity|].
    rewrite FloatAxioms.eqb_spec, FloatAxioms.ltb_spec, Hback.
    now destruct sx. }
  unfold float_of_int.
  destruct n as [|p|p]; [now destruct Hn| |]; cbn [binary_normalize].
  - apply (Hround false p).
  - apply (Hround true p).
Qed.

(** [float(n)] overflows for every [n] of magnitude [2 ^ 1024] or more. *)
Lemma float_of_int_overflows (n : Z) :
  2 ^ 1024 <= Z.abs n -> float_of_int n = inl OverflowError.
Proof.
  intros Hn.
  assert (Hround : forall (sx : bool) (p : positive),
            2 ^ 1024 <= Z.pos p ->
            match binary_round prec emax sx p 0 with
            | S754_infinity _ => inl OverflowError
            | s => inr (SF2Prim s)
            end = @inl exn float OverflowError).
  { intros sx p Hp.
    destruct (round_valid sx p) as (m & e & He & _ & ->).
    pose proof (digits2_pos_bounds p) as [_ Hhigh].
    assert (Hdig : 1024 < Z.pos (digits2_pos p)).
    { destruct (Z_lt_le_dec 1024 (Z.pos (digits2_pos p))) as [H|H];
        [exact H|].
      assert (2 ^ Z.pos (digits2_pos p) <= 2 ^ 1024)
        by (apply Z.pow_le_mono_r; lia).
      lia. }
    destruct (Z.leb_spec e (emax - prec)) as [Hle|_]; [|reflexivity].
    unfold fexp, emin, prec, emax in *. lia. }
  unfold float_of_int.
  destruct n as [|p|p]; cbn [binary_normalize].
  - cbn [Z.abs] in Hn. pose proof (Z.pow_pos_nonneg 2 1024). lia.
  - apply (Hround false p). exact Hn.
  - apply (Hround true p). exact Hn.
Qed.

(** [float(n)] is exact for [n] of magnitude below [2 ^ 53]: [int] gives
    [n] back. *)
Lemma float_of_int_exact (n : Z) :
  n <> 0 -> - 2 ^ 53 < n < 2 ^ 53 ->
  exists f : float,
    float_of_int n = inr f
    /\ (f =? 0)%float = false
    /\ py_int f = inr n.
Proof.
  intros Hn Hrange.
  assert (Hround : forall (sx : bool) (p : positive),
            Z.pos p < 2 ^ 53 ->
            exists f : float,
              match binary_round prec emax sx p 0 with
              | S754_infinity _ => inl OverflowError
              | s => inr (SF2Prim s)
              end = inr f
              /\ (f =? 0)%float = false
              /\ py_int f = inr (if sx then - Z.pos p else Z.pos p)).
  { intros sx p Hp.
    destruct (round_small sx p Hp) as (m & e & -> & Hdig & He & Hm).
    exists (SF2Prim (S754_finite sx m e)).
    assert (Hback : Prim2SF (SF2Prim (S754_finite sx m e))
                    = S754_finite sx m e).
    { apply Prim2SF_SF2Prim. unfold valid_binary, bounded, canonical_mantissa.
      rewrite Hdig. unfold fexp, emin, prec, emax.
      apply andb_true_intro. split; [apply Z.eqb_eq|apply Z.leb_le]; lia. }
    split; [reflexivity|]. split.
    - rewrite FloatAxioms.eqb_spec, Hback. now destruct sx.
    - assert (Hshift : Z.shiftl (Z.pos m) e = Z.pos p).
      { rewrite <- (Z.opp_involutive e) at 1.
        rewrite Z.shiftl_opp_r, Z.shiftr_div_pow2, Hm by lia.
        apply Z.div_mul, Z.pow_nonzero; lia. }
      unfold py_int. rewrite Hback. cbv zeta. rewrite Hshift.
      reflexivity. }
  unfold float_of_int.
  destruct n as [|p|p]; [now destruct Hn| |]; cbn [binary_normalize].
  - apply (Hround false p). lia.
  - apply (Hround true p). lia.
Qed.

(** An integer other than 0 of magnitude below [2 ^ 53] comes back from
    its float. *)
Lemma int_of_normalized (k : Z) (szero : bool) :
  k <> 0 -> - 2 ^ 53 < k < 2 ^ 53 ->
  py_int (SF2Prim (binary_normalize prec emax k 0 szero)) = inr k.
Proof.
  intros Hk Hrange.
  destruct (float_of_int_exact k Hk Hrange) as (f & Hf & _ & Hint).
  unfold float_of_int in Hf.
  destruct k as [|p|p]; [now destruct Hk| |]; cbn [binary_normalize] in *.
  - destruct (binary_round prec emax false p 0); inversion Hf; subst;
      exact Hint.
  - destruct (binary_round prec emax true p 0); inversion Hf; subst;
      exact Hint.
Qed.

(** The mantissa of a float with a negative exponent is below [2 ^ 53]. *)
Lemma mantissa_small (x : float) (s : bool) (m : positive) (e : Z) :
  Prim2SF x = S754_finite s m e -> e < 0 -> Z.pos m < 2 ^ 53.
Proof.
  intros Hx He. pose proof (Prim2SF_valid x) as Hv. rewrite Hx in Hv.
  unfold valid_binary, bounded, canonical_mantissa in Hv.
  apply andb_prop in Hv as [Hcan _]. apply Z.eqb_eq in Hcan.
  pose proof (digits2_pos_bounds m) as [_ Hhigh].
  assert (Hdig : Z.pos (digits2_pos m) <= 53)
    by (unfold fexp, emin, prec, emax in Hcan; lia).
  assert (2 ^ Z.pos (digits2_pos m) <= 2 ^ 53)
    by (apply Z.pow_le_mono_r; lia).
  lia.
Qed.

(** [int(math.ceil(x))] against [int(x)]: one more for a positive [x]
    with a fractional part, and the same otherwise. *)
Lemma ceil_then_int (x : float) :
  py_int (math_ceil x)
  = match py_int x with
    | inl e => inl e
    | inr t =>
        inr (if (0 <? x)%float && negb (is_integer x) then t + 1 else t)
    end.
Proof.
  pose proof (mantissa_small x) as Hsmall.
  unfold math_ceil, is_integer. rewrite FloatAxioms.ltb_spec.
  change (Prim2SF 0) with (S754_zero false).
  unfold py_int at 2.
  destruct (Prim2SF x) as [s|s| |s m e] eqn:Hx.
  - unfold py_int. rewrite Hx. rewrite andb_false_r. reflexivity.
  - unfold py_int. rewrite Hx. reflexivity.
  - unfold py_int. rewrite Hx. reflexivity.
  - destruct (Z.leb_spec 0 e) as [He|He].
    + unfold py_int. rewrite Hx. cbn [orb negb]. rewrite andb_false_r.
      reflexivity.
    + specialize (Hsmall s m e eq_refl He). cbv zeta. cbn [orb].
      set (n := Z.shiftl (Z.pos m) e).
      assert (Hn : n = Z.pos m / 2 ^ (- e)).
      { unfold n. rewrite <- (Z.opp_involutive e) at 1.
        rewrite Z.shiftl_opp_r. apply Z.shiftr_div_pow2. lia. }
      assert (Hpow : 2 <= 2 ^ (- e)).
      { change 2 with (2 ^ 1) at 1. apply Z.pow_le_mono_r; lia. }
      assert (Hbound : 0 <= n /\ 2 * n <= Z.pos m).
      { rewrite Hn. split; [apply Z.div_pos; lia|].
        pose proof (Z.mul_div_le (Z.pos m) (2 ^ (- e)) ltac:(lia)).
        pose proof (Z.div_pos (Z.pos m) (2 ^ (- e)) ltac:(lia) ltac:(lia)).
        nia. }
      destruct s.
      * cbn [SFltb SFcompare andb].
        destruct (Z.eqb_spec n 0) as [Hz|Hnz].
        -- rewrite Hz. reflexivity.
        -- rewrite int_of_normalized by lia. reflexivity.
      * cbn [SFltb SFcompare andb].
        destruct (Z.eqb_spec (Z.shiftl n (- e)) (Z.pos m)) as [Hw|Hw].
        -- cbn [negb]. rewrite int_of_normalized; [reflexivity| |lia].
           intros Hz. rewrite Hz, Z.shiftl_0_l in Hw. lia.
        -- cbn [negb]. rewrite int_of_normalized by lia. reflexivity.
Qed.

(** * Properties of the timing service *)

(** The conversions are carried out in binary64.  At 75 Hz, 200 ms are 14
    ticks: [200 / (1 / 75.0) / 1000] is just below 15.  At 50 Hz, "0.58"
    seconds are 28 ticks.  At 49 Hz, 1000 ms are 49 ticks, and a dwell of
    1000 ms, which is rounded up, is 50 ticks. *)
Lemma conversions_round_as_binary64 :
  snd (Timing.msecs 200 (fst (Timing.configure 75 (boot [])))) = inr 14
  /\ snd (Timing.time_to_ticks "0.58" (at_50Hz [])) = inr 28
  /\ snd (Timing.msecs 1000 (fst (Timing.configure 49 (boot [])))) = inr 49
  /\ registered_switches
       (fst (SwitchController.add_switch_handler "A" 1 1 1000
               (fst (Timing.configure 49 (boot []))))) !! "A-1"
     = Some [Entry.mk 50 1].
Proof. repeat split; vm_compute; reflexivity. Qed.


Lemma upper_ascii_not_m (c : ascii) : Ascii.eqb (upper_ascii c) "m" = false.
Proof. destruct c as [[] [] [] [] [] [] [] []]; reflexivity. Qed.

Lemma endswith_upper_ms (s : string) : endswith (upper s) "ms" = false.
Proof.
  induction s as [|c s IH]; [reflexivity|].
  cbn [upper endswith]. rewrite IH, orb_false_r.
  cbn [String.eqb]. now rewrite upper_ascii_not_m.
Qed.

Lemma endswith_upper_msec (s : string) : endswith (upper s) "msec" = false.
Proof.
  induction s as [|c s IH]; [reflexivity|].
  cbn [upper endswith]. rewrite IH, orb_false_r.
  cbn [String.eqb]. now rewrite upper_ascii_not_m.
Qed.

(** Whatever the string, [time_to_ticks] takes its second branch: the
    string was upper-cased before it is tested for the lower-case
    suffixes, so the duration is always read as seconds. *)
Lemma time_to_ticks_always_seconds (time : string) (w : World) :
  Timing.time_to_ticks time w =
  (x <- lift (py_float (strip_alpha (upper time))) ;; Timing.secs x) w.
Proof.
  unfold Timing.time_to_ticks.
  now rewrite endswith_upper_ms, endswith_upper_msec.
Qed.

(** C4: [parse_duration("Xms")] is claimed to equal [msecs(X)].  At 50 Hz,
    [time_to_ticks("200ms")] returns 10000 ticks, which is [secs(200)],
    while [msecs(200)] is 10 ticks; the forms ["2s"] and ["2"] do parse as
    [secs(2)]. *)
Theorem time_to_ticks_200ms_is_200_seconds :
  snd (Timing.time_to_ticks "200ms" (at_50Hz [])) = inr 10000
  /\ snd (Timing.secs 200 (at_50Hz [])) = inr 10000
  /\ snd (Timing.msecs 200 (at_50Hz [])) = inr 10
  /\ snd (Timing.time_to_ticks "2s" (at_50Hz [])) = inr 100
  /\ snd (Timing.time_to_ticks "2" (at_50Hz [])) = inr 100
  /\ snd (Timing.secs 2 (at_50Hz [])) = inr 100.
Proof. repeat split; vm_compute; reflexivity. Qed.

(** C5 (as stated, refuted): [configure] accepts a negative rate, accepts
    a second call with a different rate, and on a zero rate raises
    [ZeroDivisionError] after having stored the rate. *)
Lemma configure_accepts_any_nonzero_rate :
  snd (Timing.configure (-5) (boot [])) = inr tt
  /\ HZ (fst (Timing.configure (-5) (boot []))) = Some (-5)
  /\ snd ((Timing.configure 50 ;; Timing.configure 60) (boot [])) = inr tt
  /\ HZ (fst ((Timing.configure 50 ;; Timing.configure 60) (boot [])))
     = Some 60
  /\ snd (Timing.configure 0 (boot [])) = inl ZeroDivisionError
  /\ HZ (fst (Timing.configure 0 (boot []))) = Some 0.
Proof. repeat split. Qed.

(** C5 (amended): in every state, configured before or not, [configure]
    first stores the rate it is given and then computes
    [1 / float(HZ)].  For [HZ = 0] it raises [ZeroDivisionError].  For
    every other rate, a negative one included, it either raises
    [OverflowError], when [HZ] is too large for a float, or sets
    [secs_per_tick] to the binary64 quotient [1 / float(HZ)] and returns;
    it returns for every rate of magnitude below [2 ^ 53], for which
    [float(HZ)] is exact, and raises [OverflowError] for every rate of
    magnitude [2 ^ 1024] or more, such as [10 ** 400].  When it raises,
    [secs_per_tick] is left as it was.  No other field changes, and no
    other exception is raised. *)
Theorem configure_stores_rate (hz : Z) (w : World) :
  Timing.configure 0 w = (set_HZ (Some 0) w, inl ZeroDivisionError)
  /\ (hz <> 0 ->
      Timing.configure hz w = (set_HZ (Some hz) w, inl OverflowError)
      \/ exists f : float,
           float_of_int hz = inr f
           /\ (f =? 0)%float = false
           /\ Timing.configure hz w
              = (set_secs_per_tick (Some (1 / f)%float)
                   (set_HZ (Some hz) w), inr tt))
  /\ (hz <> 0 ->
      - 2 ^ 53 < hz < 2 ^ 53 ->
      exists f : float,
        float_of_int hz = inr f
        /\ py_int f = inr hz
        /\ Timing.configure hz w
           = (set_secs_per_tick (Some (1 / f)%float) (set_HZ (Some hz) w),
              inr tt))
  /\ (2 ^ 1024 <= Z.abs hz ->
      Timing.configure hz w = (set_HZ (Some hz) w, inl OverflowError))
  /\ Timing.configure (10 ^ 400) w
     = (set_HZ (Some (10 ^ 400)) w, inl OverflowError).
Proof.
  assert (Hrun : forall n,
            Timing.configure n w
            = match float_of_int n with
              | inl _ => (set_HZ (Some n) w, inl OverflowError)
              | inr f =>
                  if (f =? 0)%float
                  then (set_HZ (Some n) w, inl ZeroDivisionError)
                  else (set_secs_per_tick (Some (1 / f)%float)
                          (set_HZ (Some n) w), inr tt)
              end).
  { intros n. unfold Timing.configure, bind, modify, lift, py_div.
    cbn [fst snd]. unfold float_of_int.
    destruct (binary_normalize prec emax n 0 false); try reflexivity;
      now destruct (_ =? 0)%float. }
  split; [rewrite Hrun; reflexivity|].
  split; [|split; [|split]].
  - intros Hhz.
    destruct (float_of_int_nonzero hz Hhz) as [Hover|(f & Hf & Hne & _)].
    + left. rewrite Hrun, Hover. reflexivity.
    + right. exists f. rewrite Hrun, Hf, Hne. auto.
  - intros Hhz Hsmall.
    destruct (float_of_int_exact hz Hhz Hsmall) as (f & Hf & Hne & Hint).
    exists f. rewrite Hrun, Hf, Hne. auto.
  - intros Hlarge. rewrite Hrun, (float_of_int_overflows hz Hlarge).
    reflexivity.
  - rewrite Hrun.
    replace (float_of_int (10 ^ 400)) with (@inl exn float OverflowError)
      by (vm_compute; reflexivity).
    reflexivity.
Qed.

(** A rate of 50 Hz on the freshly booted machine: [float(50)] is exact,
    and [secs_per_tick] becomes [0.02]. *)
Lemma configure_stores_rate_of_50 :
  (exists f : float,
     float_of_int 50 = inr f
     /\ py_int f = inr 50
     /\ Timing.configure 50 (boot [])
        = (set_secs_per_tick (Some (1 / f)%float)
             (set_HZ (Some 50) (boot [])), inr tt))
  /\ secs_per_tick (fst (Timing.configure 50 (boot []))) = Some 0.02%float.
Proof.
  split; [|reflexivity].
  destruct (configure_stores_rate 50 (boot [])) as (_ & _ & Hsmall & _).
  apply Hsmall; [discriminate|split; reflexivity].
Defined.

(** C10: constructing a [Timer] without a frequency is claimed to yield a
    dormant timer.  The constructor computes [frequency / 1000] first, so
    with [frequency=None] it raises [TypeError] in every state and no
    timer comes to exist. *)
Theorem Timer_without_frequency_raises
  (tid : nat) (cb : callback) (args : list Z) (w : World) :
  Timing.Timer__init__ tid cb args None w = (w, inl TypeError).
Proof. reflexivity. Qed.


(** ** A callback that raises during [timer_tick] *)

Lemma rearm_tid (t : Timer.t) : Timer.tid (Timing.rearm t) = Timer.tid t.
Proof. unfold Timing.rearm. now destruct (Timer.frequency t =? 0). Qed.

(** The loop of [timer_tick] from position [a] on, when the [i]-th timer is
    the first one that is due with a raising callback: the loop stops
    there, with that timer object untouched. *)
Lemma timer_loop_stops_at_first_raise
  (raises : callback -> bool) (i : nat) (t : Timer.t) :
  raises (Timer.callback t) = true ->
  forall (n a : nat) (w : World),
    (a <= i < a + n)%nat ->
    timers w !! i = Some t ->
    Timing.due (tick w) t = true ->
    (forall j u, (a <= j < i)%nat -> timers w !! j = Some u ->
                 Timing.due (tick w) u = true ->
                 raises (Timer.callback u) = false) ->
    exists w',
      for_each (seq a n) (Timing.timer_body raises) w
      = (w', inl (CallbackError (Timer.callback t)))
      /\ timers w' !! i = Some t
      /\ Timer.tid <$> timers w' = Timer.tid <$> timers w
      /\ tick w' = tick w.
Proof.
  intros Hraise n. induction n as [|n IH]; intros a w Hrange Hi Hdue Hbefore.
  { lia. }
  cbn [seq for_each]. unfold bind at 1.
  destruct (decide (a = i)) as [->|Hne].
  - unfold Timing.timer_body at 1.
    unfold bind, get, call, modify, raise. cbn.
    rewrite Hi, Hdue. cbn. rewrite Hraise. cbn.
    eexists. split; [reflexivity|]. cbn. auto.
  - unfold Timing.timer_body at 1.
    unfold bind at 1, get at 1.
    destruct (timers w !! a) as [u|] eqn:Hu.
    + destruct (Timing.due (tick w) u) eqn:Hdu.
      * assert (Hnr : raises (Timer.callback u) = false)
          by (apply (Hbefore a u); [lia|assumption..]).
        unfold bind, get, call, modify, ret. cbn. rewrite Hnr. cbn.
        match goal with
        | |- context [for_each _ _ ?w1] =>
            destruct (IH (S a) w1) as (w' & Hrun & Hi' & Htids & Htick)
        end.
        -- lia.
        -- cbn. rewrite list_lookup_insert_ne by lia. exact Hi.
        -- exact Hdue.
        -- cbn. intros j v Hj Hv Hdv.
           rewrite list_lookup_insert_ne in Hv by lia.
           apply (Hbefore j v); [lia|assumption..].
        -- exists w'. rewrite Hrun. split; [reflexivity|].
           split; [exact Hi'|]. split; [|exact Htick].
           rewrite Htids. cbn.
           rewrite list_fmap_insert, rearm_tid.
           apply list_insert_id. now rewrite list_lookup_fmap, Hu.
      * unfold ret.
        destruct (IH (S a) w) as (w' & Hrun & Hrest); try assumption.
        -- lia.
        -- intros j v Hj. apply Hbefore. lia.
        -- exists w'. now rewrite Hrun.
    + unfold ret.
      destruct (IH (S a) w) as (w' & Hrun & Hrest); try assumption.
      * lia.
      * intros j v Hj. apply Hbefore. lia.
      * exists w'. now rewrite Hrun.
Qed.

Lemma due_later (now : Z) (t : Timer.t) :
  Timing.due now t = true -> Timing.due (now + 1) t = true.
Proof.
  unfold Timing.due. destruct (Timer.wakeup t) as [wk|]; [|discriminate].
  rewrite !andb_true_iff, !Z.leb_le. intuition lia.
Qed.

(** C6 (as stated, refuted): the timer of [periodic_timer_at_49] is due at
    tick 50.  Its callback raises; the exception leaves [timer_tick], the
    timer is still in the set, and its [wakeup] is still 50: it was not
    advanced by the frequency of 50 ticks. *)
Lemma raising_timer_wakeup_not_advanced :
  let w := fst (periodic_timer_at_49 always_raises (boot [])) in
  let w' := fst (Timing.timer_tick always_raises w) in
  timers w = [Timer.mk 0 7 [] (Some 50) 50]
  /\ tick w = 49
  /\ snd (Timing.timer_tick always_raises w) = inl (CallbackError 7%nat)
  /\ tick w' = 50
  /\ timers w' = [Timer.mk 0 7 [] (Some 50) 50]
  /\ trace w' = [Called 7 [] 50].
Proof. repeat split. Qed.

(** C6 (amended): if the first due timer of the set whose callback raises
    is [t], the exception propagates out of [timer_tick], the timer set
    has the same members, and [t] is exactly as it was before the tick:
    its [wakeup] has not been advanced (the callback runs before the
    update), so [t] is due again on the next tick. *)
Theorem timer_tick_raise_keeps_wakeup
  (raises : callback -> bool) (w : World) (i : nat) (t : Timer.t) :
  timers w !! i = Some t ->
  Timing.due (tick w + 1) t = true ->
  raises (Timer.callback t) = true ->
  (forall j u, (j < i)%nat -> timers w !! j = Some u ->
               Timing.due (tick w + 1) u = true ->
               raises (Timer.callback u) = false) ->
  exists w',
    Timing.timer_tick raises w
    = (w', inl (CallbackError (Timer.callback t)))
    /\ timers w' !! i = Some t
    /\ Timer.tid <$> timers w' = Timer.tid <$> timers w
    /\ tick w' = tick w + 1
    /\ Timing.due (tick w' + 1) t = true.
Proof.
  intros Hi Hdue Hraise Hbefore.
  unfold Timing.timer_tick, bind at 1, modify at 1, bind at 1, get at 1.
  destruct (timer_loop_stops_at_first_raise raises i t Hraise
              (length (timers (set_tick (tick w + 1) w))) 0
              (set_tick (tick w + 1) w))
    as (w' & Hrun & Hi' & Htids & Htick).
  - cbn. apply lookup_lt_Some in Hi. lia.
  - exact Hi.
  - exact Hdue.
  - cbn. intros j u Hj. apply Hbefore. lia.
  - exists w'. rewrite Hrun. cbn in Htick, Htids.
    rewrite Htick. repeat split; try assumption.
    now apply due_later.
Qed.

(** The timer of [periodic_timer_at_49], whose callback raises at
    tick 50. *)
Lemma timer_tick_raise_keeps_wakeup_at_50 :
  exists w',
    Timing.timer_tick always_raises
      (fst (periodic_timer_at_49 always_raises (boot [])))
    = (w', inl (CallbackError 7%nat))
    /\ timers w' !! 0%nat = Some (Timer.mk 0 7 [] (Some 50) 50)
    /\ Timer.tid <$> timers w' = [0%nat]
    /\ tick w' = 50
    /\ Timing.due (tick w' + 1) (Timer.mk 0 7 [] (Some 50) 50) = true.
Proof.
  apply (timer_tick_raise_keeps_wakeup always_raises
           (fst (periodic_timer_at_49 always_raises (boot []))) 0
           (Timer.mk 0 7 [] (Some 50) 50)).
  - reflexivity.
  - reflexivity.
  - reflexivity.
  - intros j u Hj. lia.
Defined.

(** * Properties of the switch controller *)

(** ** Delayed handlers and the cancellation sweep, on concrete runs *)

(** C1: a handler registered with a dwell of [d > 0] ticks is claimed to be
    invoked exactly once, on tick [t + d], when the switch entered the
    target state at tick [t] and was not reported again.  In
    [release_after_press] callback 0 waits for "A" to be inactive for 1
    tick.  "A" becomes inactive at tick 1 and is never reported again, yet
    the call that reports it leaves no pending entry behind (the bucket of
    tick 2 was deleted with the cancelled entry of callback 1 in it), and
    callback 0 is invoked neither on tick 2 nor on tick 3. *)
Theorem dwell_handler_lost_with_its_bucket :
  let w1 := fst (release_after_press (boot [switch_A])) in
  let later := times 2 (SwitchController.machine_tick never_raises) in
  snd (release_after_press (boot [switch_A])) = inr tt
  /\ tick w1 = 1
  /\ registered_switches w1 !! "A-0" = Some [Entry.mk 1 0]
  /\ switches w1 !! "A" = Some (SwState.mk 0 1)
  /\ active_timed_switches w1 = []
  /\ snd (later w1) = inr tt
  /\ tick (fst (later w1)) = 3
  /\ switches (fst (later w1)) !! "A" = Some (SwState.mk 0 1)
  /\ calls_of 0 (trace (fst (later w1))) = [].
Proof. repeat split; vm_compute; reflexivity. Qed.

(** The same loss across switches: "A" stays active from tick 0 on, but
    the release of "B" at tick 1 deletes the bucket of tick 2 that both
    pending entries share, and callback 1 is never invoked. *)
Lemma neighbour_release_cancels_other_switch :
  let w1 := fst (neighbour_released (boot [switch_A; switch_B])) in
  let later := times 2 (SwitchController.machine_tick never_raises) in
  snd (neighbour_released (boot [switch_A; switch_B])) = inr tt
  /\ switches w1 !! "A" = Some (SwState.mk 1 0)
  /\ active_timed_switches w1 = []
  /\ snd (later w1) = inr tt
  /\ calls_of 1 (trace (fst (later w1))) = [].
Proof. repeat split; vm_compute; reflexivity. Qed.

(** C2: every bucket that holds a pending entry of the opposite state is
    claimed to be removed by [process_switch].  After
    [two_handlers_per_bucket] the buckets of ticks 2 and 3 each hold two
    entries for ("A", 1).  Reporting "A" inactive deletes the bucket of
    tick 2 at its first entry and deletes it again at its second entry,
    which raises [KeyError]: the call is aborted and the bucket of tick 3
    stays, although it holds entries of the opposite state. *)
Theorem sweep_aborts_on_second_match :
  let w := fst (two_handlers_per_bucket (boot [switch_A])) in
  let w' := fst (report never_raises "A" 0 w) in
  active_timed_switches w
  = [(2, [Pending.mk "A-1" 1; Pending.mk "A-1" 2]);
     (3, [Pending.mk "A-1" 3; Pending.mk "A-1" 4])]
  /\ snd (report never_raises "A" 0 w) = inl KeyError
  /\ switches w' !! "A" = Some (SwState.mk 0 0)
  /\ active_timed_switches w'
     = [(3, [Pending.mk "A-1" 3; Pending.mk "A-1" 4])].
Proof. repeat split; vm_compute; reflexivity. Qed.

(** ** The state of a switch after [process_switch] *)

(** C3 (as stated, refuted): "S" is normally closed.  After
    [process_switch("S", 1)] the stored state is 0: [is_state("S", 1)] is
    false on the same tick, [is_state("S", 0)] is true. *)
Lemma is_state_of_NC_switch_is_inverted :
  let w := fst (report never_raises "S" 1 (boot [switch_S])) in
  snd (report never_raises "S" 1 (boot [switch_S])) = inr tt
  /\ snd (SwitchController.is_state "S" 1 (Some 0) w) = inr false
  /\ snd (SwitchController.is_state "S" 0 (Some 0) w) = inr true
  /\ snd (SwitchController.ticks_since_change "S" w) = inr 0.
Proof. repeat split; vm_compute; reflexivity. Qed.

(** ** What [process_switch] leaves alone *)

Lemma untouched_refl (w : World) : untouched w w.
Proof. repeat split. Qed.

Lemma call_untouched raises cb args (w0 w : World) :
  untouched w0 w -> untouched w0 (fst (call raises cb args w)).
Proof.
  unfold call, bind, get, modify. cbn.
  destruct (raises cb); cbn; auto.
Qed.

Lemma del_active_untouched k (w0 w : World) :
  untouched w0 w -> untouched w0 (fst (SwitchController.del_active k w)).
Proof.
  unfold SwitchController.del_active, bind, get. cbn.
  destruct (SwitchController.has_key k (active_timed_switches w)); cbn; auto.
Qed.

Lemma dispatch_untouched raises key entry (w0 w : World) :
  untouched w0 w ->
  untouched w0 (fst (SwitchController.dispatch raises key entry w)).
Proof.
  unfold SwitchController.dispatch.
  destruct (Entry.ticks entry =? 0); [apply call_untouched|cbn; auto].
Qed.

Lemma sweep_untouched opposite kv (w0 w : World) :
  untouched w0 w ->
  untouched w0 (fst (SwitchController.sweep opposite kv w)).
Proof.
  unfold SwitchController.sweep. revert w.
  apply for_each_fst. intros item w _ Hw.
  destruct (String.eqb _ _); [now apply del_active_untouched|exact Hw].
Qed.

Lemma post_switch_events_untouched name state (w0 w : World) :
  untouched w0 w ->
  untouched w0 (fst (SwitchController._post_switch_events name state w)).
Proof.
  intros Hw. unfold SwitchController._post_switch_events.
  destruct (state =? 1); [|exact Hw].
  apply bind_fst.
  - unfold SwitchController.machine_switch, bind, get. cbn.
    destruct (find _ _); exact Hw.
  - intros sw w1 Hw1. revert w1 Hw1. apply for_each_fst.
    intros tag w1 _ Hw1. exact Hw1.
Qed.

(** After [set_state], the rest of [process_switch] leaves the clock, the
    state table and the registry alone, whether it returns or raises. *)
Lemma handle_untouched raises name state (w0 : World) :
  untouched w0 (fst (handle raises name state w0)).
Proof.
  unfold handle.
  change (bind get ?k w0) with (k w0 w0). cbv beta.
  apply bind_fst.
  - destruct (registered_switches w0 !! _); [|apply untouched_refl].
    apply for_each_fst; [|apply untouched_refl].
    intros entry w _. apply dispatch_untouched.
  - intros _ w1 Hw1. change (bind get ?k w1) with (k w1 w1). cbv beta.
    apply bind_fst.
    + revert Hw1. generalize w1 at 1 3. intros w2 Hw2. revert w2 Hw2.
      apply for_each_fst. intros kv w2 _. apply sweep_untouched.
    + intros _ w2. apply post_switch_events_untouched.
Qed.

(** [process_switch] by name, for a switch of the machine: the state table
    is updated with the logical state, and the handlers, the sweep and the
    tag events follow. *)
Lemma process_switch_by_name raises (w : World) name sw s logical :
  find (fun x => String.eqb (Switch.name x) name) (machine_switches w)
  = Some sw ->
  SwitchController.process_switch raises (Some name) s logical None None w
  = handle raises name (SwitchController.logical_state sw s logical)
      (set_switches
         (<[name := SwState.mk (SwitchController.logical_state sw s logical)
                      (tick w)]> (switches w)) w).
Proof.
  intros Hfind. unfold SwitchController.process_switch.
  change (bind get ?k w) with (k w w). cbv beta.
  unfold bind at 1, SwitchController.machine_switch at 1.
  unfold bind at 1, get at 1. rewrite Hfind. reflexivity.
Qed.

(** Flipping the lowest bit changes a number. *)
Lemma lxor_1_differs (s : Z) : Z.lxor s 1 <> s.
Proof.
  intros H. apply (f_equal (fun z => Z.testbit z 0)) in H.
  rewrite Z.lxor_spec in H. change (Z.testbit 1 0) with true in H.
  destruct (Z.testbit s 0); discriminate H.
Qed.

(** C3 (amended): for a switch [sw] of the machine named [name], right
    after [process_switch(name, s, logical)] (returned or raised) and on
    the same tick, [ticks_since_change(name)] is 0 and [is_state(name, x)]
    is true for exactly one [x], the stored state: [s ^ 1] for a normally
    closed switch reported with [logical=False], and [s] otherwise.  So
    for a normally closed switch reported with [logical=False],
    [is_state(name, s)] is false. *)
Theorem process_switch_stores_logical_state
  (raises : callback -> bool) (w : World) (name : string) (sw : Switch.t)
  (s : Z) (logical : bool) :
  find (fun x => String.eqb (Switch.name x) name) (machine_switches w)
  = Some sw ->
  let w' :=
    fst (SwitchController.process_switch raises (Some name) s logical
           None None w) in
  let stored :=
    match Switch.type sw, logical with
    | Switch.NC, false => Z.lxor s 1
    | _, _ => s
    end in
  snd (SwitchController.is_state name stored (Some 0) w') = inr true
  /\ snd (SwitchController.ticks_since_change name w') = inr 0
  /\ (forall other : Z,
        other <> stored ->
        snd (SwitchController.is_state name other (Some 0) w') = inr false)
  /\ (Switch.type sw = Switch.NC ->
      logical = false ->
      snd (SwitchController.is_state name s (Some 0) w') = inr false).
Proof.
  intros Hfind w' stored.
  assert (Hstored : SwitchController.logical_state sw s logical = stored).
  { unfold SwitchController.logical_state, stored.
    destruct (Switch.type sw), logical; reflexivity. }
  assert (Hw' : switches w' !! name = Some (SwState.mk stored (tick w))
                /\ tick w' = tick w).
  { subst w'. rewrite (process_switch_by_name raises w name sw) by exact Hfind.
    match goal with
    | |- context [handle raises name ?st ?w1] =>
        pose proof (handle_untouched raises name st w1) as (Htick & Hsw & _)
    end.
    rewrite Hsw, Htick, Hstored. cbn. split; [|reflexivity].
    apply lookup_insert_eq. }
  destruct Hw' as [Hlook Htick].
  assert (Hother : forall other : Z,
             other <> stored ->
             snd (SwitchController.is_state name other (Some 0) w')
             = inr false).
  { intros other Hne.
    unfold SwitchController.is_state, bind, get, ret.
    rewrite Hlook. cbn.
    destruct (Z.eqb_spec stored other) as [Heq|_]; [|reflexivity].
    destruct Hne. symmetry. exact Heq. }
  split; [|split; [|split]].
  - unfold SwitchController.is_state, SwitchController.ticks_since_change,
      bind, get, ret.
    rewrite Hlook. cbn. rewrite Z.eqb_refl, Hlook. cbn.
    rewrite Htick, Z.sub_diag. reflexivity.
  - unfold SwitchController.ticks_since_change, bind, get, ret.
    rewrite Hlook. cbn. rewrite Htick, Z.sub_diag. reflexivity.
  - exact Hother.
  - intros Htype Hlogical. apply Hother.
    unfold stored. rewrite Htype, Hlogical.
    intros H. apply (lxor_1_differs s). symmetry. exact H.
Qed.

(** The normally closed switch "S", reported as 1 with [logical=False]:
    the stored state is [1 ^ 1 = 0], and [is_state("S", 1)] is false. *)
Lemma process_switch_stores_logical_state_of_S :
  snd (SwitchController.is_state "S" 0 (Some 0)
         (fst (SwitchController.process_switch never_raises (Some "S") 1
                 false None None (boot [switch_S]))))
  = inr true
  /\ snd (SwitchController.ticks_since_change "S"
            (fst (SwitchController.process_switch never_raises (Some "S") 1
                    false None None (boot [switch_S]))))
     = inr 0
  /\ snd (SwitchController.is_state "S" 2 (Some 0)
            (fst (SwitchController.process_switch never_raises (Some "S") 1
                    false None None (boot [switch_S]))))
     = inr false
  /\ snd (SwitchController.is_state "S" 1 (Some 0)
            (fst (SwitchController.process_switch never_raises (Some "S") 1
                    false None None (boot [switch_S]))))
     = inr false.
Proof.
  destruct (process_switch_stores_logical_state never_raises
              (boot [switch_S]) "S" switch_S 1 false eq_refl)
    as (Hstored & Hticks & Hother & Hraw).
  split; [exact Hstored|].
  split; [exact Hticks|].
  split; [apply Hother; vm_compute; discriminate|].
  apply Hraw; reflexivity.
Defined.

(** ** The keys of [active_timed_switches] lie in the future *)

Lemma bucket_append_future (now key : Z) (value : Pending.t)
  (d : list (Z * list Pending.t)) :
  now < key ->
  Forall (fun kv => now < fst kv) d ->
  Forall (fun kv => now < fst kv) (SwitchController.bucket_append key value d).
Proof.
  intros Hkey. induction 1 as [|[k v] d Hk Hd IH]; cbn.
  - constructor; [exact Hkey|constructor].
  - destruct (k =? key); constructor; auto.
Qed.








(** [process_switch] either raises before it changed anything (the switch
    is unknown), or updates the state table and runs [handle]. *)
Lemma process_switch_cases raises name state logical num obj (w : World) :
  fst (SwitchController.process_switch raises name state logical num obj w)
  = w
  \/ exists name' state',
       SwitchController.process_switch raises name state logical num obj w
       = handle raises name' state'
           (set_switches
              (<[name' := SwState.mk state' (tick w)]> (switches w)) w).
Proof.
  unfold SwitchController.process_switch.
  change (bind get ?k w) with (k w w). cbv beta zeta.
  match goal with
  | |- context [match ?resolved with Some _ => _ | None => _ end] =>
      destruct resolved as [name'|]
  end; [|left; reflexivity].
  destruct (find (fun x => String.eqb (Switch.name x) name')
              (machine_switches w)) as [sw|] eqn:Hfind.
  - right. exists name', (SwitchController.logical_state sw state logical).
    unfold bind at 1, SwitchController.machine_switch.
    unfold bind at 1, get at 1. rewrite Hfind. reflexivity.
  - left. unfold bind at 1, SwitchController.machine_switch.
    unfold bind at 1, get at 1. rewrite Hfind. reflexivity.
Qed.

(** [add_switch_handler] either raises and changes nothing, or appends one
    entry to the list registered under its key. *)
Lemma add_switch_handler_cases name cb state ms (w : World) :
  fst (SwitchController.add_switch_handler name cb state ms w) = w
  \/ exists spt x a b ticks,
       secs_per_tick w = Some spt
       /\ as_float ms = inr x
       /\ py_div x spt = inr a
       /\ py_div a 1000 = inr b
       /\ py_int (math_ceil b) = inr ticks
       /\ fst (SwitchController.add_switch_handler name cb state ms w)
          = set_registered_switches
              (<[SwitchController.switch_key name state :=
                   default []
                     (registered_switches w
                        !! SwitchController.switch_key name state)
                   ++ [Entry.mk ticks cb]]>
                 (registered_switches w)) w.
Proof.
  unfold SwitchController.add_switch_handler, bind, gets, lift, modify.
  destruct (secs_per_tick w) as [spt|]; [|now left].
  destruct (as_float ms) as [e|x] eqn:Hx; [now left|].
  destruct (py_div x spt) as [e|a] eqn:Ha; [now left|].
  destruct (py_div a 1000) as [e|b] eqn:Hb; [now left|].
  destruct (py_int (math_ceil b)) as [e|ticks] eqn:Ht; [now left|].
  right. exists spt, x, a, b, ticks. repeat split; assumption.
Qed.






(** [timer_tick] advances the clock by one and otherwise touches only the
    timers and the trace. *)
Lemma timer_tick_frame raises (w : World) :
  let w' := fst (Timing.timer_tick raises w) in
  tick w' = tick w + 1
  /\ active_timed_switches w' = active_timed_switches w
  /\ registered_switches w' = registered_switches w
  /\ secs_per_tick w' = secs_per_tick w.
Proof.
  set (P := fun w' : World =>
              tick w' = tick w + 1
              /\ active_timed_switches w' = active_timed_switches w
              /\ registered_switches w' = registered_switches w
              /\ secs_per_tick w' = secs_per_tick w).
  change (P (fst (Timing.timer_tick raises w))).
  unfold Timing.timer_tick. apply bind_fst.
  - cbn. repeat split.
  - intros _ w1 Hw1. change (bind get ?k w1) with (k w1 w1). cbv beta.
    apply for_each_fst; [|exact Hw1].
    intros i w2 _ Hw2. unfold Timing.timer_body.
    change (bind get ?k w2) with (k w2 w2). cbv beta.
    destruct (timers w2 !! i) as [t|]; [|exact Hw2].
    destruct (Timing.due (tick w2) t); [|exact Hw2].
    unfold call, bind, get, modify. cbn.
    destruct (raises (Timer.callback t)); cbn; exact Hw2.
Qed.

(** A pass of [_tick] over the buckets [l] that returns: no bucket was
    added, and no key of [l] that is due is left. *)
Lemma fire_loop raises (l : list (Z * list Pending.t)) :
  forall w w' : World,
    for_each l (SwitchController.fire raises) w = (w', inr tt) ->
    untouched w w'
    /\ incl (active_timed_switches w') (active_timed_switches w)
    /\ (forall kv kv', In kv l -> fst kv <= tick w ->
                       In kv' (active_timed_switches w') ->
                       fst kv' <> fst kv).
Proof.
  induction l as [|[k v] l IH]; intros w w' Hrun.
  - cbn in Hrun. injection Hrun as <-.
    split; [apply untouched_refl|]. split; [apply incl_refl|].
    intros kv kv' [].
  - cbn [for_each] in Hrun.
    apply bind_inr in Hrun as ([] & w1 & Hfire & Hrest).
    apply IH in Hrest as (Hunt & Hincl & Hgone).
    assert (H1 : untouched w w1
                 /\ incl (active_timed_switches w1) (active_timed_switches w)
                 /\ (k <= tick w ->
                     forall kv', In kv' (active_timed_switches w1) ->
                                 fst kv' <> k)).
    { unfold SwitchController.fire in Hfire.
      change (bind get ?f w) with (f w w) in Hfire. cbv beta in Hfire.
      cbn [fst snd] in Hfire.
      destruct (k <=? tick w) eqn:Hk.
      - apply bind_inr in Hfire as ([] & wc & Hcalls & Hdel).
        assert (Hwc : untouched w wc
                      /\ active_timed_switches wc = active_timed_switches w).
        { replace wc with (fst (for_each v
                     (fun item => call raises (Pending.callback item) []) w))
            by now rewrite Hcalls.
          apply (for_each_fst
                   (fun x => untouched w x
                             /\ active_timed_switches x
                                = active_timed_switches w));
            [|split; [apply untouched_refl|reflexivity]].
          intros item x _ [Hx1 Hx2]. split; [now apply call_untouched|].
          rewrite <- Hx2. unfold call, bind, get, modify. cbn.
          destruct (raises _); reflexivity. }
        destruct Hwc as [Hwc1 Hwc2].
        unfold SwitchController.del_active in Hdel.
        change (bind get ?f wc) with (f wc wc) in Hdel. cbv beta in Hdel.
        destruct (SwitchController.has_key k (active_timed_switches wc));
          [|discriminate].
        injection Hdel as <-. cbn. rewrite Hwc2.
        split; [exact Hwc1|]. split.
        + apply incl_filter.
        + intros _ kv' Hin. apply filter_In in Hin as [_ Hne].
          apply negb_true_iff, Z.eqb_neq in Hne. exact Hne.
      - injection Hfire as <-.
        split; [apply untouched_refl|]. split; [apply incl_refl|].
        apply Z.leb_gt in Hk. intros Hle. lia. }
    destruct H1 as (Hunt1 & Hincl1 & Hgone1).
    assert (Htick : tick w1 = tick w) by apply Hunt1.
    split.
    { destruct Hunt as (? & ? & ? & ? & ? & ?).
      destruct Hunt1 as (? & ? & ? & ? & ? & ?).
      repeat split; congruence. }
    split; [eapply incl_tran; eassumption|].
    intros kv kv' [<-|Hin] Hle Hin'.
    + cbn. apply Hgone1; [exact Hle|]. apply Hincl, Hin'.
    + apply (Hgone kv kv' Hin); [lia|exact Hin'].
Qed.

(** When [_tick] returns, every remaining key lies after the current
    tick, whatever the keys were before. *)
Lemma tick_hook_clears_due_keys raises (w w' : World) :
  SwitchController._tick raises w = (w', inr tt) ->
  future_keys w' /\ untouched w w'.
Proof.
  unfold SwitchController._tick.
  change (bind get ?f w) with (f w w). cbv beta.
  intros Hrun. apply fire_loop in Hrun as (Hunt & Hincl & Hgone).
  split; [|exact Hunt].
  unfold future_keys. apply Forall_forall. intros kv Hkv.
  apply list_elem_of_In in Hkv.
  destruct (Z_lt_le_dec (tick w') (fst kv)) as [Hlt|Hle]; [exact Hlt|].
  exfalso. apply (Hgone kv kv); [now apply Hincl| |exact Hkv|reflexivity].
  destruct Hunt as [Htick _]. lia.
Qed.







(** ** The cancellation sweep, when [process_switch] returns *)

Lemma bucket_append_keeps key value (d : list (Z * list Pending.t)) k v :
  In (k, v) d ->
  exists v', In (k, v ++ v') (SwitchController.bucket_append key value d).
Proof.
  induction d as [|[k0 v0] d IH]; intros Hin; [destruct Hin|].
  cbn. destruct Hin as [Heq|Hin].
  - injection Heq as -> ->. destruct (k =? key).
    + exists [value]. now left.
    + exists []. rewrite app_nil_r. now left.
  - destruct (k0 =? key).
    + exists []. rewrite app_nil_r. now right.
    + destruct (IH Hin) as [v' Hv']. exists v'. now right.
Qed.

Lemma has_key_In k (d : list (Z * list Pending.t)) v :
  In (k, v) d -> SwitchController.has_key k d = true.
Proof.
  intros Hin. unfold SwitchController.has_key. apply existsb_exists.
  exists (k, v). split; [exact Hin|]. apply Z.eqb_refl.
Qed.

Lemma has_key_incl k (d d' : list (Z * list Pending.t)) :
  incl d' d ->
  SwitchController.has_key k d = false ->
  SwitchController.has_key k d' = false.
Proof.
  intros Hincl Hd. destruct (SwitchController.has_key k d') eqn:Hd';
    [|reflexivity].
  apply existsb_exists in Hd' as (kv & Hin & Hk).
  assert (SwitchController.has_key k d = true); [|congruence].
  apply existsb_exists. exists kv. split; [now apply Hincl|exact Hk].
Qed.

Lemma has_key_remove_key k (d : list (Z * list Pending.t)) :
  SwitchController.has_key k (SwitchController.remove_key k d) = false.
Proof.
  destruct (SwitchController.has_key _ _) eqn:H; [|reflexivity].
  apply existsb_exists in H as (kv & Hin & Hk).
  apply filter_In in Hin as [_ Hne]. now rewrite Hk in Hne.
Qed.

(** The inner loop of the sweep over one bucket, when it returns: no
    bucket was added, and if the bucket holds an entry of the opposite
    state its key is gone. *)
Lemma sweep_bucket opposite k (v : list Pending.t) :
  forall w w' : World,
    SwitchController.sweep opposite (k, v) w = (w', inr tt) ->
    incl (active_timed_switches w') (active_timed_switches w)
    /\ (forall item, In item v ->
          Pending.switch_action item = opposite ->
          SwitchController.has_key k (active_timed_switches w') = false).
Proof.
  unfold SwitchController.sweep. cbn [fst snd].
  induction v as [|item v IH]; intros w w' Hrun.
  - cbn in Hrun. injection Hrun as <-. split; [apply incl_refl|].
    intros item [].
  - cbn [for_each] in Hrun.
    apply bind_inr in Hrun as ([] & w1 & Hitem & Hrest).
    apply IH in Hrest as [Hincl Hgone].
    destruct (String.eqb (Pending.switch_action item) opposite) eqn:Hmatch.
    + unfold SwitchController.del_active in Hitem.
      change (bind get ?f w) with (f w w) in Hitem. cbv beta in Hitem.
      destruct (SwitchController.has_key k (active_timed_switches w));
        [|discriminate].
      injection Hitem as <-. cbn in Hincl, Hgone |- *.
      assert (Hk : SwitchController.has_key k (active_timed_switches w')
                   = false).
      { eapply has_key_incl; [exact Hincl|apply has_key_remove_key]. }
      split.
      * eapply incl_tran; [exact Hincl|apply incl_filter].
      * intros; exact Hk.
    + injection Hitem as <-. split; [exact Hincl|].
      intros item' [<-|Hin] Haction.
      * apply String.eqb_neq in Hmatch. contradiction.
      * now apply (Hgone item').
Qed.

(** The sweep over the snapshot [l], when it returns. *)
Lemma sweep_loop opposite (l : list (Z * list Pending.t)) :
  forall w w' : World,
    for_each l (SwitchController.sweep opposite) w = (w', inr tt) ->
    incl (active_timed_switches w') (active_timed_switches w)
    /\ (forall k v item, In (k, v) l -> In item v ->
          Pending.switch_action item = opposite ->
          SwitchController.has_key k (active_timed_switches w') = false).
Proof.
  induction l as [|[k0 v0] l IH]; intros w w' Hrun.
  - cbn in Hrun. injection Hrun as <-. split; [apply incl_refl|].
    intros k v item [].
  - cbn [for_each] in Hrun.
    apply bind_inr in Hrun as ([] & w1 & Hbucket & Hrest).
    apply sweep_bucket in Hbucket as [Hincl1 Hgone1].
    apply IH in Hrest as [Hincl Hgone].
    split; [eapply incl_tran; eassumption|].
    intros k v item [Heq|Hin] Hitem Haction.
    + injection Heq as -> ->.
      eapply has_key_incl; [exact Hincl|]. now apply (Hgone1 item).
    + now apply (Hgone k v item).
Qed.

Lemma dispatch_keeps_buckets raises key k v (entries : list Entry.t) :
  forall w : World,
    (exists v', In (k, v ++ v') (active_timed_switches w)) ->
    exists v',
      In (k, v ++ v')
        (active_timed_switches
           (fst (for_each entries (SwitchController.dispatch raises key) w))).
Proof.
  apply (for_each_fst
           (fun s => exists v', In (k, v ++ v') (active_timed_switches s))).
  intros entry w _ [v' Hv']. unfold SwitchController.dispatch.
  destruct (Entry.ticks entry =? 0).
  - exists v'. unfold call, bind, get, modify. cbn.
    destruct (raises _); exact Hv'.
  - cbn. destruct (bucket_append_keeps (tick w + Entry.ticks entry)
                     (Pending.mk key (Entry.callback entry)) _ _ _ Hv')
      as [v'' Hv''].
    exists (v' ++ v''). now rewrite app_assoc.
Qed.

Lemma post_switch_events_active name state (w : World) :
  active_timed_switches
    (fst (SwitchController._post_switch_events name state w))
  = active_timed_switches w.
Proof.
  unfold SwitchController._post_switch_events.
  destruct (state =? 1); [|reflexivity].
  apply (bind_fst (fun s => active_timed_switches s = active_timed_switches w)).
  - unfold SwitchController.machine_switch, bind, get. cbn.
    now destruct (find _ _).
  - intros sw.
    apply (for_each_fst
             (fun s => active_timed_switches s = active_timed_switches w)).
    intros tag w1 _ Hw1. exact Hw1.
Qed.

(** When [process_switch] returns, every bucket that held a pending entry
    for the opposite of the new logical state is gone as a whole, with
    whatever other entries it held. *)
Theorem returning_sweep_removes_whole_buckets
  (raises : callback -> bool) (w w' : World) (name : string) (sw : Switch.t)
  (s : Z) (logical : bool) (k : Z) (v : list Pending.t) (item : Pending.t) :
  find (fun x => String.eqb (Switch.name x) name) (machine_switches w)
  = Some sw ->
  SwitchController.process_switch raises (Some name) s logical None None w
  = (w', inr tt) ->
  In (k, v) (active_timed_switches w) ->
  In item v ->
  Pending.switch_action item
  = SwitchController.switch_key name
      (Z.lxor (SwitchController.logical_state sw s logical) 1) ->
  SwitchController.has_key k (active_timed_switches w') = false.
Proof.
  intros Hfind Hrun Hbucket Hitem Haction.
  rewrite (process_switch_by_name raises w name sw) in Hrun by exact Hfind.
  unfold handle in Hrun.
  match type of Hrun with
  | bind get ?f ?w1 = _ =>
      change (bind get f w1) with (f w1 w1) in Hrun; cbv beta in Hrun;
      set (w0 := w1) in *
  end.
  apply bind_inr in Hrun as ([] & w2 & Hdispatch & Hrun).
  change (bind get ?f w2) with (f w2 w2) in Hrun. cbv beta in Hrun.
  apply bind_inr in Hrun as ([] & w3 & Hsweep & Hpost).
  assert (Hkept : exists v', In (k, v ++ v') (active_timed_switches w2)).
  { replace w2 with (fst (match registered_switches w0
                                  !! SwitchController.switch_key name
                                       (SwitchController.logical_state sw s
                                          logical) with
                          | Some entries =>
                              for_each entries
                                (SwitchController.dispatch raises
                                   (SwitchController.switch_key name
                                      (SwitchController.logical_state sw s
                                         logical)))
                          | None => ret tt
                          end w0)) by now rewrite Hdispatch.
    assert (H0 : exists v', In (k, v ++ v') (active_timed_switches w0))
      by (exists []; now rewrite app_nil_r).
    destruct (registered_switches w0 !! _); [|exact H0].
    now apply dispatch_keeps_buckets. }
  destruct Hkept as [v' Hv'].
  apply sweep_loop in Hsweep as [_ Hgone].
  replace w' with (fst (SwitchController._post_switch_events name
                          (SwitchController.logical_state sw s logical) w3))
    by now rewrite Hpost.
  rewrite post_switch_events_active.
  apply (Hgone k (v ++ v') item Hv'); [|exact Haction].
  apply in_or_app. now left.
Qed.

(** The release of "B" at tick 1 removes the bucket of tick 2, which
    "A" and "B" share. *)
Lemma neighbour_release_removes_shared_bucket :
  SwitchController.has_key 2
    (active_timed_switches
       (fst (report never_raises "B" 0
               (fst (neighbour_pressed (boot [switch_A; switch_B]))))))
  = false.
Proof.
  apply (returning_sweep_removes_whole_buckets never_raises
           (fst (neighbour_pressed (boot [switch_A; switch_B])))
           (fst (report never_raises "B" 0
                   (fst (neighbour_pressed (boot [switch_A; switch_B])))))
           "B" switch_B 0 false 2
           [Pending.mk "A-1" 1; Pending.mk "B-1" 2] (Pending.mk "B-1" 2)).
  - reflexivity.
  - vm_compute. reflexivity.
  - vm_compute. now left.
  - right. now left.
  - vm_compute. reflexivity.
Defined.

(** ** Delayed handlers while nothing but ticks happens *)

Lemma calls_of_app cb (tr1 tr2 : list Event) :
  calls_of cb (tr1 ++ tr2) = calls_of cb tr1 ++ calls_of cb tr2.
Proof. unfold calls_of. apply omap_app. Qed.

(** The calls of one bucket, when no callback raises. *)
Lemma bucket_calls raises cb (v : list Pending.t) :
  (forall c, raises c = false) ->
  forall w : World,
    exists w',
      for_each v (fun item => call raises (Pending.callback item) []) w
      = (w', inr tt)
      /\ tick w' = tick w
      /\ active_timed_switches w' = active_timed_switches w
      /\ timers w' = timers w
      /\ calls_of cb (trace w')
         = calls_of cb (trace w)
           ++ repeat (tick w)
                (length (List.filter
                           (fun item => Nat.eqb (Pending.callback item) cb)
                           v)).
Proof.
  intros Hquiet. induction v as [|item v IH]; intros w.
  - exists w. cbn. now rewrite app_nil_r.
  - cbn [for_each]. unfold bind at 1, call at 1.
    unfold bind, get, modify. cbn [fst snd]. rewrite Hquiet. unfold ret.
    match goal with
    | |- context [for_each v _ ?w1] => destruct (IH w1)
          as (w' & Hrun & Htick & Hactive & Htimers & Hcalls)
    end.
    exists w'. rewrite Hrun. split; [reflexivity|].
    world.
    split; [exact Htick|]. split; [exact Hactive|]. split; [exact Htimers|].
    rewrite Hcalls, calls_of_app, <- app_assoc. f_equal.
    cbn. destruct (Nat.eqb (Pending.callback item) cb); reflexivity.
Qed.

Lemma remove_key_absent k (d : list (Z * list Pending.t)) :
  ~ In k (map fst d) -> SwitchController.remove_key k d = d.
Proof.
  intros Hk. unfold SwitchController.remove_key.
  induction d as [|[k0 v0] d IH]; [reflexivity|].
  cbn in *. destruct (k0 =? k) eqn:Heq.
  - apply Z.eqb_eq in Heq. tauto.
  - cbn. f_equal. apply IH. tauto.
Qed.

Lemma remove_key_middle k v (kept l : list (Z * list Pending.t)) :
  List.NoDup (map fst (kept ++ (k, v) :: l)) ->
  SwitchController.remove_key k (kept ++ (k, v) :: l) = kept ++ l.
Proof.
  intros Hnodup. rewrite map_app in Hnodup. cbn in Hnodup.
  pose proof (NoDup_remove_2 _ _ _ Hnodup) as Hnotin.
  unfold SwitchController.remove_key.
  rewrite List.filter_app. cbn. rewrite Z.eqb_refl. cbn.
  fold (SwitchController.remove_key k kept).
  fold (SwitchController.remove_key k l).
  rewrite !remove_key_absent; [reflexivity| |];
    intros Hin; apply Hnotin, in_or_app; tauto.
Qed.

(** The loop of [_tick] over the rest [l] of the snapshot, [kept] being
    the buckets it has passed and left in place: when no callback raises
    and the keys are distinct, the loop returns, every due bucket is gone
    and each of its entries was called once. *)
Lemma fire_loop_calls raises cb (l : list (Z * list Pending.t)) :
  (forall c, raises c = false) ->
  forall (kept : list (Z * list Pending.t)) (w : World),
    active_timed_switches w = kept ++ l ->
    List.NoDup (map fst (kept ++ l)) ->
    exists w',
      for_each l (SwitchController.fire raises) w = (w', inr tt)
      /\ tick w' = tick w
      /\ timers w' = timers w
      /\ active_timed_switches w'
         = kept ++ List.filter (fun kv => negb (fst kv <=? tick w)) l
      /\ calls_of cb (trace w')
         = calls_of cb (trace w)
           ++ repeat (tick w)
                (length
                   (List.filter
                      (fun item => Nat.eqb (Pending.callback item) cb)
                      (flat_map snd
                         (List.filter (fun kv => fst kv <=? tick w) l)))).
Proof.
  intros Hquiet. induction l as [|[k v] l IH]; intros kept w Hactive Hnodup.
  - exists w. cbn. rewrite app_nil_r in Hactive |- *.
    now rewrite app_nil_r.
  - cbn [for_each]. unfold bind at 1, SwitchController.fire at 1.
    change (bind get ?f w) with (f w w). cbv beta. cbn [fst snd].
    cbn [List.filter fst]. destruct (k <=? tick w) eqn:Hk; cbn [negb].
    + destruct (bucket_calls raises cb v Hquiet w)
        as (wc & Hcalls & Htick & Hact & Htimers & Htrace).
      unfold bind at 1. rewrite Hcalls.
      unfold SwitchController.del_active.
      change (bind get ?f wc) with (f wc wc). cbv beta.
      rewrite Hact, Hactive.
      rewrite (has_key_In k (kept ++ (k, v) :: l) v)
        by (apply in_or_app; right; now left).
      unfold modify. rewrite remove_key_middle by exact Hnodup.
      match goal with
      | |- context [for_each l _ ?w1] =>
          destruct (IH kept w1) as (w' & Hrun & Ht & Htm & Ha & Hc)
      end.
      * reflexivity.
      * rewrite map_app in Hnodup |- *. cbn in Hnodup.
        now apply NoDup_remove_1 in Hnodup.
      * exists w'. rewrite Hrun. world.
        rewrite Htick in Ht, Ha, Hc.
        split; [reflexivity|]. split; [exact Ht|].
        split; [congruence|]. split; [exact Ha|].
        rewrite Hc, Htrace, <- app_assoc, <- repeat_app. f_equal. f_equal.
        cbn [flat_map snd]. now rewrite List.filter_app, List.length_app.
    + unfold ret.
      destruct (IH (kept ++ [(k, v)]) w)
        as (w' & Hrun & Ht & Htm & Ha & Hc).
      * now rewrite <- app_assoc.
      * now rewrite <- app_assoc.
      * exists w'. rewrite Hrun. split; [reflexivity|].
        split; [exact Ht|]. split; [exact Htm|].
        split; [now rewrite Ha, <- app_assoc|exact Hc].
Qed.

(** [timer_tick], when no callback raises and no timer shares [cb]. *)
Lemma timer_tick_quiet raises cb (w : World) :
  (forall c, raises c = false) ->
  Forall (fun t => Timer.callback t <> cb) (timers w) ->
  exists w1,
    Timing.timer_tick raises w = (w1, inr tt)
    /\ tick w1 = tick w + 1
    /\ active_timed_switches w1 = active_timed_switches w
    /\ calls_of cb (trace w1) = calls_of cb (trace w)
    /\ Forall (fun t => Timer.callback t <> cb) (timers w1).
Proof.
  intros Hquiet Htimers.
  set (P := fun s : World =>
              tick s = tick w + 1
              /\ active_timed_switches s = active_timed_switches w
              /\ calls_of cb (trace s) = calls_of cb (trace w)
              /\ Forall (fun t => Timer.callback t <> cb) (timers s)).
  assert (Hloop : forall (ids : list nat) (s : World), P s ->
            snd (for_each ids (Timing.timer_body raises) s) = inr tt
            /\ P (fst (for_each ids (Timing.timer_body raises) s))).
  { intros ids. apply for_each_returns.
    intros i s _ Hs. unfold Timing.timer_body.
    change (bind get ?k s) with (k s s). cbv beta.
    destruct (timers s !! i) as [t|] eqn:Ht; [|now split].
    destruct (Timing.due (tick s) t); [|now split].
    unfold call, bind, get, modify. cbn [fst snd]. rewrite Hquiet.
    unfold ret. cbn [fst snd]. split; [reflexivity|].
    destruct Hs as (Htick & Hactive & Hcalls & Hcb).
    assert (Hne : Timer.callback t <> cb).
    { rewrite Forall_forall in Hcb. apply Hcb.
      apply list_elem_of_lookup. now exists i. }
    repeat split; world; try assumption.
    - rewrite calls_of_app, Hcalls. cbn.
      destruct (Nat.eqb (Timer.callback t) cb) eqn:Heq.
      + apply Nat.eqb_eq in Heq. contradiction.
      + apply app_nil_r.
    - apply Forall_insert; [exact Hcb|].
      unfold Timing.rearm. now destruct (Timer.frequency t =? 0). }
  unfold Timing.timer_tick, bind at 1, modify at 1.
  change (bind get ?k ?s) with (k s s). cbv beta.
  match goal with
  | |- context [for_each ?ids _ ?s] => destruct (Hloop ids s) as [Hr Hp]
  end.
  { repeat split; world; assumption. }
  eexists. split; [apply run_pair, Hr|exact Hp].
Qed.

Lemma NoDup_keys_filter (f : Z * list Pending.t -> bool)
  (d : list (Z * list Pending.t)) :
  List.NoDup (map fst d) -> List.NoDup (map fst (List.filter f d)).
Proof.
  induction d as [|kv d IH]; intros Hd; [constructor|].
  cbn in Hd. apply NoDup_cons_iff in Hd as [Hnotin Hd].
  cbn. destruct (f kv); [|now apply IH].
  cbn. constructor; [|now apply IH].
  intros Hin. apply Hnotin. apply in_map_iff in Hin as (kv' & Heq & Hin).
  apply filter_In in Hin as [Hin _]. apply in_map_iff. now exists kv'.
Qed.

(** One machine tick, when no callback raises: the bucket of the new tick
    fires, each of its entries once, and is removed. *)
Lemma machine_tick_calls raises cb (w : World) :
  (forall c, raises c = false) ->
  quiet_for cb w ->
  exists w',
    SwitchController.machine_tick raises w = (w', inr tt)
    /\ tick w' = tick w + 1
    /\ active_timed_switches w'
       = List.filter (fun kv => negb (fst kv <=? tick w + 1))
           (active_timed_switches w)
    /\ calls_of cb (trace w')
       = calls_of cb (trace w)
         ++ repeat (tick w + 1)
              (pending_for cb (tick w + 1) (active_timed_switches w))
    /\ quiet_for cb w'.
Proof.
  intros Hquiet (Hfuture & Hnodup & Htimers).
  destruct (timer_tick_quiet raises cb w Hquiet Htimers)
    as (w1 & Hrun1 & Htick1 & Hactive1 & Hcalls1 & Htimers1).
  destruct (fire_loop_calls raises cb (active_timed_switches w1) Hquiet [] w1)
    as (w' & Hrun & Htick & Htm & Hactive & Hcalls).
  { reflexivity. }
  { cbn. now rewrite Hactive1. }
  exists w'. unfold SwitchController.machine_tick, bind at 1.
  rewrite Hrun1. unfold SwitchController._tick.
  change (bind get ?k w1) with (k w1 w1). cbv beta. rewrite Hrun.
  cbn [app] in Hactive. rewrite Htick1, Hactive1 in *.
  split; [reflexivity|]. split; [lia|]. split; [exact Hactive|].
  split.
  - rewrite Hcalls, Hcalls1. f_equal. f_equal. unfold pending_for.
    f_equal. f_equal. f_equal. apply filter_ext_in. intros kv Hin.
    unfold future_keys in Hfuture. rewrite Forall_forall in Hfuture.
    apply list_elem_of_In, Hfuture in Hin.
    destruct (fst kv =? tick w + 1) eqn:Heq.
    + apply Z.eqb_eq in Heq. apply Z.leb_le. lia.
    + apply Z.eqb_neq in Heq. apply Z.leb_gt. lia.
  - split; [|split].
    + unfold future_keys. rewrite Hactive, Htick. apply Forall_forall.
      intros kv Hin. apply list_elem_of_In, filter_In in Hin as [_ Hgt].
      apply negb_true_iff, Z.leb_gt in Hgt. lia.
    + rewrite Hactive. now apply NoDup_keys_filter.
    + now rewrite Htm.
Qed.

Lemma pending_for_later cb (now key : Z) (d : list (Z * list Pending.t)) :
  now < key ->
  pending_for cb key (List.filter (fun kv => negb (fst kv <=? now)) d)
  = pending_for cb key d.
Proof.
  intros Hlater. unfold pending_for. f_equal. f_equal. f_equal.
  induction d as [|kv d IH]; [reflexivity|].
  cbn. destruct (fst kv <=? now) eqn:Hle; cbn.
  - destruct (fst kv =? key) eqn:Heq; [|exact IH].
    apply Z.leb_le in Hle. apply Z.eqb_eq in Heq. lia.
  - destruct (fst kv =? key); [now rewrite IH|exact IH].
Qed.

Lemma due_calls_shift cb (w w1 : World) (n : nat) :
  tick w1 = tick w + 1 ->
  active_timed_switches w1
  = List.filter (fun kv => negb (fst kv <=? tick w + 1))
      (active_timed_switches w) ->
  forall a : nat, (1 <= a)%nat ->
    flat_map (fun j => repeat (tick w + Z.of_nat j)
                         (pending_for cb (tick w + Z.of_nat j)
                            (active_timed_switches w)))
      (seq (S a) n)
    = flat_map (fun j => repeat (tick w1 + Z.of_nat j)
                           (pending_for cb (tick w1 + Z.of_nat j)
                              (active_timed_switches w1)))
        (seq a n).
Proof.
  intros Htick Hactive. induction n as [|n IH]; intros a Ha; [reflexivity|].
  cbn [seq flat_map]. rewrite (IH (S a)) by lia. f_equal.
  rewrite Htick, Hactive, pending_for_later by lia.
  replace (tick w + 1 + Z.of_nat a) with (tick w + Z.of_nat (S a)) by lia.
  reflexivity.
Qed.

(** While nothing but ticks happens and no callback raises, every pending
    entry is honoured: over the next [n] ticks a callback is invoked once
    per pending entry that holds it, on the tick of the entry's bucket,
    and at no other time. *)
Theorem pending_entries_fire_on_their_tick
  (raises : callback -> bool) (cb : callback) (n : nat) (w : World) :
  (forall c, raises c = false) ->
  quiet_for cb w ->
  exists w',
    times n (SwitchController.machine_tick raises) w = (w', inr tt)
    /\ tick w' = tick w + Z.of_nat n
    /\ calls_of cb (trace w') = calls_of cb (trace w) ++ due_calls cb w n.
Proof.
  intros Hquiet. revert w. induction n as [|n IH]; intros w Hw.
  - exists w. unfold due_calls. cbn. rewrite app_nil_r.
    repeat split. lia.
  - destruct (machine_tick_calls raises cb w Hquiet Hw)
      as (w1 & Hrun1 & Htick1 & Hactive1 & Hcalls1 & Hw1).
    destruct (IH w1 Hw1) as (w' & Hrun & Htick & Hcalls).
    exists w'. cbn [times]. unfold bind at 1. rewrite Hrun1, Hrun.
    split; [reflexivity|]. split; [lia|].
    rewrite Hcalls, Hcalls1, <- app_assoc. f_equal.
    unfold due_calls. cbn [seq flat_map]. f_equal.
    symmetry. now apply due_calls_shift.
Qed.

(** Scenario 2 of the specification: the handler of 100 ms fires once,
    on tick 5. *)
Lemma delayed_fire_fires_once_on_tick_5 :
  exists w',
    times 5 (SwitchController.machine_tick never_raises)
      (fst (delayed_fire (boot [switch_A])))
    = (w', inr tt)
    /\ tick w' = 5
    /\ calls_of 1 (trace w') = [5].
Proof.
  apply (pending_entries_fire_on_their_tick never_raises 1 5
           (fst (delayed_fire (boot [switch_A])))).
  - reflexivity.
  - split; [|split].
    + repeat constructor.
    + repeat constructor. intros [].
    + constructor.
Defined.

(** * More properties of the timing service *)

(** ** [timer_tick] when no callback raises *)

Lemma world_eta (w : World) :
  mkWorld (HZ w) (secs_per_tick w) (tick w) (timers w) (machine_switches w)
    (registered_switches w) (active_timed_switches w) (switches w) (trace w)
  = w.
Proof. now destruct w. Qed.

(** The loop of [timer_tick] over the timers [l] that follow the timers
    [pre] in the set. *)
Lemma timer_loop_fires (raises : callback -> bool) :
  (forall c, raises c = false) ->
  forall (l pre : list Timer.t) (w : World),
    timers w = pre ++ l ->
    for_each (seq (length pre) (length l)) (Timing.timer_body raises) w
    = (set_trace
         (trace w
          ++ map (invocation (tick w)) (List.filter (Timing.due (tick w)) l))
         (set_timers (pre ++ map (fired (tick w)) l) w),
       inr tt).
Proof.
  intros Hquiet. induction l as [|t l IH]; intros pre w Hw.
  - rewrite app_nil_r in Hw. cbn. rewrite !app_nil_r, <- Hw.
    unfold ret, set_trace, set_timers. cbn. now rewrite world_eta.
  - cbn [length seq for_each]. unfold bind at 1, Timing.timer_body at 1.
    change (bind get ?k w) with (k w w). cbv beta.
    assert (Hi : timers w !! length pre = Some t).
    { rewrite Hw. now apply list_lookup_middle. }
    rewrite Hi. cbn [List.filter map]. unfold fired at 1.
    destruct (Timing.due (tick w) t) eqn:Hdue.
    + unfold call, bind, get, modify. cbn [fst snd]. rewrite Hquiet.
      unfold ret.
      replace (S (length pre)) with (length (pre ++ [Timing.rearm t]))
        by (rewrite length_app; cbn; lia).
      rewrite IH.
      * world. rewrite Hw. unfold set_trace, set_timers. cbn.
        rewrite <- !app_assoc. reflexivity.
      * world. rewrite Hw, insert_app_r_alt by lia.
        rewrite Nat.sub_diag. cbn. now rewrite <- app_assoc.
    + unfold ret.
      replace (S (length pre)) with (length (pre ++ [t]))
        by (rewrite length_app; cbn; lia).
      rewrite IH.
      * now rewrite <- !app_assoc.
      * now rewrite Hw, <- app_assoc.
Qed.

Lemma timer_tick_run (raises : callback -> bool) (w : World) :
  (forall c, raises c = false) ->
  Timing.timer_tick raises w
  = (set_trace
       (trace w
        ++ map (invocation (tick w + 1))
             (List.filter (Timing.due (tick w + 1)) (timers w)))
       (set_timers (map (fired (tick w + 1)) (timers w))
          (set_tick (tick w + 1) w)),
     inr tt).
Proof.
  intros Hquiet. unfold Timing.timer_tick, bind at 1, modify at 1.
  change (bind get ?k ?s) with (k s s). cbv beta.
  exact (timer_loop_fires raises Hquiet (timers w) []
           (set_tick (tick w + 1) w) eq_refl).
Qed.

(** When no callback raises, [timer_tick] returns.  The clock has advanced
    by one; every timer that is due on the new tick was called once, in
    the order of the set, with its own arguments, and re-armed ([wakeup]
    advanced by [frequency], or cleared when [frequency] is 0); the other
    timers are as they were, and nothing else has changed. *)
Theorem timer_tick_fires_due_timers (raises : callback -> bool) (w : World) :
  (forall c, raises c = false) ->
  Timing.timer_tick raises w
  = (set_trace
       (trace w
        ++ map (invocation (tick w + 1))
             (List.filter (Timing.due (tick w + 1)) (timers w)))
       (set_timers (map (fired (tick w + 1)) (timers w))
          (set_tick (tick w + 1) w)),
     inr tt).
Proof.
  intros Hquiet. unfold Timing.timer_tick, bind at 1, modify at 1.
  change (bind get ?k ?s) with (k s s). cbv beta.
  exact (timer_loop_fires raises Hquiet (timers w) []
           (set_tick (tick w + 1) w) eq_refl).
Qed.

(** The timer of [periodic_timer_at_49] is called on tick 50 and re-armed
    for tick 100. *)
Lemma timer_tick_fires_due_timers_at_50 :
  Timing.timer_tick never_raises
    (fst (periodic_timer_at_49 never_raises (boot [])))
  = (mkWorld (Some 50) (Some 0.02%float) 50 [Timer.mk 0 7 [] (Some 100) 50]
       [] ∅ [] ∅ [Called 7 [] 50],
     inr tt).
Proof.
  apply (timer_tick_fires_due_timers never_raises
           (fst (periodic_timer_at_49 never_raises (boot [])))).
  reflexivity.
Defined.

(** ** The schedule of one timer *)

Lemma fired_callback (now : Z) (t : Timer.t) :
  Timer.callback (fired now t) = Timer.callback t.
Proof.
  unfold fired, Timing.rearm. destruct (Timing.due now t); [|reflexivity].
  now destruct (Timer.frequency t =? 0).
Qed.

Lemma invocations_of_others (cb : callback) (now : Z) (l : list Timer.t) :
  Forall (fun u => Timer.callback u <> cb) l ->
  calls_of cb (map (invocation now) (List.filter (Timing.due now) l)) = [].
Proof.
  induction 1 as [|u l Hu Hl IH]; [reflexivity|].
  cbn [List.filter]. destruct (Timing.due now u); [|exact IH].
  cbn. destruct (Nat.eqb_spec (Timer.callback u) cb); [contradiction|].
  exact IH.
Qed.

Lemma others_fired (cb : callback) (now : Z) (l : list Timer.t) :
  Forall (fun u => Timer.callback u <> cb) l ->
  Forall (fun u => Timer.callback u <> cb) (map (fired now) l).
Proof.
  induction 1 as [|u l Hu Hl IH]; cbn; constructor; [|exact IH].
  now rewrite fired_callback.
Qed.

(** Over [n] ticks on which no callback raises, a timer that shares its
    callback with no other timer is called as its own schedule has it. *)
Lemma timer_ticks_follow_schedule (raises : callback -> bool)
  (cb : callback) :
  (forall c, raises c = false) ->
  forall (n : nat) (pre post : list Timer.t) (t : Timer.t) (w : World),
    timers w = pre ++ t :: post ->
    Timer.callback t = cb ->
    Forall (fun u => Timer.callback u <> cb) (pre ++ post) ->
    exists w',
      times n (Timing.timer_tick raises) w = (w', inr tt)
      /\ tick w' = tick w + Z.of_nat n
      /\ calls_of cb (trace w')
         = calls_of cb (trace w) ++ schedule (tick w) t n.
Proof.
  intros Hquiet. induction n as [|n IH]; intros pre post t w Hw Hcb Hothers.
  - exists w. cbn. rewrite app_nil_r. repeat split. lia.
  - cbn [times]. unfold bind at 1. rewrite timer_tick_run by exact Hquiet.
    apply Forall_app in Hothers as [Hpre Hpost].
    match goal with
    | |- context [times n _ ?w1] =>
        destruct (IH (map (fired (tick w + 1)) pre)
                    (map (fired (tick w + 1)) post)
                    (fired (tick w + 1) t) w1)
          as (w' & Hrun & Htick & Hcalls)
    end.
    + world. now rewrite Hw, map_app.
    + now rewrite fired_callback.
    + apply Forall_app. split; now apply others_fired.
    + exists w'. rewrite Hrun. world. split; [reflexivity|].
      split; [lia|]. rewrite Hcalls, calls_of_app, <- app_assoc.
      f_equal. cbn [schedule]. f_equal.
      rewrite Hw, List.filter_app, map_app, calls_of_app.
      rewrite invocations_of_others by exact Hpre. cbn [app List.filter].
      destruct (Timing.due (tick w + 1) t).
      * cbn [map]. change (?x :: ?l) with ([x] ++ l).
        rewrite calls_of_app, invocations_of_others by exact Hpost.
        cbn. rewrite Hcb, Nat.eqb_refl. reflexivity.
      * now apply invocations_of_others.
Qed.

Lemma next_ticks_S (now : Z) (n : nat) :
  next_ticks now (S n) = (now + 1) :: next_ticks (now + 1) n.
Proof.
  unfold next_ticks. cbn [seq map]. f_equal.
  rewrite <- seq_shift, map_map. apply map_ext. intros j. lia.
Qed.

Lemma next_ticks_later (now k : Z) (n : nat) :
  In k (next_ticks now n) -> now < k.
Proof.
  unfold next_ticks. rewrite in_map_iff. intros (j & <- & Hj).
  apply in_seq in Hj. lia.
Qed.

(** A whole number of periods after [wk], and not before it. *)
Lemma period_shift (wk f k : Z) :
  0 < f -> wk < k ->
  (wk + f <=? k) && ((k - (wk + f)) mod f =? 0)
  = (wk <=? k) && ((k - wk) mod f =? 0).
Proof.
  intros Hf Hk.
  replace (k - (wk + f)) with (k - wk + (-1) * f) by lia.
  rewrite Z_mod_plus_full.
  destruct ((k - wk) mod f =? 0) eqn:Hmod.
  - rewrite !andb_true_r. apply Z.eqb_eq in Hmod.
    apply Z.mod_divide in Hmod; [|lia]. destruct Hmod as [q Hq].
    assert (1 <= q) by nia.
    transitivity true; [apply Z.leb_le; nia|symmetry; apply Z.leb_le; lia].
  - now rewrite !andb_false_r.
Qed.

(** A periodic timer is due on its wake-up tick and then once per period,
    as long as no tick is missed. *)
Lemma schedule_periodic (n : nat) :
  forall (now wk : Z) (t : Timer.t),
    Timer.wakeup t = Some wk ->
    now < wk -> 0 < wk -> 0 < Timer.frequency t ->
    schedule now t n
    = List.filter
        (fun k => (wk <=? k) && ((k - wk) mod Timer.frequency t =? 0))
        (next_ticks now n).
Proof.
  induction n as [|n IH]; intros now wk t Hwk Hnow Hpos Hf; [reflexivity|].
  rewrite next_ticks_S. cbn [schedule List.filter].
  unfold fired, Timing.due. rewrite Hwk.
  destruct (wk <=? now + 1) eqn:Hle.
  - apply Z.leb_le in Hle. assert (wk = now + 1) as -> by lia.
    replace (now + 1 =? 0) with false by (symmetry; apply Z.eqb_neq; lia).
    rewrite Z.sub_diag, Zmod_0_l. cbn [negb andb Z.eqb app]. f_equal.
    unfold Timing.rearm.
    replace (Timer.frequency t =? 0) with false
      by (symmetry; apply Z.eqb_neq; lia).
    rewrite Hwk. cbn [option_map].
    rewrite (IH (now + 1) (now + 1 + Timer.frequency t)); cbn; try lia;
      [|reflexivity].
    apply filter_ext_in. intros k Hk. apply next_ticks_later in Hk.
    apply period_shift; lia.
  - rewrite andb_false_r. cbn [andb app].
    apply Z.leb_gt in Hle. apply IH; [exact Hwk|lia..].
Qed.

Lemma schedule_dormant (n : nat) :
  forall (now : Z) (t : Timer.t),
    Timer.wakeup t = None -> schedule now t n = [].
Proof.
  induction n as [|n IH]; intros now t Hwk; [reflexivity|].
  cbn [schedule]. unfold fired, Timing.due. rewrite Hwk. cbn.
  now apply IH.
Qed.

Lemma schedule_wakeup_0 (n : nat) :
  forall (now : Z) (t : Timer.t),
    Timer.wakeup t = Some 0 -> schedule now t n = [].
Proof.
  induction n as [|n IH]; intros now t Hwk; [reflexivity|].
  cbn [schedule]. unfold fired, Timing.due. rewrite Hwk. cbn.
  now apply IH.
Qed.

(** ** Timers from [add] on *)

(** A timer with a positive period that is added at tick [t0] to a set
    that does not hold it is called on the ticks [t0 + f], [t0 + 2 f],
    ... and on no other tick, as long as every tick is delivered and no
    callback raises.  (The callback is shared with no other timer, so that
    its calls can be told apart.) *)
Theorem added_timer_fires_every_period
  (raises : callback -> bool) (t : Timer.t) (n : nat) (w : World) :
  (forall c, raises c = false) ->
  0 <= tick w ->
  0 < Timer.frequency t ->
  existsb (Timing.same_timer t) (timers w) = false ->
  Forall (fun u => Timer.callback u <> Timer.callback t) (timers w) ->
  exists w',
    (Timing.add t ;; times n (Timing.timer_tick raises)) w = (w', inr tt)
    /\ tick w' = tick w + Z.of_nat n
    /\ calls_of (Timer.callback t) (trace w')
       = calls_of (Timer.callback t) (trace w)
         ++ List.filter (fun k => (k - tick w) mod Timer.frequency t =? 0)
              (next_ticks (tick w) n).
Proof.
  intros Hquiet Htick Hf Hnew Hothers.
  unfold bind at 1, Timing.add at 1.
  change (bind get ?k w) with (k w w). cbv beta zeta. rewrite Hnew.
  unfold modify.
  match goal with
  | |- context [times n _ ?w1] =>
      destruct (timer_ticks_follow_schedule raises (Timer.callback t) Hquiet
                  n (timers w) []
                  (Timing.set_wakeup (Some (tick w + Timer.frequency t)) t)
                  w1)
        as (w' & Hrun & Htick' & Hcalls)
  end.
  - reflexivity.
  - reflexivity.
  - now rewrite app_nil_r.
  - exists w'. rewrite Hrun. world. split; [reflexivity|].
    split; [exact Htick'|]. rewrite Hcalls. f_equal.
    rewrite (schedule_periodic n (tick w) (tick w + Timer.frequency t));
      cbn; try lia; [|reflexivity].
    apply filter_ext_in. intros k Hk. apply next_ticks_later in Hk.
    replace (k - tick w) with (k - (tick w + Timer.frequency t)
                               + 1 * Timer.frequency t) by lia.
    rewrite Z_mod_plus_full.
    destruct ((k - (tick w + Timer.frequency t)) mod Timer.frequency t =? 0)
      eqn:Hmod; [|apply andb_false_r].
    rewrite andb_true_r. apply Z.leb_le.
    apply Z.eqb_eq, Z.mod_divide in Hmod; [|lia].
    destruct Hmod as [q Hq].
    destruct (Z_lt_le_dec q 0) as [Hneg|Hnonneg]; [|nia].
    assert (q * Timer.frequency t <= (-1) * Timer.frequency t)
      by (apply Z.mul_le_mono_nonneg_r; lia).
    lia.
Qed.

(** A timer of 2 ticks added at tick 0 is called on ticks 2 and 4 of the
    first five. *)
Lemma added_timer_fires_on_ticks_2_and_4 :
  exists w',
    (Timing.add (Timer.mk 0 7 [] None 2) ;;
     times 5 (Timing.timer_tick never_raises)) (boot [])
    = (w', inr tt)
    /\ tick w' = 5
    /\ calls_of 7 (trace w') = [2; 4].
Proof.
  apply (added_timer_fires_every_period never_raises
           (Timer.mk 0 7 [] None 2) 5 (boot [])).
  - reflexivity.
  - cbn. lia.
  - cbn. lia.
  - reflexivity.
  - constructor.
Defined.

(** [Timer.__init__] divides the period by 1000 with Python 2's integer
    division before it multiplies by [HZ]: a period of less than a second
    is a frequency of 0 ticks, whatever the tick rate.  Such a timer,
    added at tick [t0], is called once, on tick [t0 + 1], and never
    again; added at tick 0 it is never called, its [wakeup] being 0. *)
Theorem sub_second_timer_fires_at_most_once
  (raises : callback -> bool) (tid : nat) (cb : callback) (args : list Z)
  (ms hz : Z) (n : nat) (w : World) :
  (forall c, raises c = false) ->
  HZ w = Some hz ->
  0 <= ms < 1000 ->
  existsb (fun u => Nat.eqb tid (Timer.tid u)) (timers w) = false ->
  Forall (fun u => Timer.callback u <> cb) (timers w) ->
  exists w',
    (t <- Timing.Timer__init__ tid cb args (Some ms) ;;
     Timing.add t ;;
     times (S n) (Timing.timer_tick raises)) w = (w', inr tt)
    /\ tick w' = tick w + Z.of_nat (S n)
    /\ calls_of cb (trace w')
       = calls_of cb (trace w) ++ (if tick w =? 0 then [] else [tick w + 1]).
Proof.
  intros Hquiet Hhz Hms Hnew Hothers.
  unfold bind at 1, Timing.Timer__init__ at 1.
  unfold bind at 1, ret at 1. unfold bind at 1, gets at 1. rewrite Hhz.
  unfold bind at 1, ret at 1. unfold ret at 1.
  rewrite Z.div_small by exact Hms. rewrite Z.mul_0_l.
  unfold bind at 1, Timing.add at 1.
  change (bind get ?k w) with (k w w). cbv beta zeta.
  unfold Timing.same_timer at 1. cbn [Timer.tid]. rewrite Hnew.
  unfold modify. cbn [Timer.frequency]. rewrite Z.add_0_r.
  match goal with
  | |- context [times (S n) _ ?w1] =>
      destruct (timer_ticks_follow_schedule raises cb Hquiet
                  (S n) (timers w) []
                  (Timing.set_wakeup (Some (tick w))
                     (Timer.mk tid cb args None 0)) w1)
        as (w' & Hrun & Htick' & Hcalls)
  end.
  - reflexivity.
  - reflexivity.
  - now rewrite app_nil_r.
  - exists w'. rewrite Hrun. world. split; [reflexivity|].
    split; [exact Htick'|]. rewrite Hcalls. f_equal.
    destruct (tick w =? 0) eqn:Hzero.
    + apply Z.eqb_eq in Hzero. apply schedule_wakeup_0.
      cbn. now rewrite Hzero.
    + cbn [schedule]. unfold fired, Timing.due, Timing.set_wakeup.
      cbn [Timer.wakeup]. rewrite Hzero.
      replace (tick w <=? tick w + 1) with true
        by (symmetry; apply Z.leb_le; lia).
      cbn [negb andb app]. f_equal. now apply schedule_dormant.
Qed.

(** At 50 Hz a timer of 500 ms is added at tick 3: it is called on tick 4
    and not on the four ticks that follow. *)
Lemma timer_of_500ms_fires_once :
  exists w',
    (t <- Timing.Timer__init__ 0 7%nat [] (Some 500) ;;
     Timing.add t ;;
     times 5 (Timing.timer_tick never_raises))
      (set_tick 3 (at_50Hz []))
    = (w', inr tt)
    /\ tick w' = 8
    /\ calls_of 7 (trace w') = [4].
Proof.
  apply (sub_second_timer_fires_at_most_once never_raises 0 7%nat [] 500 50
           4 (set_tick 3 (at_50Hz []))).
  - reflexivity.
  - reflexivity.
  - lia.
  - reflexivity.
  - constructor.
Defined.

(** ** [add] and [remove] *)

Lemma not_member_filter (t : Timer.t) (l : list Timer.t) :
  existsb (Timing.same_timer t) l = false ->
  List.filter (fun u => negb (Timing.same_timer t u)) l = l.
Proof.
  induction l as [|u l IH]; intros Hnew; [reflexivity|].
  cbn in Hnew. apply orb_false_iff in Hnew as [Hu Hl].
  cbn. rewrite Hu. cbn. now rewrite IH.
Qed.

(** The timers are kept in a [set].  For a timer that is not in it:
    [remove] raises [KeyError] and changes nothing; [add] followed by
    [remove] returns and leaves the set as it was; and adding the timer a
    second time on the same tick changes nothing more (no duplicate
    enters the set). *)
Theorem add_then_remove_restores_timer_set (t : Timer.t) (w : World) :
  existsb (Timing.same_timer t) (timers w) = false ->
  Timing.remove t w = (w, inl KeyError)
  /\ (Timing.add t ;; Timing.remove t) w = (w, inr tt)
  /\ (Timing.add t ;; Timing.add t) w = Timing.add t w.
Proof.
  intros Hnew.
  assert (Hself : forall v, Timing.same_timer t (Timing.set_wakeup v t)
                            = true)
    by (intros v; apply Nat.eqb_refl).
  split; [|split].
  - unfold Timing.remove. change (bind get ?k w) with (k w w). cbv beta.
    now rewrite Hnew.
  - unfold bind at 1, Timing.add at 1.
    change (bind get ?k w) with (k w w). cbv beta zeta. rewrite Hnew.
    unfold modify, Timing.remove.
    change (bind get ?k ?s) with (k s s). cbv beta. world.
    rewrite existsb_app, Hnew. cbn [existsb]. rewrite Hself. cbn [orb].
    rewrite List.filter_app. cbn [List.filter]. rewrite Hself. cbn [negb].
    rewrite (not_member_filter t (timers w) Hnew), app_nil_r.
    unfold set_timers, modify. cbn. now rewrite world_eta.
  - unfold bind at 1, Timing.add.
    change (bind get ?k w) with (k w w). cbv beta zeta. rewrite Hnew.
    unfold modify. change (bind get ?k ?s) with (k s s). cbv beta. world.
    rewrite existsb_app, Hnew. cbn [existsb]. rewrite Hself. cbn [orb].
    rewrite map_app. cbn [map]. rewrite Hself.
    f_equal. unfold set_timers. cbn. f_equal. f_equal.
    induction (timers w) as [|u l IH]; [reflexivity|].
    cbn in Hnew. apply orb_false_iff in Hnew as [Hu Hl].
    cbn. rewrite Hu. f_equal. now apply IH.
Qed.

(** A timer is added to and removed from the empty set. *)
Lemma add_then_remove_on_empty_set :
  Timing.remove (Timer.mk 0 7 [] None 50) (boot [])
  = (boot [], inl KeyError)
  /\ (Timing.add (Timer.mk 0 7 [] None 50) ;;
      Timing.remove (Timer.mk 0 7 [] None 50)) (boot [])
     = (boot [], inr tt)
  /\ (Timing.add (Timer.mk 0 7 [] None 50) ;;
      Timing.add (Timer.mk 0 7 [] None 50)) (boot [])
     = Timing.add (Timer.mk 0 7 [] None 50) (boot []).
Proof.
  apply (add_then_remove_restores_timer_set (Timer.mk 0 7 [] None 50)
           (boot [])).
  reflexivity.
Defined.

(** Ticks on which no callback raises and no timer holds [cb]. *)
Lemma timer_ticks_quiet (raises : callback -> bool) (cb : callback)
  (n : nat) :
  (forall c, raises c = false) ->
  forall w : World,
    Forall (fun t => Timer.callback t <> cb) (timers w) ->
    exists w',
      times n (Timing.timer_tick raises) w = (w', inr tt)
      /\ tick w' = tick w + Z.of_nat n
      /\ calls_of cb (trace w') = calls_of cb (trace w).
Proof.
  intros Hquiet. induction n as [|n IH]; intros w Hw.
  - exists w. repeat split. cbn. lia.
  - destruct (timer_tick_quiet raises cb w Hquiet Hw)
      as (w1 & Hrun1 & Htick1 & _ & Hcalls1 & Hw1).
    destruct (IH w1 Hw1) as (w' & Hrun & Htick & Hcalls).
    exists w'. cbn [times]. unfold bind at 1. rewrite Hrun1, Hrun.
    split; [reflexivity|]. split; [lia|congruence].
Qed.

(** A timer that was removed from the set is not called any more: over
    any number of ticks after [remove], the callback of the timer is not
    invoked (no other timer holding the same callback). *)
Theorem removed_timer_is_not_called
  (raises : callback -> bool) (t : Timer.t) (n : nat) (w : World) :
  (forall c, raises c = false) ->
  existsb (Timing.same_timer t) (timers w) = true ->
  Forall (fun u => Timer.callback u = Timer.callback t ->
                   Timing.same_timer t u = true) (timers w) ->
  exists w',
    (Timing.remove t ;; times n (Timing.timer_tick raises)) w = (w', inr tt)
    /\ tick w' = tick w + Z.of_nat n
    /\ calls_of (Timer.callback t) (trace w')
       = calls_of (Timer.callback t) (trace w).
Proof.
  intros Hquiet Hmember Honly.
  unfold bind at 1, Timing.remove at 1.
  change (bind get ?k w) with (k w w). cbv beta. rewrite Hmember.
  unfold modify.
  match goal with
  | |- context [times n _ ?w1] =>
      destruct (timer_ticks_quiet raises (Timer.callback t) n Hquiet w1)
        as (w' & Hrun & Htick & Hcalls)
  end.
  - world. apply Forall_forall. intros u Hu.
    apply list_elem_of_In, filter_In in Hu as [Hin Hother].
    intros Hcb. rewrite Forall_forall in Honly.
    apply list_elem_of_In in Hin. rewrite (Honly u Hin Hcb) in Hother.
    discriminate.
  - exists w'. rewrite Hrun. now repeat split.
Qed.

(** The timer of [periodic_timer_at_49] is removed at tick 49, one tick
    before it is due: it is not called on the 60 ticks that follow. *)
Lemma periodic_timer_removed_at_49 :
  exists w',
    (Timing.remove (Timer.mk 0 7 [] (Some 50) 50) ;;
     times 60 (Timing.timer_tick never_raises))
      (fst (periodic_timer_at_49 never_raises (boot [])))
    = (w', inr tt)
    /\ tick w' = 49 + Z.of_nat 60
    /\ calls_of 7 (trace w') = [].
Proof.
  apply (removed_timer_is_not_called never_raises
           (Timer.mk 0 7 [] (Some 50) 50) 60
           (fst (periodic_timer_at_49 never_raises (boot [])))).
  - reflexivity.
  - reflexivity.
  - repeat constructor.
Defined.

(** ** Durations given as strings *)

Lemma isalpha_upper_ascii (c : ascii) :
  isalpha (upper_ascii c) = isalpha c.
Proof. destruct c as [[] [] [] [] [] [] [] []]; reflexivity. Qed.

Lemma upper_ascii_other (c : ascii) :
  isalpha c = false -> upper_ascii c = c.
Proof.
  destruct c as [[] [] [] [] [] [] [] []]; intros H;
    try reflexivity; discriminate.
Qed.

Lemma strip_alpha_upper (s : string) :
  strip_alpha (upper (strip_alpha s)) = strip_alpha (upper s).
Proof.
  induction s as [|c s IH]; [reflexivity|].
  cbn [strip_alpha upper]. rewrite isalpha_upper_ascii.
  destruct (isalpha c) eqn:Hc; [exact IH|].
  cbn [upper strip_alpha]. rewrite isalpha_upper_ascii, Hc.
  now rewrite IH.
Qed.

(** [time_to_ticks] drops every letter of its argument, wherever it
    stands, before the number is read: the string without its letters
    gives the same result (the same number of ticks, or the same
    exception).  So a unit is never looked at, and an exponent is read as
    further digits. *)
Theorem time_to_ticks_ignores_letters (time : string) (w : World) :
  Timing.time_to_ticks time w = Timing.time_to_ticks (strip_alpha time) w.
Proof.
  unfold Timing.time_to_ticks.
  rewrite !endswith_upper_ms, !endswith_upper_msec. cbn [orb].
  now rewrite strip_alpha_upper.
Qed.

(** * More properties of the switch controller *)

(** ** Which switch a report is about *)

Lemma last_match_absent (n : Z) (l : list Switch.t) (init : option string) :
  ~ In n (map Switch.number l) ->
  fold_left (fun nm sw => if Switch.number sw =? n
                          then Some (Switch.name sw) else nm) l init
  = init.
Proof.
  revert init. induction l as [|x l IH]; intros init Hn; [reflexivity|].
  cbn in Hn |- *. destruct (Z.eqb_spec (Switch.number x) n) as [Heq|Hne].
  - tauto.
  - apply IH. tauto.
Qed.

Lemma last_match_found (sw : Switch.t) (l : list Switch.t) :
  forall init : option string,
    In sw l ->
    List.NoDup (map Switch.number l) ->
    fold_left (fun nm x => if Switch.number x =? Switch.number sw
                           then Some (Switch.name x) else nm) l init
    = Some (Switch.name sw).
Proof.
  induction l as [|x l IH]; intros init Hin Hnodup; [destruct Hin|].
  cbn in Hnodup. apply NoDup_cons_iff in Hnodup as [Hnotin Hnodup].
  cbn [fold_left]. destruct Hin as [->|Hin].
  - rewrite Z.eqb_refl. now apply last_match_absent.
  - now apply IH.
Qed.

(** A report by switch number is the report by name of the switch that
    has the number, whatever [name] and [obj] are passed along with it;
    and a report by switch object is the report by the object's name.
    (The numbers of the machine's switches are distinct.) *)
Theorem process_switch_by_number
  (raises : callback -> bool) (w : World) (sw : Switch.t)
  (name : option string) (obj : option Switch.t) (s : Z) (logical : bool) :
  In sw (machine_switches w) ->
  List.NoDup (map Switch.number (machine_switches w)) ->
  SwitchController.process_switch raises name s logical
    (Some (Switch.number sw)) obj w
  = SwitchController.process_switch raises (Some (Switch.name sw)) s logical
      None None w
  /\ SwitchController.process_switch raises name s logical None (Some sw) w
     = SwitchController.process_switch raises (Some (Switch.name sw)) s
         logical None None w.
Proof.
  intros Hin Hnodup. split; [|reflexivity].
  unfold SwitchController.process_switch.
  change (bind get ?k w) with (k w w). cbv beta zeta.
  now rewrite (last_match_found sw (machine_switches w) name Hin Hnodup).
Qed.

(** "B" has the number 2: reported by number, with a stray name. *)
Lemma process_switch_by_number_2 :
  SwitchController.process_switch never_raises (Some "A") 1 false
    (Some 2) None (boot [switch_A; switch_B])
  = SwitchController.process_switch never_raises (Some "B") 1 false
      None None (boot [switch_A; switch_B])
  /\ SwitchController.process_switch never_raises (Some "A") 1 false None
       (Some switch_B) (boot [switch_A; switch_B])
     = SwitchController.process_switch never_raises (Some "B") 1 false
         None None (boot [switch_A; switch_B]).
Proof.
  apply (process_switch_by_number never_raises (boot [switch_A; switch_B])
           switch_B (Some "A") None 1 false).
  - right. now left.
  - repeat constructor; cbn; intuition discriminate.
Defined.

(** ** What one report calls and posts *)

Lemma posted_of_app (tr1 tr2 : list Event) :
  posted_of (tr1 ++ tr2) = posted_of tr1 ++ posted_of tr2.
Proof. unfold posted_of. apply omap_app. Qed.

Lemma posted_of_posts {A} (f : A -> string) (l : list A) :
  posted_of (map (fun x => Posted (f x)) l) = map f l.
Proof.
  induction l as [|x l IH]; [reflexivity|].
  cbn [map].
  change (f x :: posted_of (map (fun x => Posted (f x)) l) = f x :: map f l).
  now rewrite IH.
Qed.

Lemma calls_of_posts {A} (cb : callback) (f : A -> string) (l : list A) :
  calls_of cb (map (fun x => Posted (f x)) l) = [].
Proof. induction l as [|x l IH]; [reflexivity|]. exact IH. Qed.

(** A loop of [post]s returns, with one event per element. *)
Lemma posting_run {A} (f : A -> string) (l : list A) :
  forall w : World,
    for_each l (fun x => SwitchController.post (f x)) w
    = (set_trace (trace w ++ map (fun x => Posted (f x)) l) w, inr tt).
Proof.
  induction l as [|x l IH]; intros w.
  - cbn. rewrite app_nil_r. unfold ret, set_trace. now rewrite world_eta.
  - cbn [for_each]. unfold bind at 1, SwitchController.post at 1, modify.
    rewrite IH. unfold set_trace. cbn. now rewrite <- app_assoc.
Qed.

(** [_post_switch_events] for a switch of the machine. *)
Lemma post_switch_events_run (name : string) (st : Z) (sw : Switch.t)
  (w : World) :
  find (fun x => String.eqb (Switch.name x) name) (machine_switches w)
  = Some sw ->
  SwitchController._post_switch_events name st w
  = (set_trace
       (trace w
        ++ (if st =? 1
            then map (fun tag => Posted ("sw_" +:+ tag)) (Switch.tags sw)
            else [])) w,
     inr tt).
Proof.
  intros Hfind. unfold SwitchController._post_switch_events.
  destruct (st =? 1).
  - unfold bind at 1, SwitchController.machine_switch.
    change (bind get ?k w) with (k w w). cbv beta. rewrite Hfind.
    unfold ret. apply posting_run.
  - rewrite app_nil_r. unfold ret, set_trace. now rewrite world_eta.
Qed.

Lemma dispatch_posted raises key entry (w : World) :
  posted_of (trace (fst (SwitchController.dispatch raises key entry w)))
  = posted_of (trace w).
Proof.
  unfold SwitchController.dispatch.
  destruct (Entry.ticks entry =? 0); [|reflexivity].
  unfold call, bind, get, modify. cbn [fst snd].
  destruct (raises _); unfold raise, ret; world;
    rewrite posted_of_app; apply app_nil_r.
Qed.

(** The first loop of [process_switch], whether it returns or raises. *)
Lemma dispatch_part_frame raises key (o : option (list Entry.t))
  (w : World) :
  let w2 := fst (match o with
                 | Some entries =>
                     for_each entries (SwitchController.dispatch raises key)
                 | None => ret tt
                 end w) in
  untouched w w2 /\ posted_of (trace w2) = posted_of (trace w).
Proof.
  destruct o as [entries|]; [|split; [apply untouched_refl|reflexivity]].
  apply (for_each_fst
           (fun s => untouched w s
                     /\ posted_of (trace s) = posted_of (trace w)));
    [|split; [apply untouched_refl|reflexivity]].
  intros entry s _ [Hs1 Hs2]. split; [now apply dispatch_untouched|].
  now rewrite dispatch_posted.
Qed.

Lemma del_active_trace k (w : World) :
  trace (fst (SwitchController.del_active k w)) = trace w.
Proof.
  unfold SwitchController.del_active, bind, get. cbn.
  now destruct (SwitchController.has_key k (active_timed_switches w)).
Qed.

(** The second loop of [process_switch], whether it returns or raises. *)
Lemma sweep_part_frame opposite (l : list (Z * list Pending.t))
  (w : World) :
  let w3 := fst (for_each l (SwitchController.sweep opposite) w) in
  untouched w w3 /\ trace w3 = trace w.
Proof.
  apply (for_each_fst (fun s => untouched w s /\ trace s = trace w));
    [|split; [apply untouched_refl|reflexivity]].
  intros kv s _ [Hs1 Hs2]. split; [now apply sweep_untouched|].
  rewrite <- Hs2. unfold SwitchController.sweep.
  apply (for_each_fst (fun x => trace x = trace s)); [|reflexivity].
  intros item x _ Hx. destruct (String.eqb _ _); [|exact Hx].
  now rewrite del_active_trace.
Qed.

(** The events that one report posts.  When [process_switch] returns for
    a switch of the machine, it has posted ["sw_" + tag] for every tag of
    the switch, in their order, if the new logical state is 1, and
    nothing otherwise; when it raises (a handler raised, or the sweep
    did), it has posted nothing. *)
Theorem tag_events_follow_activation
  (raises : callback -> bool) (w : World) (name : string) (sw : Switch.t)
  (s : Z) (logical : bool) :
  find (fun x => String.eqb (Switch.name x) name) (machine_switches w)
  = Some sw ->
  let r := SwitchController.process_switch raises (Some name) s logical
             None None w in
  posted_of (trace (fst r))
  = posted_of (trace w)
    ++ match snd r with
       | inr _ =>
           if SwitchController.logical_state sw s logical =? 1
           then map (fun tag => "sw_" +:+ tag) (Switch.tags sw)
           else []
       | inl _ => []
       end.
Proof.
  intros Hfind r. subst r.
  rewrite (process_switch_by_name raises w name sw) by exact Hfind.
  set (st := SwitchController.logical_state sw s logical).
  set (w0 := set_switches _ w).
  assert (H0 : trace w0 = trace w /\ machine_switches w0 = machine_switches w)
    by (split; reflexivity).
  destruct H0 as [Htr0 Hms0]. rewrite <- Htr0. clearbody w0.
  remember (handle raises name st w0) as r eqn:Hr.
  unfold handle in Hr. change (bind get ?k w0) with (k w0 w0) in Hr.
  cbv beta in Hr.
  pose proof (dispatch_part_frame raises (SwitchController.switch_key name st)
                (registered_switches w0
                   !! SwitchController.switch_key name st) w0) as Hd.
  cbv zeta in Hd. unfold bind at 1 in Hr. revert Hd Hr.
  match goal with
  | |- untouched _ (fst ?c) /\ _ -> _ => destruct c as [w2 [e|[]]]
  end; cbn [fst snd]; intros [Hunt2 Hp2] ->; cbn [fst snd];
    [now rewrite app_nil_r|].
  remember (bind get _ w2) as r eqn:Hr.
  change (bind get ?k w2) with (k w2 w2) in Hr. cbv beta in Hr.
  pose proof (sweep_part_frame
                (SwitchController.switch_key name (Z.lxor st 1))
                (active_timed_switches w2) w2) as Hs.
  cbv zeta in Hs. unfold bind at 1 in Hr. revert Hs Hr.
  match goal with
  | |- untouched _ (fst ?c) /\ _ -> _ => destruct c as [w3 [e|[]]]
  end; cbn [fst snd]; intros [Hunt3 Htr3] ->; cbn [fst snd].
  { now rewrite app_nil_r, Htr3. }
  rewrite (post_switch_events_run name st sw w3).
  - cbn [fst snd]. world. rewrite posted_of_app, Htr3, Hp2. f_equal.
    destruct (st =? 1); [|reflexivity].
    apply (posted_of_posts (fun tag => "sw_" +:+ tag)).
  - destruct Hunt3 as (_ & _ & _ & _ & Hm3 & _).
    destruct Hunt2 as (_ & _ & _ & _ & Hm2 & _).
    now rewrite Hm3, Hm2, Hms0.
Qed.

(** "A" carries the tag "left_flipper" (scenario 4 of the
    specification). *)
Lemma tag_event_of_left_flipper :
  posted_of
    (trace (fst (SwitchController.process_switch never_raises (Some "A") 1
                   false None None (boot [switch_A]))))
  = ["sw_left_flipper"].
Proof.
  apply (tag_events_follow_activation never_raises (boot [switch_A]) "A"
           switch_A 1 false).
  reflexivity.
Defined.

(** The first loop of [process_switch] when no callback raises: it
    returns, having called every handler of dwell 0 once. *)
Lemma dispatch_loop_calls raises (cb : callback) key
  (entries : list Entry.t) :
  (forall c, raises c = false) ->
  forall w : World,
    exists w',
      for_each entries (SwitchController.dispatch raises key) w
      = (w', inr tt)
      /\ tick w' = tick w
      /\ calls_of cb (trace w')
         = calls_of cb (trace w)
           ++ repeat (tick w)
                (length
                   (List.filter
                      (fun e => (Entry.ticks e =? 0)
                                && Nat.eqb (Entry.callback e) cb)
                      entries)).
Proof.
  intros Hquiet. induction entries as [|e entries IH]; intros w.
  - exists w. cbn. now rewrite app_nil_r.
  - cbn [for_each]. unfold bind at 1, SwitchController.dispatch at 1.
    cbn [List.filter]. destruct (Entry.ticks e =? 0); cbn [andb].
    + unfold call, bind, get, modify. cbn [fst snd]. rewrite Hquiet.
      unfold ret.
      match goal with
      | |- context [for_each entries _ ?w1] =>
          destruct (IH w1) as (w' & Hrun & Htick & Hcalls)
      end.
      exists w'. rewrite Hrun. world. split; [reflexivity|].
      split; [exact Htick|].
      rewrite Hcalls, calls_of_app, <- app_assoc. f_equal.
      cbn. destruct (Nat.eqb (Entry.callback e) cb); reflexivity.
    + unfold modify.
      match goal with
      | |- context [for_each entries _ ?w1] =>
          destruct (IH w1) as (w' & Hrun & Htick & Hcalls)
      end.
      exists w'. rewrite Hrun. world. split; [reflexivity|].
      split; [exact Htick|exact Hcalls].
Qed.

(** A handler registered with a dwell of 0 ticks is called during the
    report itself.  When no callback raises, one report of a switch of the
    machine calls a callback once per registration of it with dwell 0
    under the switch and its new logical state, at the tick of the report,
    and not for any other registration; this holds whether the report
    then returns or its sweep raises. *)
Theorem immediate_handlers_run_once_per_report
  (raises : callback -> bool) (w : World) (name : string) (sw : Switch.t)
  (s : Z) (logical : bool) (cb : callback) :
  (forall c, raises c = false) ->
  find (fun x => String.eqb (Switch.name x) name) (machine_switches w)
  = Some sw ->
  let key := SwitchController.switch_key name
               (SwitchController.logical_state sw s logical) in
  let w' := fst (SwitchController.process_switch raises (Some name) s
                   logical None None w) in
  calls_of cb (trace w')
  = calls_of cb (trace w)
    ++ repeat (tick w)
         (length
            (List.filter
               (fun e => (Entry.ticks e =? 0)
                         && Nat.eqb (Entry.callback e) cb)
               (default [] (registered_switches w !! key)))).
Proof.
  intros Hquiet Hfind key w'. subst key w'.
  rewrite (process_switch_by_name raises w name sw) by exact Hfind.
  set (st := SwitchController.logical_state sw s logical).
  set (w0 := set_switches _ w).
  assert (H0 : trace w0 = trace w /\ machine_switches w0 = machine_switches w
               /\ registered_switches w0 = registered_switches w
               /\ tick w0 = tick w)
    by (repeat split; reflexivity).
  destruct H0 as (Htr0 & Hms0 & Hreg0 & Htick0).
  rewrite <- Htr0, <- Hreg0, <- Htick0. clearbody w0.
  unfold handle. change (bind get ?k w0) with (k w0 w0). cbv beta.
  assert (Hd : exists w2,
             match registered_switches w0
                   !! SwitchController.switch_key name st with
             | Some entries =>
                 for_each entries
                   (SwitchController.dispatch raises
                      (SwitchController.switch_key name st))
             | None => ret tt
             end w0 = (w2, inr tt)
             /\ untouched w0 w2
             /\ calls_of cb (trace w2)
                = calls_of cb (trace w0)
                  ++ repeat (tick w0)
                       (length
                          (List.filter
                             (fun e => (Entry.ticks e =? 0)
                                       && Nat.eqb (Entry.callback e) cb)
                             (default []
                                (registered_switches w0
                                   !! SwitchController.switch_key name
                                        st))))).
  { pose proof (dispatch_part_frame raises
                  (SwitchController.switch_key name st)
                  (registered_switches w0
                     !! SwitchController.switch_key name st) w0) as Hf.
    cbv zeta in Hf.
    destruct (registered_switches w0 !! SwitchController.switch_key name st)
      as [entries|].
    - destruct (dispatch_loop_calls raises cb
                  (SwitchController.switch_key name st) entries Hquiet w0)
        as (w2 & Hrun & _ & Hcalls).
      exists w2. rewrite Hrun in Hf. cbn [fst] in Hf.
      split; [exact Hrun|]. split; [apply Hf|exact Hcalls].
    - exists w0. split; [reflexivity|]. split; [apply untouched_refl|].
      cbn. now rewrite app_nil_r. }
  destruct Hd as (w2 & Hrun2 & Hunt2 & Hcalls2).
  unfold bind at 1. rewrite Hrun2.
  change (bind get ?k w2) with (k w2 w2). cbv beta.
  pose proof (sweep_part_frame
                (SwitchController.switch_key name (Z.lxor st 1))
                (active_timed_switches w2) w2) as Hs.
  cbv zeta in Hs. unfold bind at 1. revert Hs.
  match goal with
  | |- untouched _ (fst ?c) /\ _ -> _ => destruct c as [w3 [e|[]]]
  end; cbn [fst snd]; cbv iota; intros [Hunt3 Htr3].
  { now rewrite Htr3. }
  rewrite (post_switch_events_run name st sw w3).
  - cbn [fst]. world. rewrite calls_of_app, Htr3, Hcalls2.
    destruct (st =? 1); [|apply app_nil_r].
    rewrite (calls_of_posts cb (fun tag => "sw_" +:+ tag)).
    apply app_nil_r.
  - destruct Hunt3 as (_ & _ & _ & _ & Hm3 & _).
    destruct Hunt2 as (_ & _ & _ & _ & Hm2 & _).
    now rewrite Hm3, Hm2, Hms0.
Qed.

(** After [immediate_twice], the report of "A" as active at tick 3 calls
    callback 1 twice. *)
Lemma immediate_handlers_run_twice :
  calls_of 1
    (trace (fst (SwitchController.process_switch never_raises (Some "A") 1
                   false None None
                   (fst (immediate_twice (boot [switch_A]))))))
  = [3; 3].
Proof.
  apply (immediate_handlers_run_once_per_report never_raises
           (fst (immediate_twice (boot [switch_A]))) "A" switch_A 1 false 1).
  - reflexivity.
  - reflexivity.
Defined.

(** ** The state table *)

Lemma find_by_name (sw : Switch.t) (l : list Switch.t) :
  In sw l ->
  List.NoDup (map Switch.name l) ->
  find (fun x => String.eqb (Switch.name x) (Switch.name sw)) l = Some sw.
Proof.
  induction l as [|x l IH]; intros Hin Hnodup; [destruct Hin|].
  cbn in Hnodup. apply NoDup_cons_iff in Hnodup as [Hnotin Hnodup].
  cbn [find]. destruct Hin as [->|Hin].
  - now rewrite String.eqb_refl.
  - destruct (String.eqb_spec (Switch.name x) (Switch.name sw)) as [Heq|_].
    + exfalso. apply Hnotin. rewrite Heq. now apply in_map.
    + now apply IH.
Qed.

(** The loop of [initialize_hw_states] over the switches [l], when it
    returns. *)
Lemma initialize_loop raises (l : list Switch.t) :
  forall w w' : World,
    List.NoDup (map Switch.name l) ->
    (forall sw, In sw l ->
       find (fun x => String.eqb (Switch.name x) (Switch.name sw))
         (machine_switches w) = Some sw) ->
    for_each l (fun switch =>
      SwitchController.process_switch raises (Some (Switch.name switch))
        (Switch.state switch) false None None) w = (w', inr tt) ->
    tick w' = tick w
    /\ (forall sw, In sw l ->
          switches w' !! Switch.name sw
          = Some (SwState.mk
                    (SwitchController.logical_state sw (Switch.state sw)
                       false) (tick w)))
    /\ (forall name, ~ In name (map Switch.name l) ->
          switches w' !! name = switches w !! name).
Proof.
  induction l as [|x l IH]; intros w w' Hnodup Hfind Hrun.
  - cbn in Hrun. injection Hrun as <-. split; [reflexivity|].
    split; [intros sw []|reflexivity].
  - cbn [for_each] in Hrun.
    apply bind_inr in Hrun as ([] & w1 & Hx & Hrest).
    cbn in Hnodup. apply NoDup_cons_iff in Hnodup as [Hnotin Hnodup].
    rewrite (process_switch_by_name raises w (Switch.name x) x) in Hx
      by (apply Hfind; now left).
    match type of Hx with
    | handle raises ?n ?st ?w0 = _ =>
        pose proof (handle_untouched raises n st w0)
          as (Htick1 & Hsw1 & _ & _ & Hms1 & _)
    end.
    rewrite Hx in Htick1, Hsw1, Hms1. cbn in Htick1, Hsw1, Hms1.
    apply IH in Hrest as (Htick & Hset & Hkeep); [|exact Hnodup|].
    + split; [congruence|]. split.
      * intros sw [<-|Hin].
        -- rewrite Hkeep by exact Hnotin. rewrite Hsw1.
           apply lookup_insert_eq.
        -- rewrite Hset by exact Hin. now rewrite Htick1.
      * intros name Hname. cbn in Hname.
        rewrite Hkeep by tauto. rewrite Hsw1.
        apply lookup_insert_ne. tauto.
    + intros sw Hin. rewrite Hms1. apply Hfind. now right.
Qed.

(** When [initialize_hw_states] returns, the state table holds every
    switch of the machine with the logical value of its hardware reading
    (inverted for a normally closed switch) and the current tick as the
    time of its last change.  (The names of the machine's switches are
    distinct, as the keys of [machine.switches] are.) *)
Theorem initialize_hw_states_fills_state_table
  (raises : callback -> bool) (w w' : World) :
  List.NoDup (map Switch.name (machine_switches w)) ->
  SwitchController.initialize_hw_states raises w = (w', inr tt) ->
  Forall (fun sw =>
            switches w' !! Switch.name sw
            = Some (SwState.mk
                      (SwitchController.logical_state sw (Switch.state sw)
                         false) (tick w)))
    (machine_switches w).
Proof.
  intros Hnodup Hrun. unfold SwitchController.initialize_hw_states in Hrun.
  change (bind get ?k w) with (k w w) in Hrun. cbv beta in Hrun.
  apply initialize_loop in Hrun as (_ & Hset & _); [|exact Hnodup|].
  - apply Forall_forall. intros sw Hin. apply Hset.
    now apply list_elem_of_In.
  - intros sw Hin. now apply find_by_name.
Qed.

(** A machine with an open switch reading 0, a normally closed switch
    reading 0 and an open switch reading 1. *)
Lemma initialize_hw_states_of_three_switches :
  Forall (fun sw =>
            switches
              (fst (SwitchController.initialize_hw_states never_raises
                      (boot [switch_A; switch_S; switch_C])))
              !! Switch.name sw
            = Some (SwState.mk
                      (SwitchController.logical_state sw (Switch.state sw)
                         false) 0))
    [switch_A; switch_S; switch_C].
Proof.
  apply (initialize_hw_states_fills_state_table never_raises
           (boot [switch_A; switch_S; switch_C])
           (fst (SwitchController.initialize_hw_states never_raises
                   (boot [switch_A; switch_S; switch_C])))).
  - repeat constructor; cbn; intuition discriminate.
  - vm_compute. reflexivity.
Defined.

(** [timer_tick] does not touch the state table, whether it returns or
    raises. *)
Lemma timer_tick_switches raises (w : World) :
  let w' := fst (Timing.timer_tick raises w) in
  switches w' = switches w /\ machine_switches w' = machine_switches w.
Proof.
  set (P := fun w' : World =>
              switches w' = switches w
              /\ machine_switches w' = machine_switches w).
  change (P (fst (Timing.timer_tick raises w))).
  unfold Timing.timer_tick. apply bind_fst.
  - cbn. now split.
  - intros _ w1 Hw1. change (bind get ?k w1) with (k w1 w1). cbv beta.
    apply for_each_fst; [|exact Hw1].
    intros i w2 _ Hw2. unfold Timing.timer_body.
    change (bind get ?k w2) with (k w2 w2). cbv beta.
    destruct (timers w2 !! i) as [t|]; [|exact Hw2].
    destruct (Timing.due (tick w2) t); [|exact Hw2].
    unfold call, bind, get, modify. cbn.
    destruct (raises (Timer.callback t)); cbn; exact Hw2.
Qed.

Lemma machine_tick_clock raises (w w' : World) :
  SwitchController.machine_tick raises w = (w', inr tt) ->
  tick w' = tick w + 1 /\ switches w' = switches w.
Proof.
  unfold SwitchController.machine_tick. intros Hrun.
  apply bind_inr in Hrun as ([] & w1 & Htimers & Hhook).
  pose proof (timer_tick_frame raises w) as (Htick & _).
  pose proof (timer_tick_switches raises w) as (Hsw & _).
  rewrite Htimers in Htick, Hsw. cbn in Htick, Hsw.
  apply tick_hook_clears_due_keys in Hhook as (_ & Htick' & Hsw' & _).
  split; congruence.
Qed.

Lemma machine_ticks_clock raises (n : nat) :
  forall w w' : World,
    times n (SwitchController.machine_tick raises) w = (w', inr tt) ->
    tick w' = tick w + Z.of_nat n /\ switches w' = switches w.
Proof.
  induction n as [|n IH]; intros w w' Hrun.
  - cbn in Hrun. injection Hrun as <-. split; [lia|reflexivity].
  - cbn [times] in Hrun. apply bind_inr in Hrun as ([] & w1 & H1 & Hrest).
    apply machine_tick_clock in H1 as [Ht1 Hs1].
    apply IH in Hrest as [Ht Hs]. split; [lia|congruence].
Qed.

(** [n] machine ticks after a report of a switch (the report returned or
    raised, the ticks returned): [ticks_since_change] is [n];
    [is_state] holds of the logical state that the report stored, for
    every number of ticks up to [n] and for no greater one; [is_active]
    and [is_inactive], asked without a number of ticks, tell whether that
    state is 1, respectively 0. *)
Theorem is_state_counts_ticks_since_report
  (raises : callback -> bool) (w w' : World) (name : string) (sw : Switch.t)
  (s : Z) (logical : bool) (n : nat) (m : Z) :
  find (fun x => String.eqb (Switch.name x) name) (machine_switches w)
  = Some sw ->
  times n (SwitchController.machine_tick raises)
    (fst (SwitchController.process_switch raises (Some name) s logical
            None None w))
  = (w', inr tt) ->
  let st := SwitchController.logical_state sw s logical in
  SwitchController.ticks_since_change name w' = (w', inr (Z.of_nat n))
  /\ SwitchController.is_state name st (Some m) w'
     = (w', inr (m <=? Z.of_nat n))
  /\ SwitchController.is_active name None w' = (w', inr (st =? 1))
  /\ SwitchController.is_inactive name None w' = (w', inr (st =? 0)).
Proof.
  intros Hfind Hrun st.
  apply machine_ticks_clock in Hrun as [Htick Hsw].
  rewrite (process_switch_by_name raises w name sw) in Htick, Hsw
    by exact Hfind.
  fold st in Htick, Hsw.
  match type of Hsw with
  | context [handle raises name st ?w0] =>
      pose proof (handle_untouched raises name st w0) as (Ht0 & Hs0 & _)
  end.
  rewrite Ht0 in Htick. rewrite Hs0 in Hsw. cbn in Htick, Hsw.
  assert (Hlook : switches w' !! name = Some (SwState.mk st (tick w)))
    by (rewrite Hsw; apply lookup_insert_eq).
  assert (Hsince : SwitchController.ticks_since_change name w'
                   = (w', inr (Z.of_nat n))).
  { unfold SwitchController.ticks_since_change.
    change (bind get ?k w') with (k w' w'). cbv beta. rewrite Hlook.
    unfold ret. cbn. do 2 f_equal. lia. }
  split; [exact Hsince|].
  unfold SwitchController.is_active, SwitchController.is_inactive,
    SwitchController.is_state.
  change (bind get ?k w') with (k w' w'). cbv beta. rewrite Hlook.
  cbn [SwState.state]. rewrite Z.eqb_refl. unfold bind.
  split; [now rewrite Hsince|].
  split; destruct (st =? _); try reflexivity; now rewrite Hsince.
Qed.

(** "S" is normally closed and reported raw as 1, so its logical state is
    0; two ticks pass. *)
Lemma is_state_two_ticks_after_report :
  let w' :=
    fst (times 2 (SwitchController.machine_tick never_raises)
           (fst (SwitchController.process_switch never_raises (Some "S") 1
                   false None None (boot [switch_S])))) in
  SwitchController.ticks_since_change "S" w' = (w', inr 2)
  /\ SwitchController.is_state "S" 0 (Some 3) w' = (w', inr false)
  /\ SwitchController.is_active "S" None w' = (w', inr false)
  /\ SwitchController.is_inactive "S" None w' = (w', inr true).
Proof.
  apply (is_state_counts_ticks_since_report never_raises (boot [switch_S])
           (fst (times 2 (SwitchController.machine_tick never_raises)
                   (fst (SwitchController.process_switch never_raises
                           (Some "S") 1 false None None (boot [switch_S])))))
           "S" switch_S 1 false 2 3).
  - reflexivity.
  - vm_compute. reflexivity.
Defined.

(** ** The handler registry *)

Lemma fire_untouched raises kv (w0 w : World) :
  untouched w0 w -> untouched w0 (fst (SwitchController.fire raises kv w)).
Proof.
  intros Hw. unfold SwitchController.fire.
  change (bind get ?k w) with (k w w). cbv beta.
  destruct (fst kv <=? tick w); [|exact Hw].
  apply bind_fst.
  - revert w Hw. apply for_each_fst. intros item s _.
    apply call_untouched.
  - intros _ s. apply del_active_untouched.
Qed.

(** [_tick] leaves the clock, the state table and the registry alone,
    whether it returns or raises. *)
Lemma tick_hook_untouched raises (w : World) :
  untouched w (fst (SwitchController._tick raises w)).
Proof.
  unfold SwitchController._tick.
  change (bind get ?k w) with (k w w). cbv beta.
  apply (for_each_fst (untouched w)); [|apply untouched_refl].
  intros kv s _. apply fire_untouched.
Qed.

(** No call into the core removes a registration: whatever sequence of
    [configure], [add], [add_switch_handler], [process_switch] and machine
    ticks is run, and whether it returns or raises, the handlers
    registered under a key are still registered under it afterwards, in
    their order and before any handler registered since. *)
Theorem registered_handlers_are_never_removed
  (raises : callback -> bool) (ops : list op) (w : World) (key : string)
  (entries : list Entry.t) :
  registered_switches w !! key = Some entries ->
  exists more,
    registered_switches (fst (run raises ops w)) !! key
    = Some (entries ++ more).
Proof.
  intros Hw. unfold run.
  apply (for_each_fst
           (fun s => exists more,
                       registered_switches s !! key = Some (entries ++ more)));
    [|exists []; now rewrite app_nil_r].
  clear w Hw. intros o w _ [more Hw].
  destruct o as [hz|t|name cb state ms|name state logical num obj|];
    cbn [step].
  - exists more. unfold Timing.configure, bind, modify, lift. cbn [fst snd].
    destruct (float_of_int hz) as [e|f]; [exact Hw|].
    now destruct (py_div 1 f).
  - exists more. unfold Timing.add, bind, get, modify. cbn.
    now destruct (existsb _ _).
  - destruct (add_switch_handler_cases name cb state ms w)
      as [->|(spt & x & a & b & ticks & _ & _ & _ & _ & _ & ->)];
      [now exists more|].
    cbn. destruct (decide (SwitchController.switch_key name state = key))
      as [<-|Hne].
    + rewrite lookup_insert_eq, Hw. cbn.
      eexists. now rewrite <- app_assoc.
    + exists more. now rewrite lookup_insert_ne.
  - exists more.
    destruct (process_switch_cases raises name state logical num obj w)
      as [->|(name' & state' & ->)]; [exact Hw|].
    match goal with
    | |- context [handle raises name' state' ?w1] =>
        pose proof (handle_untouched raises name' state' w1)
          as (_ & _ & Hr & _)
    end.
    now rewrite Hr.
  - exists more. unfold SwitchController.machine_tick.
    apply (bind_fst
             (fun s => registered_switches s !! key = Some (entries ++ more))).
    + pose proof (timer_tick_frame raises w) as (_ & _ & Hr & _).
      now rewrite Hr.
    + intros _ s Hs.
      pose proof (tick_hook_untouched raises s) as (_ & _ & Hr & _).
      now rewrite Hr.
Qed.

(** After [delayed_fire], a second handler is registered, "A" is released
    and a tick passes: the handler of 100 ms is still registered. *)
Lemma registered_handler_survives_release :
  exists more,
    registered_switches
      (fst (run never_raises
              [AddSwitchHandler "A" 2 1 40;
               ProcessSwitch (Some "A") 0 false None None;
               MachineTick]
              (fst (delayed_fire (boot [switch_A])))))
      !! "A-1"
    = Some ([Entry.mk 5 1] ++ more).
Proof.
  apply (registered_handlers_are_never_removed never_raises
           [AddSwitchHandler "A" 2 1 40;
            ProcessSwitch (Some "A") 0 false None None;
            MachineTick]
           (fst (delayed_fire (boot [switch_A]))) "A-1" [Entry.mk 5 1]).
  vm_compute. reflexivity.
Defined.

(** ** The dwell of a handler *)

(** [add_switch_handler] and [Timing.msecs] convert a time in ms by the
    same division, [ms / secs_per_tick / 1000]; [msecs] truncates the
    quotient and [add_switch_handler] rounds it up.  So where [msecs]
    raises, [add_switch_handler] raises the same exception and changes
    nothing; and where [msecs] returns [t], [add_switch_handler] returns
    and registers the dwell [t + 1] when the quotient is positive and has
    a fractional part, and the dwell [t] otherwise.  The new entry is
    appended to the list registered under the key of the switch and the
    state; nothing else changes. *)
Theorem dwell_is_msecs_rounded_up
  (name : string) (cb : callback) (state : Z) (ms : number) (w : World) :
  (forall e : exn,
      snd (Timing.msecs ms w) = inl e ->
      SwitchController.add_switch_handler name cb state ms w = (w, inl e))
  /\ (forall t : Z,
        snd (Timing.msecs ms w) = inr t ->
        exists spt x a b : float,
          secs_per_tick w = Some spt
          /\ as_float ms = inr x
          /\ py_div x spt = inr a
          /\ py_div a 1000 = inr b
          /\ py_int b = inr t
          /\ SwitchController.add_switch_handler name cb state ms w
             = (set_registered_switches
                  (<[SwitchController.switch_key name state :=
                       (default []
                          (registered_switches w
                             !! SwitchController.switch_key name state)
                        ++ [Entry.mk
                              (if (0 <? b)%float && negb (is_integer b)
                               then t + 1 else t) cb])%list]>
                     (registered_switches w)) w,
                inr tt)).
Proof.
  unfold Timing.msecs, SwitchController.add_switch_handler, bind, gets,
    lift, raise, modify.
  destruct (secs_per_tick w) as [spt|]; cbn [fst snd];
    [|split; [intros e [= <-]; reflexivity|intros t [=]]].
  destruct (as_float ms) as [e1|x] eqn:Hx; cbn [fst snd];
    [split; [intros e [= <-]; reflexivity|intros t [=]]|].
  destruct (py_div x spt) as [e2|a] eqn:Ha; cbn [fst snd];
    [split; [intros e [= <-]; reflexivity|intros t [=]]|].
  destruct (py_div a 1000) as [e3|b] eqn:Hb; cbn [fst snd];
    [split; [intros e [= <-]; reflexivity|intros t [=]]|].
  rewrite ceil_then_int.
  destruct (py_int b) as [e4|t'] eqn:Ht; cbn [fst snd].
  - split; [intros e [= <-]; reflexivity|intros t [=]].
  - split; [intros e [=]|]. intros t [= <-].
    exists spt, x, a, b. rewrite Ha, Hb, Ht. repeat split; reflexivity.
Qed.

(** At 49 Hz the quotient for 1000 ms is just above 49: [msecs] gives 49
    ticks, and the dwell is 50 ticks. *)
Lemma dwell_of_1000ms_at_49Hz_is_50_ticks :
  let w := fst (Timing.configure 49 (boot [])) in
  snd (Timing.msecs 1000 w) = inr 49
  /\ SwitchController.add_switch_handler "A" 1 1 1000 w
     = (set_registered_switches (<["A-1" := [Entry.mk 50 1]]> ∅) w, inr tt).
Proof.
  intros w. split; [vm_compute; reflexivity|].
  destruct (dwell_is_msecs_rounded_up "A" 1 1 1000 w) as [_ Hreturns].
  destruct (Hreturns 49 eq_refl)
    as (spt & x & a & b & Hspt & Hx & Ha & Hb & _ & ->).
  vm_compute in Hspt. injection Hspt as <-.
  vm_compute in Hx. injection Hx as <-.
  vm_compute in Ha. injection Ha as <-.
  vm_compute in Hb. injection Hb as <-.
  vm_compute. reflexivity.
Defined.

(** ** A delayed handler that raises *)

(** The calls of one bucket: the loop leaves the clock and the buckets
    alone, and raises only what one of its callbacks raised. *)
Lemma bucket_calls_outcome raises (v : list Pending.t) :
  forall w : World,
    exists w' r,
      for_each v (fun item => call raises (Pending.callback item) []) w
      = (w', r)
      /\ tick w' = tick w
      /\ active_timed_switches w' = active_timed_switches w
      /\ match r with
         | inr _ => True
         | inl e =>
             exists item,
               In item v
               /\ e = CallbackError (Pending.callback item)
               /\ raises (Pending.callback item) = true
         end.
Proof.
  induction v as [|item v IH]; intros w.
  - exists w, (inr tt). now repeat split.
  - cbn [for_each]. unfold bind at 1, call at 1.
    unfold bind, get, modify. cbn [fst snd].
    destruct (raises (Pending.callback item)) eqn:Hr.
    + eexists _, _. split; [reflexivity|]. world.
      repeat split. exists item. split; [now left|]. now split.
    + unfold ret.
      match goal with
      | |- context [for_each v _ ?w1] =>
          destruct (IH w1) as (w' & r & Hrun & Htick & Hact & Hres)
      end.
      exists w', r. rewrite Hrun. world. repeat split; try assumption.
      destruct r as [e|]; [|exact I].
      destruct Hres as (item' & Hin & He & Hraise).
      exists item'. split; [now right|]. now split.
Qed.

(** The loop of [_tick] over the rest [l] of the snapshot, [kept] being
    the buckets it has passed and left in place, when the keys are
    distinct: either it returns, or a callback of a due bucket raised and
    that bucket is still in place. *)
Lemma fire_loop_outcome raises (l : list (Z * list Pending.t)) :
  forall (kept : list (Z * list Pending.t)) (w : World),
    active_timed_switches w = kept ++ l ->
    List.NoDup (map fst (kept ++ l)) ->
    exists w' r,
      for_each l (SwitchController.fire raises) w = (w', r)
      /\ tick w' = tick w
      /\ match r with
         | inr _ => True
         | inl e =>
             exists k v item,
               e = CallbackError (Pending.callback item)
               /\ raises (Pending.callback item) = true
               /\ In (k, v) l
               /\ In (k, v) (active_timed_switches w')
               /\ In item v
               /\ k <= tick w
         end.
Proof.
  induction l as [|[k v] l IH]; intros kept w Hactive Hnodup.
  - exists w, (inr tt). now repeat split.
  - cbn [for_each]. unfold bind at 1, SwitchController.fire at 1.
    change (bind get ?f w) with (f w w). cbv beta. cbn [fst snd].
    destruct (k <=? tick w) eqn:Hk.
    + destruct (bucket_calls_outcome raises v w)
        as (wc & rc & Hcalls & Htick & Hact & Hres).
      unfold bind at 1. rewrite Hcalls. destruct rc as [e|[]].
      * exists wc, (inl e). split; [reflexivity|]. split; [exact Htick|].
        destruct Hres as (item & Hin & He & Hraise).
        exists k, v, item. repeat split; try assumption.
        -- now left.
        -- rewrite Hact, Hactive. apply in_or_app. right. now left.
        -- now apply Z.leb_le.
      * unfold SwitchController.del_active.
        change (bind get ?f wc) with (f wc wc). cbv beta.
        rewrite Hact, Hactive.
        rewrite (has_key_In k (kept ++ (k, v) :: l) v)
          by (apply in_or_app; right; now left).
        unfold modify. rewrite remove_key_middle by exact Hnodup.
        match goal with
        | |- context [for_each l _ ?w1] =>
            destruct (IH kept w1) as (w' & r & Hrun & Ht & Hr)
        end.
        -- reflexivity.
        -- rewrite map_app in Hnodup |- *. cbn in Hnodup.
           now apply NoDup_remove_1 in Hnodup.
        -- exists w', r. rewrite Hrun. world. split; [reflexivity|].
           split; [congruence|]. destruct r as [e|]; [|exact I].
           destruct Hr as (k' & v' & item & He & Hraise & Hin & Hin' & Hi
                           & Hle).
           exists k', v', item. repeat split; try assumption.
           ++ now right.
           ++ lia.
    + unfold ret.
      destruct (IH (kept ++ [(k, v)]) w) as (w' & r & Hrun & Ht & Hr).
      * now rewrite <- app_assoc.
      * now rewrite <- app_assoc.
      * exists w', r. rewrite Hrun. split; [reflexivity|].
        split; [exact Ht|]. destruct r as [e|]; [|exact I].
        destruct Hr as (k' & v' & item & He & Hraise & Hin & Hin' & Hi
                        & Hle).
        exists k', v', item. repeat split; try assumption. now right.
Qed.

(** When [_tick] raises, one of the delayed callbacks it called has
    raised (the hook itself never raises [KeyError]), and the bucket of
    that callback has not been deleted: it is still pending with all its
    entries, those already called included, and its key is not after the
    current tick, so the next tick calls them again. *)
Theorem raising_delayed_handler_stays_pending
  (raises : callback -> bool) (w w' : World) (e : exn) :
  List.NoDup (map fst (active_timed_switches w)) ->
  SwitchController._tick raises w = (w', inl e) ->
  exists k v item,
    e = CallbackError (Pending.callback item)
    /\ raises (Pending.callback item) = true
    /\ In (k, v) (active_timed_switches w)
    /\ In (k, v) (active_timed_switches w')
    /\ In item v
    /\ k <= tick w'.
Proof.
  intros Hnodup Hrun. unfold SwitchController._tick in Hrun.
  change (bind get ?f w) with (f w w) in Hrun. cbv beta in Hrun.
  destruct (fire_loop_outcome raises (active_timed_switches w) [] w
              eq_refl Hnodup) as (w1 & r & Hrun1 & Htick & Hr).
  rewrite Hrun in Hrun1. injection Hrun1 as <- <-.
  destruct Hr as (k & v & item & He & Hraise & Hin & Hin' & Hi & Hle).
  exists k, v, item. repeat split; try assumption. lia.
Qed.

(** After [delayed_fire] the clock is at tick 5, and the handler
    raises. *)
Lemma raising_handler_of_100ms_stays_pending :
  exists k v item,
    CallbackError 1%nat = CallbackError (Pending.callback item)
    /\ always_raises (Pending.callback item) = true
    /\ In (k, v)
         (active_timed_switches
            (set_tick 5 (fst (delayed_fire (boot [switch_A])))))
    /\ In (k, v)
         (active_timed_switches
            (fst (SwitchController._tick always_raises
                    (set_tick 5 (fst (delayed_fire (boot [switch_A])))))))
    /\ In item v
    /\ k <= tick (fst (SwitchController._tick always_raises
                         (set_tick 5 (fst (delayed_fire (boot [switch_A])))))).
Proof.
  apply (raising_delayed_handler_stays_pending always_raises
           (set_tick 5 (fst (delayed_fire (boot [switch_A]))))
           (fst (SwitchController._tick always_raises
                   (set_tick 5 (fst (delayed_fire (boot [switch_A]))))))
           (CallbackError 1%nat)).
  - vm_compute. repeat constructor. intros [].
  - vm_compute. reflexivity.
Defined.

(** ** Cancellation, when the report returns *)

(** When [process_switch] returns, no pending entry for the opposite of
    the new logical state is left in any bucket: the delayed handlers
    that waited for the state the switch has left are all cancelled. *)
Theorem returning_report_leaves_no_opposite_entry
  (raises : callback -> bool) (w w' : World) (name : string) (sw : Switch.t)
  (s : Z) (logical : bool) (k : Z) (v : list Pending.t) (item : Pending.t) :
  find (fun x => String.eqb (Switch.name x) name) (machine_switches w)
  = Some sw ->
  SwitchController.process_switch raises (Some name) s logical None None w
  = (w', inr tt) ->
  In (k, v) (active_timed_switches w') ->
  In item v ->
  Pending.switch_action item
  <> SwitchController.switch_key name
       (Z.lxor (SwitchController.logical_state sw s logical) 1).
Proof.
  intros Hfind Hrun Hbucket Hitem Haction.
  rewrite (process_switch_by_name raises w name sw) in Hrun by exact Hfind.
  unfold handle in Hrun.
  match type of Hrun with
  | bind get ?f ?w1 = _ =>
      change (bind get f w1) with (f w1 w1) in Hrun; cbv beta in Hrun
  end.
  apply bind_inr in Hrun as ([] & w2 & _ & Hrun).
  change (bind get ?f w2) with (f w2 w2) in Hrun. cbv beta in Hrun.
  apply bind_inr in Hrun as ([] & w3 & Hsweep & Hpost).
  apply sweep_loop in Hsweep as [Hincl Hgone].
  assert (Hw' : active_timed_switches w' = active_timed_switches w3).
  { replace w' with (fst (SwitchController._post_switch_events name
                            (SwitchController.logical_state sw s logical)
                            w3)) by now rewrite Hpost.
    apply post_switch_events_active. }
  rewrite Hw' in Hbucket.
  pose proof (Hgone k v item (Hincl _ Hbucket) Hitem Haction) as Hnone.
  rewrite (has_key_In k _ v Hbucket) in Hnone. discriminate.
Qed.

(** After [two_switches_pressed], "B" is released at tick 0: the bucket
    of tick 2 is gone, and the entry of "A" stays in the bucket of
    tick 5. *)
Lemma release_of_B_leaves_entry_of_A :
  active_timed_switches
    (fst (report never_raises "B" 0
            (fst (two_switches_pressed (boot [switch_A; switch_B])))))
  = [(5, [Pending.mk "A-1" 1])]
  /\ Pending.switch_action (Pending.mk "A-1" 1)
     <> SwitchController.switch_key "B"
          (Z.lxor (SwitchController.logical_state switch_B 0 false) 1).
Proof.
  split; [vm_compute; reflexivity|].
  apply (returning_report_leaves_no_opposite_entry never_raises
           (fst (two_switches_pressed (boot [switch_A; switch_B])))
           (fst (report never_raises "B" 0
                   (fst (two_switches_pressed (boot [switch_A; switch_B])))))
           "B" switch_B 0 false 5 [Pending.mk "A-1" 1] (Pending.mk "A-1" 1)).
  - reflexivity.
  - vm_compute. reflexivity.
  - vm_compute. now left.
  - now left.
Defined.

(** ** One report and the ticks that follow it *)

Lemma switch_key_opposite (name : string) (st : Z) :
  String.eqb (SwitchController.switch_key name st)
    (SwitchController.switch_key name (Z.lxor st 1)) = false.
Proof.
  apply String.eqb_neq. unfold SwitchController.switch_key. intros H.
  apply (inj _) in H. apply (inj _) in H. apply (inj pretty) in H.
  assert (H1 : Z.lxor st (Z.lxor st 1) = 0)
    by (rewrite <- H; apply Z.lxor_nilpotent).
  rewrite <- Z.lxor_assoc, Z.lxor_nilpotent, Z.lxor_0_l in H1. discriminate.
Qed.

Lemma bucket_append_keys (key : Z) (value : Pending.t)
  (d : list (Z * list Pending.t)) (k : Z) :
  In k (map fst (SwitchController.bucket_append key value d)) ->
  k = key \/ In k (map fst d).
Proof.
  induction d as [|[k0 v0] d IH]; cbn.
  - intros [<-|[]]. now left.
  - destruct (k0 =? key); cbn; [tauto|].
    intros [<-|Hin]; [tauto|]. apply IH in Hin. tauto.
Qed.

Lemma bucket_append_nodup (key : Z) (value : Pending.t)
  (d : list (Z * list Pending.t)) :
  List.NoDup (map fst d) ->
  List.NoDup (map fst (SwitchController.bucket_append key value d)).
Proof.
  induction d as [|[k0 v0] d IH]; cbn; intros Hd.
  - constructor; [intros []|constructor].
  - destruct (Z.eqb_spec k0 key) as [Heq|Hne]; [exact Hd|].
    cbn. apply NoDup_cons_iff in Hd as [Hnotin Hd].
    apply NoDup_cons_iff. split; [|now apply IH].
    intros Hin. apply bucket_append_keys in Hin as [Heq|Hin];
      [now apply Hne|now apply Hnotin].
Qed.

Lemma bucket_append_none_for (action : string) (k : Z) (value : Pending.t)
  (d : list (Z * list Pending.t)) :
  String.eqb (Pending.switch_action value) action = false ->
  none_for action d ->
  none_for action (SwitchController.bucket_append k value d).
Proof.
  intros Hvalue. unfold none_for.
  induction d as [|[k0 v0] d IH]; cbn; intros Hd kv item.
  - intros [<-|[]] [<-|[]]. exact Hvalue.
  - destruct (k0 =? k).
    + intros [<-|Hin] Hitem.
      * cbn in Hitem. apply in_app_or in Hitem as [Hitem|[<-|[]]];
          [|exact Hvalue].
        apply (Hd (k0, v0)); [now left|exact Hitem].
      * apply (Hd kv); [now right|exact Hitem].
    + intros [<-|Hin] Hitem.
      * apply (Hd (k0, v0)); [now left|exact Hitem].
      * apply (IH (fun kv' item' H1 H2 => Hd kv' item' (or_intror H1) H2)
                 kv item Hin Hitem).
Qed.

Lemma pending_for_bucket_append (cb : callback) (k key : Z)
  (value : Pending.t) (d : list (Z * list Pending.t)) :
  pending_for cb k (SwitchController.bucket_append key value d)
  = (pending_for cb k d
     + if (key =? k)%Z && Nat.eqb (Pending.callback value) cb
       then 1 else 0)%nat.
Proof.
  unfold pending_for. induction d as [|[k0 v0] d IH].
  - cbn. destruct (key =? k); cbn; [|reflexivity].
    now destruct (Nat.eqb (Pending.callback value) cb).
  - cbn [SwitchController.bucket_append].
    destruct (Z.eqb_spec k0 key) as [->|Hne].
    + cbn [List.filter fst]. destruct (key =? k); cbn [andb flat_map snd].
      * rewrite <- app_assoc, !List.filter_app, !List.length_app.
        cbn [List.filter].
        destruct (Nat.eqb (Pending.callback value) cb); cbn [length]; lia.
      * lia.
    + cbn [List.filter fst]. destruct (k0 =? k); cbn [flat_map snd].
      * rewrite !List.filter_app, !List.length_app, IH. lia.
      * exact IH.
Qed.

(** The buckets after the first loop of [process_switch]: what they hold
    for [cb] at the tick [k]. *)
Lemma pending_for_scheduled (cb : callback) (now k : Z) (key : string)
  (entries : list Entry.t) :
  now < k ->
  forall d,
    pending_for cb k (fold_left (schedule_entry now key) entries d)
    = (pending_for cb k d + registered_for cb (k - now) entries)%nat.
Proof.
  intros Hk. unfold registered_for.
  induction entries as [|e entries IH]; intros d;
    [cbn [fold_left List.filter length]; lia|].
  cbn [fold_left List.filter]. rewrite IH. unfold schedule_entry.
  destruct (Z.eqb_spec (Entry.ticks e) 0) as [Hz|Hnz].
  - replace (Entry.ticks e =? k - now) with false
      by (symmetry; apply Z.eqb_neq; lia).
    reflexivity.
  - rewrite pending_for_bucket_append. cbn [Pending.callback].
    replace (now + Entry.ticks e =? k) with (Entry.ticks e =? k - now)
      by (destruct (Z.eqb_spec (Entry.ticks e) (k - now));
          symmetry; [apply Z.eqb_eq|apply Z.eqb_neq]; lia).
    destruct ((Entry.ticks e =? k - now)
              && Nat.eqb (Entry.callback e) cb); cbn [length]; lia.
Qed.

Lemma scheduled_invariants (now : Z) (name : string) (st : Z)
  (entries : list Entry.t) :
  Forall (fun e => 0 <= Entry.ticks e) entries ->
  forall d,
    Forall (fun kv => now < fst kv) d /\ List.NoDup (map fst d)
    /\ none_for (SwitchController.switch_key name (Z.lxor st 1)) d ->
    let d' := fold_left
                (schedule_entry now (SwitchController.switch_key name st))
                entries d in
    Forall (fun kv => now < fst kv) d' /\ List.NoDup (map fst d')
    /\ none_for (SwitchController.switch_key name (Z.lxor st 1)) d'.
Proof.
  induction 1 as [|e entries He Hentries IH]; intros d Hd; [exact Hd|].
  cbn [fold_left]. apply IH. unfold schedule_entry.
  destruct (Z.eqb_spec (Entry.ticks e) 0) as [Hz|Hnz]; [exact Hd|].
  destruct Hd as (Hfut & Hnodup & Hnone).
  split; [apply bucket_append_future; [lia|exact Hfut]|].
  split; [now apply bucket_append_nodup|].
  apply bucket_append_none_for; [apply switch_key_opposite|exact Hnone].
Qed.

(** The first loop of [process_switch] when no callback raises: what it
    leaves in the buckets. *)
Lemma dispatch_loop_schedules raises key (entries : list Entry.t) :
  (forall c, raises c = false) ->
  forall w : World,
    active_timed_switches
      (fst (for_each entries (SwitchController.dispatch raises key) w))
    = fold_left (schedule_entry (tick w) key) entries
        (active_timed_switches w).
Proof.
  intros Hquiet. induction entries as [|e entries IH]; intros w;
    [reflexivity|].
  cbn [for_each fold_left]. unfold bind at 1.
  unfold SwitchController.dispatch at 1, schedule_entry at 2.
  destruct (Entry.ticks e =? 0).
  - unfold call, bind, get, modify. cbn [fst snd]. rewrite Hquiet.
    unfold ret. now rewrite IH.
  - unfold modify. now rewrite IH.
Qed.

(** The second loop of [process_switch] when no pending entry is for the
    opposite state: nothing is deleted. *)
Lemma sweep_loop_idle opposite (l : list (Z * list Pending.t)) (w : World) :
  none_for opposite l ->
  for_each l (SwitchController.sweep opposite) w = (w, inr tt).
Proof.
  unfold none_for. induction l as [|[k v] l IH]; intros Hl; [reflexivity|].
  cbn [for_each]. unfold bind at 1.
  assert (Hv : SwitchController.sweep opposite (k, v) w = (w, inr tt)).
  { unfold SwitchController.sweep. cbn [fst snd].
    assert (Hitems : forall item, In item v ->
              String.eqb (Pending.switch_action item) opposite = false)
      by (intros item Hin; apply (Hl (k, v)); [now left|exact Hin]).
    clear Hl IH. induction v as [|item v IHv]; [reflexivity|].
    cbn [for_each]. unfold bind at 1.
    rewrite (Hitems item) by now left. unfold ret at 1.
    apply IHv. intros item' Hin. apply Hitems. now right. }
  rewrite Hv. apply IH. intros kv item Hin. apply Hl. now right.
Qed.

(** A report of a switch of the machine in a state without pending
    entries for the opposite state, when no callback raises: the report
    returns, the handlers without a dwell have been called, and the
    others are scheduled; what was pending is pending still. *)
Lemma report_without_opposite raises (cb : callback) (w : World)
  (name : string) (sw : Switch.t) (s : Z) (logical : bool) :
  (forall c, raises c = false) ->
  find (fun x => String.eqb (Switch.name x) name) (machine_switches w)
  = Some sw ->
  let st := SwitchController.logical_state sw s logical in
  let key := SwitchController.switch_key name st in
  let entries := default [] (registered_switches w !! key) in
  future_keys w /\ List.NoDup (map fst (active_timed_switches w))
  /\ none_for (SwitchController.switch_key name (Z.lxor st 1))
       (active_timed_switches w) ->
  Forall (fun e => 0 <= Entry.ticks e) entries ->
  exists w1,
    SwitchController.process_switch raises (Some name) s logical None None w
    = (w1, inr tt)
    /\ tick w1 = tick w
    /\ timers w1 = timers w
    /\ active_timed_switches w1
       = fold_left (schedule_entry (tick w) key) entries
           (active_timed_switches w)
    /\ future_keys w1
    /\ List.NoDup (map fst (active_timed_switches w1))
    /\ calls_of cb (trace w1)
       = calls_of cb (trace w) ++ repeat (tick w) (registered_for cb 0 entries).
Proof.
  intros Hquiet Hfind st key entries Hpending Hdwell.
  rewrite (process_switch_by_name raises w name sw) by exact Hfind.
  fold st. set (w0 := set_switches _ w).
  assert (H0 : trace w0 = trace w /\ machine_switches w0 = machine_switches w
               /\ registered_switches w0 = registered_switches w
               /\ tick w0 = tick w /\ timers w0 = timers w
               /\ active_timed_switches w0 = active_timed_switches w)
    by (repeat split; reflexivity).
  destruct H0 as (Htr0 & Hms0 & Hreg0 & Htick0 & Htm0 & Hact0).
  clearbody w0.
  assert (Hd : exists w2,
             match registered_switches w0 !! key with
             | Some entries =>
                 for_each entries (SwitchController.dispatch raises key)
             | None => ret tt
             end w0 = (w2, inr tt)
             /\ untouched w0 w2
             /\ active_timed_switches w2
                = fold_left (schedule_entry (tick w) key) entries
                    (active_timed_switches w)
             /\ calls_of cb (trace w2)
                = calls_of cb (trace w)
                  ++ repeat (tick w) (registered_for cb 0 entries)).
  { pose proof (dispatch_part_frame raises key
                  (registered_switches w0 !! key) w0) as Hf.
    cbv zeta in Hf. subst entries. rewrite <- Hreg0.
    destruct (registered_switches w0 !! key) as [es|].
    - destruct (dispatch_loop_calls raises cb key es Hquiet w0)
        as (w2 & Hrun & _ & Hcalls).
      pose proof (dispatch_loop_schedules raises key es Hquiet w0) as Hact.
      exists w2. rewrite Hrun in Hf, Hact. cbn [fst] in Hf, Hact.
      split; [exact Hrun|]. split; [apply Hf|].
      rewrite Hact, Hact0, Htick0. split; [reflexivity|].
      rewrite Hcalls, Htr0, Htick0. reflexivity.
    - exists w0. split; [reflexivity|]. split; [apply untouched_refl|].
      cbn. rewrite Hact0, Htr0, app_nil_r. now split. }
  destruct Hd as (w2 & Hrun2 & Hunt2 & Hact2 & Hcalls2).
  unfold handle. change (bind get ?k w0) with (k w0 w0). cbv beta.
  fold key. unfold bind at 1. rewrite Hrun2.
  change (bind get ?k w2) with (k w2 w2). cbv beta.
  destruct (scheduled_invariants (tick w) name st entries Hdwell
              (active_timed_switches w) Hpending)
    as (Hfut & Hnodup & Hnone).
  fold key in Hfut, Hnodup, Hnone. rewrite <- Hact2 in Hfut, Hnodup, Hnone.
  unfold bind at 1. rewrite sweep_loop_idle by exact Hnone.
  rewrite (post_switch_events_run name st sw w2).
  - eexists. split; [reflexivity|]. world.
    destruct Hunt2 as (Ht2 & _ & _ & _ & _ & Htm2).
    split; [congruence|]. split; [congruence|].
    split; [exact Hact2|].
    split; [unfold future_keys; world; now rewrite Ht2, Htick0|].
    split; [exact Hnodup|].
    rewrite calls_of_app, Hcalls2.
    destruct (st =? 1); [|apply app_nil_r].
    rewrite (calls_of_posts cb (fun tag => "sw_" +:+ tag)).
    apply app_nil_r.
  - destruct Hunt2 as (_ & _ & _ & _ & Hm2 & _). now rewrite Hm2, Hms0.
Qed.

Lemma flat_map_agree {A B} (f g : A -> list B) (l : list A) :
  (forall x, In x l -> f x = g x) -> flat_map f l = flat_map g l.
Proof.
  induction l as [|x l IH]; intros H; [reflexivity|].
  cbn. rewrite (H x) by now left. f_equal. apply IH.
  intros y Hy. apply H. now right.
Qed.

(** Ticks while nothing else happens and no callback raises: every
    pending entry is called on the tick of its bucket. *)
Lemma ticks_honour_pending (raises : callback -> bool) (cb : callback)
  (n : nat) :
  (forall c, raises c = false) ->
  forall w : World,
    quiet_for cb w ->
    exists w',
      times n (SwitchController.machine_tick raises) w = (w', inr tt)
      /\ tick w' = tick w + Z.of_nat n
      /\ calls_of cb (trace w') = calls_of cb (trace w) ++ due_calls cb w n.
Proof.
  intros Hquiet. induction n as [|n IH]; intros w Hw.
  - exists w. unfold due_calls. cbn. rewrite app_nil_r.
    repeat split. lia.
  - destruct (machine_tick_calls raises cb w Hquiet Hw)
      as (w1 & Hrun1 & Htick1 & Hactive1 & Hcalls1 & Hw1).
    destruct (IH w1 Hw1) as (w' & Hrun & Htick & Hcalls).
    exists w'. cbn [times]. unfold bind at 1. rewrite Hrun1, Hrun.
    split; [reflexivity|]. split; [lia|].
    rewrite Hcalls, Hcalls1, <- app_assoc. f_equal.
    unfold due_calls. cbn [seq flat_map]. f_equal.
    symmetry. now apply due_calls_shift.
Qed.

(** A switch of the machine is reported while nothing is pending, and
    only ticks follow; no callback raises.  Then every handler registered
    under the switch and its new logical state is called exactly once,
    [dwell] ticks after the report (a dwell of 0: during the report
    itself), and neither earlier nor again: over the report and the [n]
    ticks that follow it, a callback is called on tick [t + j], for
    [j = 0 .. n], once per registration of it with a dwell of [j]
    ticks.  (The dwells are not negative, and no timer holds the
    callback.) *)
Theorem handlers_fire_after_their_dwell
  (raises : callback -> bool) (cb : callback) (n : nat) (w : World)
  (name : string) (sw : Switch.t) (s : Z) (logical : bool) :
  (forall c, raises c = false) ->
  find (fun x => String.eqb (Switch.name x) name) (machine_switches w)
  = Some sw ->
  active_timed_switches w = [] ->
  Forall (fun t => Timer.callback t <> cb) (timers w) ->
  let key := SwitchController.switch_key name
               (SwitchController.logical_state sw s logical) in
  let entries := default [] (registered_switches w !! key) in
  Forall (fun e => 0 <= Entry.ticks e) entries ->
  exists w',
    (SwitchController.process_switch raises (Some name) s logical None None ;;
     times n (SwitchController.machine_tick raises)) w = (w', inr tt)
    /\ tick w' = tick w + Z.of_nat n
    /\ calls_of cb (trace w')
       = calls_of cb (trace w)
         ++ flat_map (fun j => repeat (tick w + Z.of_nat j)
                                 (registered_for cb (Z.of_nat j) entries))
              (seq 0 (S n)).
Proof.
  intros Hquiet Hfind Hempty Htimers key entries Hdwell.
  destruct (report_without_opposite raises cb w name sw s logical Hquiet
              Hfind)
    as (w1 & Hrun1 & Htick1 & Htm1 & Hact1 & Hfut1 & Hnodup1 & Hcalls1).
  { unfold future_keys. rewrite Hempty.
    split; [constructor|]. split; [constructor|]. intros kv item []. }
  { exact Hdwell. }
  fold key entries in Hact1, Hcalls1. rewrite Hempty in Hact1.
  destruct (ticks_honour_pending raises cb n Hquiet w1)
    as (w' & Hrun & Htick & Hcalls).
  { split; [exact Hfut1|]. split; [exact Hnodup1|]. now rewrite Htm1. }
  exists w'. unfold bind at 1. rewrite Hrun1, Hrun.
  split; [reflexivity|]. split; [lia|].
  rewrite Hcalls, Hcalls1, <- app_assoc. f_equal.
  cbn [seq flat_map]. rewrite Z.add_0_r. f_equal.
  unfold due_calls. rewrite Htick1, Hact1.
  apply flat_map_agree. intros j Hj. apply in_seq in Hj. f_equal.
  rewrite pending_for_scheduled by lia. cbn.
  f_equal. lia.
Qed.

(** After [immediate_twice], "A" becomes active at tick 3: callback 1 is
    called twice on tick 3, and callback 2, registered with 40 ms, once
    on tick 5. *)
Lemma handlers_of_A_fire_after_their_dwell :
  exists w',
    (SwitchController.process_switch never_raises (Some "A") 1 false None
       None ;;
     times 4 (SwitchController.machine_tick never_raises))
      (fst (immediate_twice (boot [switch_A])))
    = (w', inr tt)
    /\ tick w' = 3 + Z.of_nat 4
    /\ calls_of 2 (trace w') = [5].
Proof.
  apply (handlers_fire_after_their_dwell never_raises 2 4
           (fst (immediate_twice (boot [switch_A]))) "A" switch_A 1 false).
  - reflexivity.
  - reflexivity.
  - reflexivity.
  - constructor.
  - vm_compute. repeat constructor; discriminate.
Defined.



(** * Properties of the serial communicator *)

Lemma bytes_eqb_single (c sep : Byte.byte) :
  BaseSerialCommunicator.bytes_eqb [c] [sep] = Byte.eqb c sep.
Proof. cbn. apply andb_true_r. Qed.

(** The loop of [readuntil] when it returns, [buffer] being the bytes
    read before. *)
Lemma read_loop_returns (sep : Byte.byte) (min_chars : Z)
  (reader : list Byte.byte) :
  forall buffer msg rest,
    BaseSerialCommunicator.read_loop [sep] min_chars buffer reader
    = (BaseSerialCommunicator.Returned msg, rest) ->
    buffer ++ reader = msg ++ rest
    /\ min_chars < Z.of_nat (length msg)
    /\ exists body,
         msg = buffer ++ body ++ [sep]
         /\ forall p s,
              body ++ [sep] = p ++ [sep] ++ s -> s <> [] ->
              Z.of_nat (length (buffer ++ p ++ [sep])) <= min_chars.
Proof.
  induction reader as [|c reader IH]; intros buffer msg rest Hrun;
    [discriminate|].
  cbn [BaseSerialCommunicator.read_loop] in Hrun.
  rewrite bytes_eqb_single in Hrun.
  destruct (Byte.eqb c sep && (min_chars <? Z.of_nat (length (buffer ++ [c]))))
    eqn:Htest.
  - injection Hrun as <- <-.
    apply andb_true_iff in Htest as [Hc Hlen].
    apply Byte.byte_dec_bl in Hc. subst c. apply Z.ltb_lt in Hlen.
    split; [now rewrite <- app_assoc|]. split; [exact Hlen|].
    exists []. split; [reflexivity|].
    intros p s Heq Hs. exfalso. apply (f_equal (@length _)) in Heq.
    rewrite !length_app in Heq. cbn in Heq.
    destruct s; [contradiction|cbn in Heq; lia].
  - apply IH in Hrun as (Hsplit & Hlen & body & Hmsg & Hmin).
    split; [now rewrite <- Hsplit, <- app_assoc|]. split; [exact Hlen|].
    exists (c :: body). split; [now rewrite Hmsg, <- app_assoc|].
    intros p s Heq Hs. destruct p as [|c' p].
    + cbn in Heq. injection Heq as -> _.
      rewrite Byte.byte_dec_lb in Htest by reflexivity.
      cbn in Htest. apply Z.ltb_ge in Htest. exact Htest.
    + cbn in Heq. injection Heq as <- Heq.
      specialize (Hmin p s Heq Hs).
      rewrite !length_app in Hmin |- *. cbn in Hmin |- *.
      rewrite !length_app in Hmin. cbn in Hmin. lia.
Qed.

(** When [readuntil] returns for a one-byte separator, it has read
    exactly the message from the reader and left the rest; the message
    ends with the separator and is longer than [min_chars]; and it is
    the shortest such prefix of the stream: a separator that occurs
    earlier in it is among its first [min_chars] bytes. *)
Theorem readuntil_returns_shortest_frame
  (sep : Byte.byte) (min_chars : Z) (reader msg rest : list Byte.byte) :
  BaseSerialCommunicator.readuntil [sep] min_chars reader
  = (BaseSerialCommunicator.Returned msg, rest) ->
  reader = msg ++ rest
  /\ (exists payload, msg = payload ++ [sep])
  /\ min_chars < Z.of_nat (length msg)
  /\ (forall p s, msg = p ++ [sep] ++ s -> s <> [] ->
        Z.of_nat (length (p ++ [sep])) <= min_chars).
Proof.
  intros Hrun. unfold BaseSerialCommunicator.readuntil in Hrun.
  apply read_loop_returns in Hrun as (Hsplit & Hlen & body & Hmsg & Hmin).
  cbn in Hsplit, Hmsg. split; [exact Hsplit|].
  split; [now exists body|]. split; [exact Hlen|].
  intros p s Heq Hs. apply (Hmin p s); [|exact Hs]. now rewrite <- Hmsg.
Qed.

(** With [min_chars = 2], the line feed at the second place of the stream
    is taken for payload. *)
Lemma readuntil_skips_early_separator :
  [Byte.x41; Byte.x0a; Byte.x42; Byte.x0a; Byte.x43]
  = [Byte.x41; Byte.x0a; Byte.x42; Byte.x0a] ++ [Byte.x43]
  /\ (exists payload,
        [Byte.x41; Byte.x0a; Byte.x42; Byte.x0a] = payload ++ [Byte.x0a])
  /\ 2 < Z.of_nat (length [Byte.x41; Byte.x0a; Byte.x42; Byte.x0a])
  /\ (forall p s,
        [Byte.x41; Byte.x0a; Byte.x42; Byte.x0a] = p ++ [Byte.x0a] ++ s ->
        s <> [] ->
        Z.of_nat (length (p ++ [Byte.x0a])) <= 2).
Proof.
  apply (readuntil_returns_shortest_frame Byte.x0a 2
           [Byte.x41; Byte.x0a; Byte.x42; Byte.x0a; Byte.x43]
           [Byte.x41; Byte.x0a; Byte.x42; Byte.x0a] [Byte.x43]).
  reflexivity.
Defined.

Lemma read_loop_frames (sep : Byte.byte) (min_chars : Z)
  (payload rest : list Byte.byte) :
  ~ In sep payload ->
  forall buffer,
    min_chars <= Z.of_nat (length buffer + length payload) ->
    BaseSerialCommunicator.read_loop [sep] min_chars buffer
      (payload ++ [sep] ++ rest)
    = (BaseSerialCommunicator.Returned (buffer ++ payload ++ [sep]), rest).
Proof.
  induction payload as [|c payload IH]; intros Hsep buffer Hmin.
  - cbn [app BaseSerialCommunicator.read_loop].
    rewrite bytes_eqb_single, Byte.byte_dec_lb by reflexivity.
    replace (min_chars <? Z.of_nat (length (buffer ++ [sep]))) with true;
      [reflexivity|].
    symmetry. apply Z.ltb_lt. rewrite length_app. cbn in Hmin |- *. lia.
  - cbn [app BaseSerialCommunicator.read_loop].
    rewrite bytes_eqb_single.
    destruct (Byte.eqb c sep) eqn:Hc.
    + apply Byte.byte_dec_bl in Hc. subst c. exfalso. apply Hsep. now left.
    + cbn [andb]. rewrite IH.
      * now rewrite <- app_assoc.
      * intros Hin. apply Hsep. now right.
      * rewrite length_app. cbn in Hmin |- *. lia.
Qed.

Lemma read_loop_long_separator (separator : list Byte.byte)
  (min_chars : Z) (reader : list Byte.byte) :
  length separator <> 1%nat ->
  forall buffer,
    BaseSerialCommunicator.read_loop separator min_chars buffer reader
    = (BaseSerialCommunicator.IncompleteReadError, []).
Proof.
  intros Hlen. induction reader as [|c reader IH]; intros buffer;
    [reflexivity|].
  cbn [BaseSerialCommunicator.read_loop].
  replace (BaseSerialCommunicator.bytes_eqb [c] separator) with false;
    [apply IH|].
  destruct separator as [|x [|y separator]]; cbn in *;
    [reflexivity|contradiction|].
  now rewrite andb_false_r.
Qed.

(** Framing.  A payload without the separator, followed by the separator,
    is read back as one message, separator included, and the bytes that
    follow are left in the reader ([min_chars] being at most the length
    of the payload).  A separator that is not one byte long is never
    found: the stream is read to its end and [readexactly] raises. *)
Theorem readuntil_reads_one_frame
  (sep : Byte.byte) (min_chars : Z) (payload rest : list Byte.byte) :
  ~ In sep payload ->
  min_chars <= Z.of_nat (length payload) ->
  BaseSerialCommunicator.readuntil [sep] min_chars (payload ++ [sep] ++ rest)
  = (BaseSerialCommunicator.Returned (payload ++ [sep]), rest)
  /\ (forall separator,
        length separator <> 1%nat ->
        BaseSerialCommunicator.readuntil separator min_chars
          (payload ++ [sep] ++ rest)
        = (BaseSerialCommunicator.IncompleteReadError, [])).
Proof.
  intros Hsep Hmin. split.
  - unfold BaseSerialCommunicator.readuntil.
    now rewrite read_loop_frames.
  - intros separator Hlen. now apply read_loop_long_separator.
Qed.

(** Two lines, "AB" and "C", each closed by a line feed. *)
Lemma readuntil_reads_first_line :
  BaseSerialCommunicator.readuntil [Byte.x0a] 0
    ([Byte.x41; Byte.x42] ++ [Byte.x0a] ++ [Byte.x43; Byte.x0a])
  = (BaseSerialCommunicator.Returned ([Byte.x41; Byte.x42] ++ [Byte.x0a]),
     [Byte.x43; Byte.x0a])
  /\ (forall separator,
        length separator <> 1%nat ->
        BaseSerialCommunicator.readuntil separator 0
          ([Byte.x41; Byte.x42] ++ [Byte.x0a] ++ [Byte.x43; Byte.x0a])
        = (BaseSerialCommunicator.IncompleteReadError, [])).
Proof.
  apply (readuntil_reads_one_frame Byte.x0a 0 [Byte.x41; Byte.x42]
           [Byte.x43; Byte.x0a]).
  - cbn. intuition discriminate.
  - cbn. lia.
Defined.
(** * Properties of the accelerometer *)

Module AccelerometerProperties.
Import Accelerometer.
Local Open Scope float_scope.

Lemma same_signal_refl (a : t) : same_signal a a.
Proof. repeat split. Qed.

Lemma lift_state {A} (r : Result A) (a : t) : fst (lift r a) = a.
Proof. reflexivity. Qed.

Lemma vector_length_state x y z (a : t) :
  fst (_calculate_vector_length x y z a) = a.
Proof. reflexivity. Qed.

(** [_calculate_angle] has no effect on the device, whether it returns or
    raises. *)
Lemma calculate_angle_state acos x1 y1 z1 x2 y2 z2 (a : t) :
  fst (_calculate_angle acos x1 y1 z1 x2 y2 z2 a) = a.
Proof.
  unfold _calculate_angle, _calculate_vector_length, bind, lift.
  destruct (math_sqrt _); [reflexivity|].
  destruct (math_sqrt _); [reflexivity|].
  destruct (float_div _ _); reflexivity.
Qed.

Lemma post_same_signal e kw (a0 a : t) :
  same_signal a0 a -> same_signal a0 (fst (post e kw a)).
Proof. intros H. exact H. Qed.

Lemma handle_hits_same_signal dx dy dz (a0 a : t) :
  same_signal a0 a -> same_signal a0 (fst (_handle_hits dx dy dz a)).
Proof.
  intros Ha. unfold _handle_hits. apply bind_fst; [exact Ha|].
  intros acc a1 Ha1. change (bind get ?k a1) with (k a1 a1). cbv beta.
  apply for_each_fst; [|exact Ha1].
  intros limit a2 _ Ha2. destruct (_ <? _); exact Ha2.
Qed.

Lemma handle_level_same_signal acos x y z (a0 a : t) :
  same_signal a0 a -> same_signal a0 (fst (_handle_level acos x y z a)).
Proof.
  intros Ha. unfold _handle_level.
  change (bind get ?k a) with (k a a). cbv beta zeta.
  apply bind_fst; [now rewrite calculate_angle_state|]. intros dt a1 Ha1.
  apply bind_fst; [now rewrite calculate_angle_state|]. intros dx a2 Ha2.
  apply bind_fst; [now rewrite calculate_angle_state|]. intros dy a3 Ha3.
  apply for_each_fst; [|exact Ha3].
  intros limit a4 _ Ha4. destruct (_ <? _); exact Ha4.
Qed.

(** C7 (as stated, refuted): the device is configured with [alpha = 0.5]
    and its filtered state is (0, 0, 1).  The sample (0, 0, 2) gives the
    deltas (0, 0, 1) and the filtered state (0, 0, 1.05), which is
    [0.95 * 1 + (1 - 0.95) * 2]; with the configured coefficient it would
    be [0.5 * 1 + (1 - 0.5) * 2 = 1.5]. *)
Lemma smoothing_ignores_configured_alpha :
  others (config resting) !! "alpha" = Some 0.5
  /\ history resting = Some (0, 0, 1)
  /\ low_pass 0 0 2 resting
     = (set_history (Some (0, 0, 1.05)) resting, inr (0, 0, 1))
  /\ 1 * 0.5 + 2 * (1 - 0.5) = 1.5
  /\ (1.5 =? 1.05) = false.
Proof. repeat split. Qed.

(** C7 (amended): after the first sample, the deltas handed to hit
    detection are the new sample minus the filtered state as it was before
    the update, and the filtered state becomes
    [0.95 * filtered + (1 - 0.95) * sample]: the coefficient is the
    constant 0.95 whatever the configuration holds.  Hit and level
    detection leave the filtered state as the filter set it. *)
Theorem update_acceleration_filters_with_fixed_alpha
  (acos : float -> float) (a : t) (x y z h0 h1 h2 : float) :
  history a = Some (h0, h1, h2) ->
  let filtered :=
    Some (h0 * 0.95 + x * (1 - 0.95),
          h1 * 0.95 + y * (1 - 0.95),
          h2 * 0.95 + z * (1 - 0.95)) in
  update_acceleration acos x y z a
  = (_handle_hits (x - h0) (y - h1) (z - h2) ;; _handle_level acos x y z)
      (set_history filtered (set_value (Some (x, y, z)) a))
  /\ history (fst (update_acceleration acos x y z a)) = filtered
  /\ value (fst (update_acceleration acos x y z a)) = Some (x, y, z).
Proof.
  intros Hh filtered.
  assert (Hrun : update_acceleration acos x y z a
                 = (_handle_hits (x - h0) (y - h1) (z - h2) ;;
                    _handle_level acos x y z)
                     (set_history filtered (set_value (Some (x, y, z)) a))).
  { unfold update_acceleration, low_pass, bind at 1, modify at 1.
    unfold bind at 1. unfold bind at 1, get at 1.
    cbn [history set_value]. rewrite Hh. reflexivity. }
  split; [exact Hrun|]. rewrite Hrun.
  match goal with
  | |- context [bind ?c ?k ?a1] =>
      assert (Hs : same_signal a1 (fst (bind c k a1)))
  end.
  { apply bind_fst.
    - apply handle_hits_same_signal, same_signal_refl.
    - intros _ a2. apply handle_level_same_signal. }
  destruct Hs as (_ & Hv & Hhist). rewrite Hhist, Hv. split; reflexivity.
Qed.

(** The resting device receives the sample (0, 0, 0). *)
Lemma update_acceleration_filters_resting_device :
  update_acceleration acos_not_reached 0 0 0 resting
  = (_handle_hits (0 - 0) (0 - 0) (0 - 1) ;;
     _handle_level acos_not_reached 0 0 0)
      (set_history
         (Some (0 * 0.95 + 0 * (1 - 0.95),
                0 * 0.95 + 0 * (1 - 0.95),
                1 * 0.95 + 0 * (1 - 0.95)))
         (set_value (Some (0, 0, 0)) resting))
  /\ history (fst (update_acceleration acos_not_reached 0 0 0 resting))
     = Some (0 * 0.95 + 0 * (1 - 0.95),
             0 * 0.95 + 0 * (1 - 0.95),
             1 * 0.95 + 0 * (1 - 0.95))
  /\ value (fst (update_acceleration acos_not_reached 0 0 0 resting))
     = Some (0, 0, 0).
Proof.
  apply (update_acceleration_filters_with_fixed_alpha acos_not_reached
           resting 0 0 0 0 0 1).
  reflexivity.
Defined.

(** ** Level detection *)

(** C8 (as stated, refuted): with the upright reference, the sample
    (0, 0, 0) makes [update_acceleration] raise [ZeroDivisionError]
    instead of skipping level detection.  With the diagonal reference,
    the sample (1, 1, 1) gives the cosine argument
    [3 / (sqrt 3 * sqrt 3) = 1.0000000000000002], which is handed to
    [math.acos] unclamped: [ValueError]. *)
Lemma level_detection_raises :
  update_acceleration acos_not_reached 0 0 0 (init upright)
  = (mk upright (Some (0, 0, 0)) (Some (0, 0, 0)) [], inl ZeroDivisionError)
  /\ _calculate_angle acos_not_reached 0 0 1 0 0 0 (init upright)
     = (init upright, inl ZeroDivisionError)
  /\ update_acceleration acos_not_reached 1 1 1 (init diagonal)
     = (mk diagonal (Some (1, 1, 1)) (Some (1, 1, 1)) [], inl ValueError)
  /\ float_div (1 * 1 + 1 * 1 + 1 * 1) (sqrt 3 * sqrt 3)
     = inr 1.0000000000000002
  /\ (1 <? 1.0000000000000002) = true.
Proof. repeat split. Qed.

(** A sample on the x axis has length 1, but its projection for
    [deviation_x] has length 0: [ZeroDivisionError] again, whatever
    [math.acos] returns for the total angle. *)
Lemma sample_on_x_axis_raises (acos : float -> float) :
  update_acceleration acos 1 0 0 (init upright)
  = (mk upright (Some (1, 0, 0)) (Some (1, 0, 0)) [], inl ZeroDivisionError).
Proof. reflexivity. Qed.

Lemma posting_loop_returns {A} (l : list A) (test : A -> bool)
  (e : A -> string) (kw : list (string * float)) (a : t) :
  snd (for_each l (fun x => if test x then post (e x) kw else ret tt) a)
  = inr tt.
Proof.
  revert a. induction l as [|x l IH]; intros a; [reflexivity|].
  cbn [for_each]. unfold bind at 1.
  destruct (test x); cbn; apply IH.
Qed.

Lemma calculate_angle_result acos x1 y1 z1 x2 y2 z2 (a : t) :
  _calculate_angle acos x1 y1 z1 x2 y2 z2 a
  = (a, snd (_calculate_angle acos x1 y1 z1 x2 y2 z2 a)).
Proof.
  rewrite <- (calculate_angle_state acos x1 y1 z1 x2 y2 z2 a) at 2.
  now destruct (_calculate_angle acos x1 y1 z1 x2 y2 z2 a).
Qed.

(** [_handle_level] raises exactly when one of its three angles does, and
    then it has posted nothing. *)
Lemma handle_level_raises_before_posting acos x y z (a : t) (e : exn) :
  snd (_handle_level acos x y z a) = inl e ->
  fst (_handle_level acos x y z a) = a.
Proof.
  destruct (_handle_level acos x y z a) as [a' r] eqn:Hrun.
  cbn [fst snd]. intros ->.
  unfold _handle_level in Hrun.
  change (bind get ?k a) with (k a a) in Hrun. cbv beta zeta in Hrun.
  unfold bind at 1 in Hrun. rewrite calculate_angle_result in Hrun.
  destruct (snd (_calculate_angle acos _ _ _ x y z a)) as [e1|dt];
    [now injection Hrun|].
  unfold bind at 1 in Hrun. rewrite calculate_angle_result in Hrun.
  destruct (snd (_calculate_angle acos 0 _ _ 0 y z a)) as [e2|dx];
    [now injection Hrun|].
  unfold bind at 1 in Hrun. rewrite calculate_angle_result in Hrun.
  destruct (snd (_calculate_angle acos _ 0 _ x 0 z a)) as [e3|dy];
    [now injection Hrun|].
  exfalso.
  pose proof (posting_loop_returns (level_limits (config a))
                (fun limit => fst limit <? dt / math_pi * 180) snd
                [("deviation_total", dt); ("deviation_x", dx);
                 ("deviation_y", dy)] a) as Hloop.
  cbv beta in Hloop. rewrite Hrun in Hloop. discriminate.
Qed.

(** The first angle of [_handle_level] decides: when it raises, so does
    [_handle_level], with the same exception. *)
Lemma handle_level_first_angle acos x y z (a : t) (e : exn) :
  snd (_calculate_angle acos (level_x (config a)) (level_y (config a))
         (level_z (config a)) x y z a) = inl e ->
  _handle_level acos x y z a = (a, inl e).
Proof.
  intros Hangle. unfold _handle_level.
  change (bind get ?k a) with (k a a). cbv beta zeta.
  unfold bind at 1. rewrite calculate_angle_result, Hangle. reflexivity.
Qed.

Lemma is_nan_Prim2SF (d : float) : is_nan d = true -> Prim2SF d = S754_nan.
Proof.
  unfold is_nan. rewrite FloatAxioms.eqb_spec. unfold SFeqb, SFcompare.
  destruct (Prim2SF d) as [s|s| |s m e].
  - discriminate.
  - destruct s; discriminate.
  - reflexivity.
  - destruct s; rewrite Z.compare_refl, Pos.compare_cont_refl; discriminate.
Qed.

(** A NaN angle exceeds no threshold: [nan / math.pi * 180 > limit] is
    false. *)
Lemma nan_exceeds_no_limit (limit d : float) :
  is_nan d = true -> (limit <? d / math_pi * 180) = false.
Proof.
  intros Hnan. apply is_nan_Prim2SF in Hnan.
  rewrite FloatAxioms.ltb_spec, FloatAxioms.mul_spec, FloatAxioms.div_spec.
  rewrite Hnan. cbn.
  unfold SFltb, SFcompare. now destruct (Prim2SF limit).
Qed.

(** Every event that [_handle_level] publishes carries a
    [deviation_total] that is a number. *)
Lemma handle_level_total_is_a_number acos x y z (a : t) (p : Post) :
  In p (posted (fst (_handle_level acos x y z a))) ->
  In p (posted a)
  \/ exists dt dx dy,
       kwargs p = [("deviation_total", dt); ("deviation_x", dx);
                   ("deviation_y", dy)]
       /\ is_nan dt = false.
Proof.
  revert p.
  set (P := fun s : t =>
              forall p, In p (posted s) ->
                In p (posted a)
                \/ exists dt dx dy,
                     kwargs p = [("deviation_total", dt); ("deviation_x", dx);
                                 ("deviation_y", dy)]
                     /\ is_nan dt = false).
  change (P (fst (_handle_level acos x y z a))).
  assert (Ha : P a) by (intros p Hp; now left).
  unfold _handle_level.
  change (bind get ?k a) with (k a a). cbv beta zeta.
  apply bind_fst; [now rewrite calculate_angle_state|]. intros dt a1 Ha1.
  apply bind_fst; [now rewrite calculate_angle_state|]. intros dx a2 Ha2.
  apply bind_fst; [now rewrite calculate_angle_state|]. intros dy a3 Ha3.
  apply for_each_fst; [|exact Ha3].
  intros limit s _ Hs.
  destruct (fst limit <? dt / math_pi * 180) eqn:Hover; [|exact Hs].
  intros p Hp. cbn in Hp. apply in_app_or in Hp as [Hp|[<-|[]]].
  - now apply Hs.
  - right. exists dt, dx, dy. split; [reflexivity|].
    destruct (is_nan dt) eqn:Hnan; [|reflexivity].
    now rewrite (nan_exceeds_no_limit (fst limit) dt Hnan) in Hover.
Qed.

(** C8 (amended): level detection has no guard and no clamp.  When the
    product of the lengths of the reference vector and of the sample is
    zero, [_handle_level] raises [ZeroDivisionError]; when it is not and
    the cosine argument lies outside [-1, 1], [_handle_level] raises
    [ValueError]; whenever [_handle_level] raises, it has published no
    event for the sample; and the [deviation_total] of every event it
    publishes is a number, a NaN angle exceeding no limit. *)
Theorem level_detection_is_unguarded
  (acos : float -> float) (a : t) (x y z : float) :
  let c := config a in
  (forall e, snd (_handle_level acos x y z a) = inl e ->
             fst (_handle_level acos x y z a) = a)
  /\ (forall l1 l2 : float,
        math_sqrt (level_x c * level_x c + level_y c * level_y c
                   + level_z c * level_z c) = inr l1 ->
        math_sqrt (x * x + y * y + z * z) = inr l2 ->
        (l1 * l2 =? 0) = true ->
        _handle_level acos x y z a = (a, inl ZeroDivisionError))
  /\ (forall l1 l2 cosine : float,
        math_sqrt (level_x c * level_x c + level_y c * level_y c
                   + level_z c * level_z c) = inr l1 ->
        math_sqrt (x * x + y * y + z * z) = inr l2 ->
        float_div (level_x c * x + level_y c * y + level_z c * z) (l1 * l2)
        = inr cosine ->
        (cosine <? -1) || (1 <? cosine) = true ->
        _handle_level acos x y z a = (a, inl ValueError))
  /\ (forall p, In p (posted (fst (_handle_level acos x y z a))) ->
        In p (posted a)
        \/ exists dt dx dy,
             kwargs p = [("deviation_total", dt); ("deviation_x", dx);
                         ("deviation_y", dy)]
             /\ is_nan dt = false).
Proof.
  intros c. split; [|split; [|split]].
  - intros e. apply handle_level_raises_before_posting.
  - intros l1 l2 H1 H2 Hzero. apply handle_level_first_angle.
    unfold _calculate_angle, _calculate_vector_length, bind, lift.
    fold c. rewrite H1, H2. unfold float_div. now rewrite Hzero.
  - intros l1 l2 cosine H1 H2 Hdiv Hout. apply handle_level_first_angle.
    unfold _calculate_angle, _calculate_vector_length, bind, lift.
    fold c. rewrite H1, H2, Hdiv. unfold math_acos. now rewrite Hout.
  - intros p. apply handle_level_total_is_a_number.
Qed.

(** The sample (0, 0, 0) against the upright reference, and the sample
    (1, 1, 1) against the diagonal one. *)
Lemma level_detection_is_unguarded_on_zero_and_diagonal :
  _handle_level acos_not_reached 0 0 0 (init upright)
  = (init upright, inl ZeroDivisionError)
  /\ fst (_handle_level acos_not_reached 0 0 0 (init upright))
     = init upright
  /\ _handle_level acos_not_reached 1 1 1 (init diagonal)
     = (init diagonal, inl ValueError).
Proof.
  split; [|split].
  - apply (proj1 (proj2 (level_detection_is_unguarded acos_not_reached
                           (init upright) 0 0 0)) 1 0);
      reflexivity.
  - apply (proj1 (level_detection_is_unguarded acos_not_reached
                    (init upright) 0 0 0) ZeroDivisionError).
    reflexivity.
  - apply (proj1 (proj2 (proj2 (level_detection_is_unguarded
                                  acos_not_reached (init diagonal) 1 1 1)))
             (sqrt 3) (sqrt 3) 1.0000000000000002);
      reflexivity.
Defined.


(** ** Hit detection *)

(** The argument of [math.sqrt] in [_calculate_vector_length] is never
    below zero, whatever the three numbers are (infinities and NaN
    included). *)
Lemma sum_of_squares_not_below_zero (x y z : float) :
  (x * x + y * y + z * z <? 0) = false.
Proof.
  apply not_negative_not_below_zero.
  rewrite !FloatAxioms.add_spec, !FloatAxioms.mul_spec.
  apply add_not_negative; [apply add_not_negative|];
    apply mul_self_not_negative.
Qed.

(** [_calculate_vector_length] always returns. *)
Lemma vector_length_returns (x y z : float) (a : t) :
  _calculate_vector_length x y z a
  = (a, inr (sqrt (x * x + y * y + z * z))).
Proof.
  unfold _calculate_vector_length, lift, math_sqrt.
  now rewrite sum_of_squares_not_below_zero.
Qed.

(** A loop that posts an event for every element that passes a test. *)
Lemma posting_loop_run {A} (l : list A) (test : A -> bool)
  (e : A -> string) (kw : list (string * float)) :
  forall a : t,
    for_each l (fun x => if test x then post (e x) kw else ret tt) a
    = (mk (config a) (value a) (history a)
         (posted a ++ map (fun x => mkPost (e x) kw) (List.filter test l)),
       inr tt).
Proof.
  induction l as [|x l IH]; intros a.
  - cbn. rewrite app_nil_r. now destruct a.
  - cbn [for_each List.filter]. unfold bind at 1.
    destruct (test x).
    + unfold post at 1, modify. rewrite IH. cbn.
      now rewrite <- app_assoc.
    + unfold ret at 1. apply IH.
Qed.

Lemma handle_hits_run (dx dy dz : float) (a : t) :
  _handle_hits dx dy dz a
  = (mk (config a) (value a) (history a)
       (posted a
        ++ map (fun limit => mkPost (snd limit) [])
             (List.filter
                (fun limit =>
                   fst limit <? sqrt (dx * dx + dy * dy + dz * dz))
                (hit_limits (config a)))),
     inr tt).
Proof.
  unfold _handle_hits, bind at 1. rewrite vector_length_returns.
  change (bind get ?k a) with (k a a). cbv beta.
  exact (posting_loop_run (hit_limits (config a))
           (fun limit => fst limit <? sqrt (dx * dx + dy * dy + dz * dz))
           snd [] a).
Qed.

(** Hit detection is total: [_handle_hits] never raises ([math.sqrt] is
    never handed a number below zero).  It posts, in the order of
    [hit_limits] and without arguments, the event of every limit that is
    strictly below the length of the delta vector, and nothing else; a
    limit equal to the length, or a length that is NaN, posts nothing. *)
Theorem hit_detection_posts_exceeded_limits (dx dy dz : float) (a : t) :
  _handle_hits dx dy dz a
  = (mk (config a) (value a) (history a)
       (posted a
        ++ map (fun limit => mkPost (snd limit) [])
             (List.filter
                (fun limit =>
                   fst limit <? sqrt (dx * dx + dy * dy + dz * dz))
                (hit_limits (config a)))),
     inr tt).
Proof.
  unfold _handle_hits, bind at 1. rewrite vector_length_returns.
  change (bind get ?k a) with (k a a). cbv beta.
  exact (posting_loop_run (hit_limits (config a))
           (fun limit => fst limit <? sqrt (dx * dx + dy * dy + dz * dz))
           snd [] a).
Qed.

(** On the first sample the filtered state becomes the sample itself and
    the deltas are zero: hit detection posts the events of the negative
    limits only (none, when every limit is at least zero), and level
    detection then runs on the sample. *)
Theorem first_sample_initialises_filter
  (acos : float -> float) (a : t) (x y z : float) :
  history a = None ->
  update_acceleration acos x y z a
  = _handle_level acos x y z
      (mk (config a) (Some (x, y, z)) (Some (x, y, z))
         (posted a
          ++ map (fun limit => mkPost (snd limit) [])
               (List.filter (fun limit => fst limit <? 0)
                  (hit_limits (config a))))).
Proof.
  intros Hh.
  unfold update_acceleration, low_pass, bind at 1, modify at 1.
  unfold bind at 1. unfold bind at 1, get at 1.
  cbn [history set_value]. rewrite Hh.
  unfold bind at 1, modify at 1, ret at 1.
  unfold bind at 1. rewrite handle_hits_run. reflexivity.
Qed.

(** The first sample (0, 0, 1) of a device with the upright reference. *)
Lemma first_sample_of_upright_device :
  update_acceleration acos_coarse 0 0 1 (init upright)
  = _handle_level acos_coarse 0 0 1
      (mk upright (Some (0, 0, 1)) (Some (0, 0, 1))
         ([] ++ map (fun limit => mkPost (snd limit) [])
                  (List.filter (fun limit => fst limit <? 0)
                     [(0.5, "tilt_warning")]))).
Proof.
  apply (first_sample_initialises_filter acos_coarse (init upright) 0 0 1).
  reflexivity.
Defined.

(** ** Level detection, when the angles are defined *)

(** When the three angles are defined, [_handle_level] returns.  It
    posts, in the order of [level_limits], the event of every limit that
    is strictly below the total deviation in degrees
    ([deviation_total / math.pi * 180]); every event carries the same
    three angles, in radians.  The deviations along x and y are reported
    but decide nothing. *)
Theorem level_detection_posts_exceeded_limits
  (acos : float -> float) (a : t) (x y z dt dx dy : float) :
  let c := config a in
  snd (_calculate_angle acos (level_x c) (level_y c) (level_z c) x y z a)
  = inr dt ->
  snd (_calculate_angle acos 0 (level_y c) (level_z c) 0 y z a) = inr dx ->
  snd (_calculate_angle acos (level_x c) 0 (level_z c) x 0 z a) = inr dy ->
  _handle_level acos x y z a
  = (mk (config a) (value a) (history a)
       (posted a
        ++ map (fun limit =>
                  mkPost (snd limit)
                    [("deviation_total", dt); ("deviation_x", dx);
                     ("deviation_y", dy)])
             (List.filter (fun limit => fst limit <? dt / math_pi * 180)
                (level_limits (config a)))),
     inr tt).
Proof.
  intros c Ht Hx Hy. unfold _handle_level.
  change (bind get ?k a) with (k a a). cbv beta zeta. fold c.
  unfold bind at 1. rewrite calculate_angle_result, Ht.
  unfold bind at 1. rewrite calculate_angle_result, Hx.
  unfold bind at 1. rewrite calculate_angle_result, Hy.
  exact (posting_loop_run (level_limits c)
           (fun limit => fst limit <? dt / math_pi * 180) snd
           [("deviation_total", dt); ("deviation_x", dx);
            ("deviation_y", dy)] a).
Qed.

(** The sample (0, 1, 1) against the upright reference, with the coarse
    arc cosine: 45 degrees exceed the limit of 30. *)
Lemma level_detection_posts_tilted :
  _handle_level acos_coarse 0 1 1 (init upright)
  = (mk upright None None
       [mkPost "tilted"
          [("deviation_total", 0.7853981633974483);
           ("deviation_x", 0.7853981633974483);
           ("deviation_y", 0)]],
     inr tt).
Proof.
  apply (level_detection_posts_exceeded_limits acos_coarse (init upright)
           0 1 1 0.7853981633974483 0.7853981633974483 0);
    reflexivity.
Defined.
End AccelerometerProperties.
